(** * Build registry and workspace reclaimer of [src/projects.js]

    A shallow embedding of [isValid], [addBuild], [clearWorkspace] and
    [clearFolder], and of [getProjects], [generateHTML] and
    [generateBadge], with the JavaScript values, the JSON documents and
    the file system they work on, followed by the properties of the
    specification that were checked against it and by further properties
    of the code. *)

From Stdlib Require Import ZArith NArith Ascii String List DecimalString
  DecimalNat DecimalN DecimalZ Lia.
From stdpp Require Import base option list strings gmap.

Set Warnings "-register-all".
Local Open Scope string_scope.

(** ** JavaScript values *)

Module JS.

(** A JavaScript number. [Int z] is a double whose value is the integer
    [z]; [Fractional text] is a finite double that is not an integer, kept
    by its decimal rendering (the only thing the code could do with it is
    to print it). *)
Inductive number : Type :=
| Int (z : Z)
| Fractional (text : string)
| NaN
| Infinity (negative : bool).

(** What [Object.getPrototypeOf] and [instanceof String] tell objects
    apart by: [Plain] objects have [Object.prototype] as prototype (object
    literals, the results of [JSON.parse]); [StringWrapper s] is
    [new String(s)]; [Other] is any other object (class instances,
    [Object.create(...)], arrays, functions). *)
Inductive class : Type :=
| Plain
| StringWrapper (data : string)
| Other.

(** [props] lists the enumerable properties of an object in the order in
    which [for ... in] visits them. *)
Inductive value : Type :=
| VUndefined
| VNull
| VBool (b : bool)
| VNum (n : number)
| VStr (s : string)
| VObj (c : class) (props : list (string * value)).

(** What a promise is rejected with, or what a [throw] carries. *)
Inductive error : Type :=
| Reason (text : string)      (* reject("Invalid Job") *)
| TypeError
| SyntaxError
| SystemError (code : string). (* the Error of a failed fs call *)

Inductive result (A : Type) : Type :=
| Ok (a : A)
| Throw (e : error).
Arguments Ok {A} a.
Arguments Throw {A} e.

(** Statements in sequence: the first [throw] ends the evaluation. *)
#[global] Instance result_ret : MRet result := fun A a => Ok a.
#[global] Instance result_bind : MBind result := fun A B k r =>
  match r with
  | Ok a => k a
  | Throw e => Throw e
  end.

#[global] Instance number_eq_dec : EqDecision number.
Proof. solve_decision. Defined.
#[global] Instance class_eq_dec : EqDecision class.
Proof. solve_decision. Defined.
#[global] Instance error_eq_dec : EqDecision error.
Proof. solve_decision. Defined.

(** *** Property keys *)

(** [String(z)] for an integral number, in decimal notation. That is
    what JavaScript prints of an integer [Number.isSafeInteger] accepts;
    from [2^53] on it prints the shortest digits that read back as the
    same double, in exponent notation from [10^21] on, and that is not
    modelled. *)
Definition Int_toString (z : Z) : string :=
  NilZero.string_of_int (Z.to_int z).

Definition Nat_toString (n : nat) : string :=
  NilZero.string_of_uint (Nat.to_uint n).

(** A key is an array index when it is the canonical decimal form of an
    integer below [2^32 - 1]; such keys are enumerated first, in
    ascending order. *)
Definition array_index (key : string) : option N :=
  match NilZero.uint_of_string key with
  | Some d =>
      if Decimal.uint_eq_dec (Decimal.unorm d) d
      then let n := N.of_uint d in
           if (n <? 4294967295)%N then Some n else None
      else None
  | None => None
  end.

(** *** Conversions *)

Definition ToBoolean (v : value) : bool :=
  match v with
  | VUndefined | VNull => false
  | VBool b => b
  | VNum (Int z) => negb (z =? 0)%Z
  | VNum NaN => false
  | VNum _ => true
  | VStr s => negb (String.eqb s "")
  | VObj _ _ => true
  end.

Definition Number_toString (n : number) : string :=
  match n with
  | Int z => Int_toString z
  | Fractional text => text
  | NaN => "NaN"
  | Infinity false => "Infinity"
  | Infinity true => "-Infinity"
  end.

Definition ToString (v : value) : string :=
  match v with
  | VUndefined => "undefined"
  | VNull => "null"
  | VBool true => "true"
  | VBool false => "false"
  | VNum n => Number_toString n
  | VStr s => s
  | VObj (StringWrapper s) _ => s
  | VObj _ _ => "[object Object]"
  end.

(** [typeof v === 'string'], [v instanceof String],
    [typeof v === "boolean"], [Number.isInteger(v)]. *)
Definition typeof_string (v : value) : bool :=
  match v with VStr _ => true | _ => false end.

Definition instanceof_String (v : value) : bool :=
  match v with VObj (StringWrapper _) _ => true | _ => false end.

Definition typeof_boolean (v : value) : bool :=
  match v with VBool _ => true | _ => false end.

Definition Number_isInteger (v : value) : bool :=
  match v with VNum (Int _) => true | _ => false end.

(** [Object.getPrototypeOf(v) === Object.prototype]. A primitive has the
    prototype of its wrapper, never [Object.prototype]. *)
Definition has_Object_prototype (v : value) : bool :=
  match v with VObj Plain _ => true | _ => false end.

(** *** Properties *)

Fixpoint lookup_prop {A} (key : string) (props : list (string * A))
  : option A :=
  match props with
  | [] => None
  | (k, a) :: rest =>
      if String.eqb k key then Some a else lookup_prop key rest
  end.

(** The characters of a string are its properties ["0"], ["1"], ... *)
Definition string_member (s : string) (key : string) : value :=
  if String.eqb key "length" then VNum (Int (Z.of_nat (String.length s)))
  else match array_index key with
       | Some i =>
           match String.get (N.to_nat i) s with
           | Some c => VStr (String c EmptyString)
           | None => VUndefined
           end
       | None => VUndefined
       end.

(** [v.key] for a value that is neither [undefined] nor [null]. None of
    the keys the code reads is a property of a built-in prototype, so a
    key that is not listed reads as [undefined]. *)
Definition member (v : value) (key : string) : value :=
  match v with
  | VObj c props =>
      match lookup_prop key props with
      | Some w => w
      | None =>
          match c with
          | StringWrapper s => string_member s key
          | _ => VUndefined
          end
      end
  | VStr s => string_member s key
  | _ => VUndefined
  end.

(** [v.key] in general: reading a property of [undefined] or [null]
    throws a TypeError. *)
Definition Get (v : value) (key : string) : result value :=
  match v with
  | VUndefined | VNull => Throw TypeError
  | _ => Ok (member v key)
  end.

(** Where [o[key] = v] puts the property. An existing property keeps its
    place; a new one is created after the array indices below it when
    its key is an array index, and last otherwise. *)
Fixpoint replace_prop {A} (key : string) (a : A) (props : list (string * A))
  : list (string * A) :=
  match props with
  | [] => []
  | (k, b) :: rest =>
      if String.eqb k key then (k, a) :: rest
      else (k, b) :: replace_prop key a rest
  end.

Definition comes_before (key k : string) : bool :=
  match array_index key, array_index k with
  | Some i, Some j => (i <? j)%N
  | Some _, None => true
  | None, _ => false
  end.

Fixpoint create_prop {A} (key : string) (a : A) (props : list (string * A))
  : list (string * A) :=
  match props with
  | [] => [(key, a)]
  | (k, b) :: rest =>
      if comes_before key k then (key, a) :: (k, b) :: rest
      else (k, b) :: create_prop key a rest
  end.

Definition put_prop {A} (key : string) (a : A) (props : list (string * A))
  : list (string * A) :=
  match lookup_prop key props with
  | Some _ => replace_prop key a props
  | None => create_prop key a props
  end.

(** [o[key] = v]; the result is [o] after the assignment. The module is
    not in strict mode: an assignment to a property of a primitive, or to
    a character of a String object, is ignored; on [undefined] and [null]
    it throws. *)
Definition Put (o : value) (key : string) (v : value) : result value :=
  match o with
  | VUndefined | VNull => Throw TypeError
  | VObj (StringWrapper s) props =>
      match string_member s key with
      | VUndefined => Ok (VObj (StringWrapper s) (put_prop key v props))
      | _ => Ok o
      end
  | VObj c props => Ok (VObj c (put_prop key v props))
  | _ => Ok o
  end.

(** The keys [for (let key in v)] visits; none for [undefined], [null],
    numbers and booleans. *)
Definition string_keys (s : string) : list string :=
  map Nat_toString (seq 0 (String.length s)).

Definition for_in_keys (v : value) : list string :=
  match v with
  | VObj (StringWrapper s) props => string_keys s ++ map fst props
  | VObj _ props => map fst props
  | VStr s => string_keys s
  | _ => []
  end.

(** [a === b]. Object identity is not part of the model: two objects
    compare unequal, as the objects of a parsed ledger and of a job do.
    A job one of whose tags holds the very object that is its
    [commit.sha] is not modelled. *)
Definition number_equal (a b : number) : bool :=
  match a, b with
  | NaN, _ | _, NaN => false
  | _, _ => bool_decide (a = b)
  end.

Definition strict_equal (a b : value) : bool :=
  match a, b with
  | VUndefined, VUndefined => true
  | VNull, VNull => true
  | VBool x, VBool y => bool_decide (x = y)
  | VNum x, VNum y => number_equal x y
  | VStr x, VStr y => String.eqb x y
  | _, _ => false
  end.

(** *** JSON *)

(** A JSON document, as [JSON.parse] returns it: the members of an object
    in the order of enumeration. Arrays are left out. *)
Inductive json : Type :=
| JNull
| JBool (b : bool)
| JInt (z : Z)
| JFrac (text : string)
| JStr (s : string)
| JObj (members : list (string * json)).

Fixpoint value_of_json (j : json) : value :=
  match j with
  | JNull => VNull
  | JBool b => VBool b
  | JInt z => VNum (Int z)
  | JFrac text => VNum (Fractional text)
  | JStr s => VStr s
  | JObj members =>
      VObj Plain
        ((fix each (ms : list (string * json)) : list (string * value) :=
            match ms with
            | [] => []
            | (k, x) :: rest => (k, value_of_json x) :: each rest
            end) members)
  end.

(** [JSON.stringify(v)], as the document its text denotes; [None] is
    [undefined]. Properties whose value is [undefined] are skipped, [NaN]
    and the infinities become [null], a String object its string. An
    object of the class [Other] is written by its properties, as the
    instance of a class is; arrays, functions and objects with a method
    [toJSON] are not modelled. *)
Fixpoint JSON_stringify (v : value) : option json :=
  match v with
  | VUndefined => None
  | VNull => Some JNull
  | VBool b => Some (JBool b)
  | VNum (Int z) => Some (JInt z)
  | VNum (Fractional text) => Some (JFrac text)
  | VNum _ => Some JNull
  | VStr s => Some (JStr s)
  | VObj (StringWrapper s) _ => Some (JStr s)
  | VObj _ props =>
      Some (JObj
        ((fix each (ps : list (string * value)) : list (string * json) :=
            match ps with
            | [] => []
            | (k, w) :: rest =>
                match JSON_stringify w with
                | Some x => (k, x) :: each rest
                | None => each rest
                end
            end) props))
  end.

(** What a file holds: a text that is well-formed JSON, given by the
    document it denotes, or any other text. *)
Inductive content : Type :=
| Json (j : json)
| Malformed (text : string).

Definition JSON_parse (data : content) : result value :=
  match data with
  | Json j => Ok (value_of_json j)
  | Malformed _ => Throw SyntaxError
  end.

End JS.
Export JS.

(** ** Job validation *)

(** [isValid(job, compiled)], lines 258-271. *)
Definition isValid (job : value) (compiled : bool) : bool :=
  if negb (ToBoolean job) then false
  else if negb (has_Object_prototype job) then false
  else if negb (typeof_string (member job "author")
                || instanceof_String (member job "author")) then false
  else if negb (typeof_string (member job "repo")
                || instanceof_String (member job "repo")) then false
  else if negb (typeof_string (member job "branch")
                || instanceof_String (member job "branch")) then false
  else if compiled then
    if negb (Number_isInteger (member job "id")) then false
    else if negb (typeof_boolean (member job "success")) then false
    else true
  else true.

(** ** The file system *)

Module FS.

(** An absolute path, as the list of its segments. *)
Definition path : Type := list string.

(** Which calls the entry lets through (a denied call fails the way a
    missing permission does). *)
Record mode : Type := Mode {
  can_stat : bool;
  can_read : bool;
  can_write : bool;
  can_remove : bool
}.

Definition rwx : mode := Mode true true true true.

(** [Special] is an entry that is neither a file nor a directory (a FIFO,
    a socket, a device). Symbolic links are not modelled: a path names
    the entry itself. *)
Inductive node : Type :=
| File (m : mode) (data : content)
| Dir (m : mode)
| Special (m : mode).

Definition node_mode (n : node) : mode :=
  match n with
  | File m _ => m
  | Dir m => m
  | Special m => m
  end.

(** [stats.isFile()], [stats.isDirectory()]. *)
Definition isFile (n : node) : bool :=
  match n with File _ _ => true | _ => false end.

Definition isDirectory (n : node) : bool :=
  match n with Dir _ => true | _ => false end.

(** The calls of [fs] the module makes, for the record of what an
    operation did. *)
Inductive fs_call : Type :=
| ExistsSync (p : path)
| ReadFile (p : path)
| WriteFile (p : path) (data : content)
| Stat (p : path)
| Unlink (p : path)
| Readdir (p : path)
| Rmdir (p : path).

Definition ENOENT : error := SystemError "ENOENT".
Definition EACCES : error := SystemError "EACCES".
Definition EISDIR : error := SystemError "EISDIR".
Definition ENOTDIR : error := SystemError "ENOTDIR".
Definition ENOTEMPTY : error := SystemError "ENOTEMPTY".
Definition EPERM : error := SystemError "EPERM".

Section Calls.

Variable fs : gmap path node.

(** The names of the entries directly under [p]. *)
Definition entries (p : path) : list string :=
  omap (fun q : path =>
          match last q with
          | Some name => if decide (q = (p ++ [name])%list) then Some name else None
          | None => None
          end)
       (map fst (map_to_list fs)).

Definition stat (p : path) : result node :=
  match fs !! p with
  | None => Throw ENOENT
  | Some n => if can_stat (node_mode n) then Ok n else Throw EACCES
  end.

Definition existsSync (p : path) : bool :=
  match stat p with
  | Ok _ => true
  | Throw _ => false
  end.

(** A [Special] entry refuses the read; the read of a FIFO, which waits
    for the other end, is not modelled. *)
Definition readFile (p : path) : result content :=
  match fs !! p with
  | None => Throw ENOENT
  | Some (File m data) => if can_read m then Ok data else Throw EACCES
  | Some (Dir _) => Throw EISDIR
  | Some (Special _) => Throw EACCES
  end.

(** A write that fails leaves the disk as it was: the failures are those
    of opening the file. A write that fails half-way (a full disk) and a
    write to a FIFO are not modelled. *)
Definition writeFile (p : path) (data : content) : result (gmap path node) :=
  match fs !! p with
  | Some (File m _) =>
      if can_write m then Ok (<[p := File m data]> fs) else Throw EACCES
  | Some (Dir _) => Throw EISDIR
  | Some (Special _) => Throw EACCES
  | None =>
      match fs !! removelast p with
      | Some (Dir m) =>
          if can_write m then Ok (<[p := File rwx data]> fs)
          else Throw EACCES
      | Some _ => Throw ENOTDIR
      | None => Throw ENOENT
      end
  end.

Definition unlink (p : path) : result (gmap path node) :=
  match fs !! p with
  | None => Throw ENOENT
  | Some (Dir _) => Throw EPERM
  | Some n => if can_remove (node_mode n) then Ok (delete p fs)
              else Throw EACCES
  end.

Definition readdir (p : path) : result (list string) :=
  match fs !! p with
  | None => Throw ENOENT
  | Some (Dir m) => if can_read m then Ok (entries p) else Throw EACCES
  | Some _ => Throw ENOTDIR
  end.

Definition rmdir (p : path) : result (gmap path node) :=
  match fs !! p with
  | None => Throw ENOENT
  | Some (Dir m) =>
      match entries p with
      | [] => if can_remove m then Ok (delete p fs) else Throw EACCES
      | _ :: _ => Throw ENOTEMPTY
      end
  | Some _ => Throw ENOTDIR
  end.

End Calls.

(** [path.resolve(from, to)] on POSIX paths: [to] is split at its
    slashes; empty segments and ["."] are dropped and [".."] steps up. *)
Fixpoint split_slash (s : string) (segment : string) : list string :=
  match s with
  | EmptyString => [segment]
  | String c rest =>
      if Ascii.eqb c "/" then segment :: split_slash rest ""
      else split_slash rest (segment ++ String c EmptyString)
  end.

Definition step_segment (p : path) (segment : string) : path :=
  if String.eqb segment "" then p
  else if String.eqb segment "." then p
  else if String.eqb segment ".." then removelast p
  else (p ++ [segment])%list.

Definition path_resolve (from : path) (to : string) : path :=
  match to with
  | String "/" _ => fold_left step_segment (split_slash to "") []
  | _ => fold_left step_segment (split_slash to "") from
  end.

End FS.
Export FS.

(** ** Promises *)

Inductive settlement : Type :=
| Fulfilled
| Rejected (e : error).

Inductive promise : Type :=
| Pending
| Settled (s : settlement).

#[global] Instance settlement_eq_dec : EqDecision settlement.
Proof. solve_decision. Defined.
#[global] Instance promise_eq_dec : EqDecision promise.
Proof. solve_decision. Defined.

(** ** The build registry *)

(** What a call of [addBuild] comes to once its callbacks have run: the
    state of the promise it returned ([Pending]: it never settles), the
    exception that escaped a callback if one did, the disk, and the calls
    of [fs] it made, in order. *)
Record run : Type := Run {
  returned : promise;
  unhandled : option error;
  disk : gmap path node;
  calls : list fs_call
}.

Section Registry.

(** [__dirname], the directory of the module. *)
Variable dirname : path.

Definition ledger_file (job : value) : path :=
  path_resolve dirname
    ("../" ++ ToString (member job "author") ++ "/"
           ++ ToString (member job "repo") ++ "/"
           ++ ToString (member job "branch") ++ "/builds.json").

(** The object literal of lines 64-75. *)
Definition build_record (job : value) : result value :=
  let commit := member job "commit" in
  sha ← Get commit "sha";
  date ← Get commit "date";
  timestamp ← Get commit "timestamp";
  message ← Get commit "message";
  author ← Get commit "author";
  avatar ← Get commit "avatar";
  mret (VObj Plain
    [ ("id", member job "id");
      ("sha", sha);
      ("date", date);
      ("timestamp", timestamp);
      ("message", message);
      ("author", author);
      ("avatar", avatar);
      ("license", member job "license");
      ("candidate", VStr "DEVELOPMENT");
      ("status", VStr (if ToBoolean (member job "success")
                       then "SUCCESS" else "FAILURE")) ]).

(** The inner loop of lines 83-89 for one key [build] of [builds]: the
    tags still to visit are [tag_keys]. The record is an object of its
    own, so that updating it in place is putting the updated record back
    under its key. *)
Fixpoint scan_tags (tags : value) (tag_keys : list string)
    (builds : value) (build : string) : result value :=
  match tag_keys with
  | [] => Ok builds
  | tag :: rest =>
      entry ← Get builds build;
      sha ← Get entry "sha";
      if strict_equal (member tags tag) sha then
        entry ← Put entry "candidate" (VStr "RELEASE");
        entry ← Put entry "tag" (VStr tag);
        Put builds build entry
      else scan_tags tags rest builds build
  end.

(** The outer loop of lines 82-90. *)
Fixpoint apply_tags (tags : value) (build_keys : list string)
    (builds : value) : result value :=
  match build_keys with
  | [] => Ok builds
  | build :: rest =>
      builds ← scan_tags tags (for_in_keys tags) builds build;
      apply_tags tags rest builds
  end.

(** Lines 64-90 of [append]: what becomes of [builds], or the exception
    thrown. *)
Definition update (job builds : value) : result value :=
  record ← build_record job;
  builds ← Put builds (ToString (member job "id")) record;
  builds ← (if ToBoolean (member job "success")
            then Put builds "last_successful" (member job "id")
            else Ok builds);
  builds ← Put builds "latest" (member job "id");
  apply_tags (member job "tags") (for_in_keys builds) builds.

(** [append], lines 61-94. When it runs in the executor of the promise
    ([in_callback = false]) an exception rejects the promise; when it runs
    as a callback of [fs.readFile(...).then] the exception rejects the
    promise [then] returned, which nobody holds, and the promise of
    [addBuild] stays pending. *)
Definition append (job : value) (file : path) (builds : value)
    (in_callback : bool) (fs : gmap path node) (log : list fs_call) : run :=
  match update job builds with
  | Throw e =>
      if in_callback then Run Pending (Some e) fs log
      else Run (Settled (Rejected e)) None fs log
  | Ok builds =>
      match JSON_stringify builds with
      | None => Run (Settled (Rejected TypeError)) None fs log
      | Some j =>
          let log := (log ++ [WriteFile file (Json j)])%list in
          match writeFile fs file (Json j) with
          | Ok fs' => Run (Settled Fulfilled) None fs' log
          | Throw e => Run (Settled (Rejected e)) None fs log
          end
      end
  end.

(** [addBuild(job, logging)], lines 51-106; the log messages are left
    out. *)
Definition addBuild (job : value) (fs : gmap path node) : run :=
  if negb (isValid job true) then
    Run (Settled (Rejected (Reason "Invalid Job"))) None fs []
  else
    let file := ledger_file job in
    let builds := VObj Plain [] in
    if existsSync fs file then
      let log := [ExistsSync file; ReadFile file] in
      match readFile fs file with
      | Ok data =>
          match JSON_parse data with
          | Ok builds => append job file builds true fs log
          | Throw e => Run Pending (Some e) fs log
          end
      | Throw _ => append job file builds true fs log
      end
    else append job file builds false fs [ExistsSync file].

End Registry.

(** ** The workspace reclaimer *)

(** One call of [clearFolder(file)] between two callbacks: which call of
    [fs] it waits for, or, in [Waiting], the counters [length] and
    [index] of its closure while its children run. [Idle]: no callback of
    its own is to come. *)
Inductive phase : Type :=
| Stat_pending (file : path)
| Unlink_pending (file : path)
| Readdir_pending (file : path)
| Waiting (file : path) (length index : nat)
| Rmdir_pending (file : path)
| Idle.

(** A call of [clearFolder]: the promise it returned, its phase, and the
    calls it made for the entries of its directory, in the order of
    [files]. *)
Inductive task : Type :=
| Task (p : promise) (ph : phase) (children : list task).

Definition promise_of (t : task) : promise :=
  match t with Task p _ _ => p end.

Definition phase_of (t : task) : phase :=
  match t with Task _ ph _ => ph end.


(** What is observed of a run: a call of [fs] being made, and a promise
    being settled. An event is tagged with the place of the task it
    belongs to: [[]] is the call of [clearFolder] under study, [i :: pos]
    is the task at [pos] under its child [i]. *)
Inductive event : Type :=
| Call (c : fs_call)
| Settle (s : settlement).

Definition place : Type := list nat.

Definition under (i : nat) (ev : place * event) : place * event :=
  (i :: ev.1, ev.2).

(** [resolve()] and [reject(e)]: only the first one settles the promise.
    The third component tells the caller's [then] which callback to run. *)
Definition settle (p : promise) (s : settlement)
  : promise * list (place * event) * option settlement :=
  match p with
  | Pending => (Settled s, [([], Settle s)], Some s)
  | Settled _ => (p, [], None)
  end.

(** [clearFolder(file, logging)], lines 186-248: the promise is created
    and [FileSystem.stat] is called. *)
Definition clearFolder (file : path) : task :=
  Task Pending (Stat_pending file) [].

Definition step_result : Type :=
  gmap path node * task * list (place * event) * option settlement.

(** [check()], lines 213-226, as the phase it leaves the task in. *)
Definition check (file : path) (length index : nat)
  : phase * list (place * event) :=
  if Nat.eqb length index then (Rmdir_pending file, [([], Call (Rmdir file))])
  else (Waiting file length index, []).

(** [f] at the element [i] of a list: what [f] gives, and the list with
    the element [f] made of it; [None] when there is no such element or
    [f] has none. *)
Fixpoint at_index {A X} (f : A -> option (X * A)) (l : list A) (i : nat)
  : option (X * list A) :=
  match l, i with
  | [], _ => None
  | a :: l, 0 =>
      match f a with
      | Some (x, a) => Some (x, a :: l)
      | None => None
      end
  | a :: l, S i =>
      match at_index f l i with
      | Some (x, l) => Some (x, a :: l)
      | None => None
      end
  end.

(** One callback. [pos] is the place of the task whose pending call of
    [fs] completes; the callbacks that the settling of a promise triggers
    in the tasks above it ([next], [cancel]) run with it. [None]: no call
    is pending at [pos]. *)
Fixpoint step (fs : gmap path node) (t : task) (pos : place)
  : option step_result :=
  match t with
  | Task p ph children =>
      match pos with
      | [] =>
          match ph with
          | Stat_pending file =>
              match stat fs file with
              | Throw e =>
                  let '(p, evs, sig) := settle p (Rejected e) in
                  Some (fs, Task p Idle children, evs, sig)
              | Ok stats =>
                  if isFile stats then
                    Some (fs, Task p (Unlink_pending file) children,
                          [([], Call (Unlink file))], None)
                  else if isDirectory stats then
                    Some (fs, Task p (Readdir_pending file) children,
                          [([], Call (Readdir file))], None)
                  else Some (fs, Task p Idle children, [], None)
              end
          | Unlink_pending file =>
              match unlink fs file with
              | Throw e =>
                  let '(p, evs, sig) := settle p (Rejected e) in
                  Some (fs, Task p Idle children, evs, sig)
              | Ok fs =>
                  let '(p, evs, sig) := settle p Fulfilled in
                  Some (fs, Task p Idle children, evs, sig)
              end
          | Readdir_pending file =>
              match readdir fs file with
              | Throw e =>
                  let '(p, evs, sig) := settle p (Rejected e) in
                  Some (fs, Task p Idle children, evs, sig)
              | Ok files =>
                  let length := length files in
                  let index := 0 in
                  match check file length index with
                  | (Rmdir_pending _ as ph, evs) =>
                      Some (fs, Task p ph children, evs, None)
                  | _ =>
                      (* the for loop of lines 239-241 *)
                      Some (fs,
                            Task p (Waiting file length index)
                              (map (fun name =>
                                      clearFolder (file ++ [name])%list)
                                   files),
                            imap (fun i name =>
                                    ([i], Call (Stat (file ++ [name])%list)))
                                 files,
                            None)
                  end
              end
          | Rmdir_pending file =>
              match rmdir fs file with
              | Throw e =>
                  let '(p, evs, sig) := settle p (Rejected e) in
                  Some (fs, Task p Idle children, evs, sig)
              | Ok fs =>
                  let '(p, evs, sig) := settle p Fulfilled in
                  Some (fs, Task p Idle children, evs, sig)
              end
          | Waiting _ _ _ | Idle => None
          end
      | i :: pos =>
          match ph with
          | Waiting file length index =>
              match
                at_index
                  (fun c => match step fs c pos with
                            | Some (fs, c, evs, sig) => Some ((fs, evs, sig), c)
                            | None => None
                            end)
                  children i
              with
              | None => None
              | Some ((fs, evs, sig), children) =>
                  let evs := map (under i) evs in
                  match sig with
                  | None =>
                      Some (fs, Task p ph children, evs, None)
                  | Some Fulfilled =>
                      (* next, lines 229-232 *)
                      let index := S index in
                      let '(ph, evs') := check file length index in
                      Some (fs, Task p ph children, (evs ++ evs')%list, None)
                  | Some (Rejected e) =>
                      (* cancel, lines 234-237; the loop is over by then,
                         so that [i = length] changes nothing *)
                      let '(p, evs', sig) := settle p (Rejected e) in
                      Some (fs, Task p ph children, (evs ++ evs')%list, sig)
                  end
              end
          | _ => None
          end
      end
  end.

(** The callbacks of [schedule] in turn; an entry at which no call is
    pending is passed over. The result is the disk, the task and the
    events, in order. *)
Fixpoint run_schedule (fs : gmap path node) (t : task)
    (schedule : list place) : gmap path node * task * list (place * event) :=
  match schedule with
  | [] => (fs, t, [])
  | pos :: schedule =>
      match step fs t pos with
      | None => run_schedule fs t schedule
      | Some (fs, t, evs, _) =>
          let '(fs, t, evs') := run_schedule fs t schedule in
          (fs, t, (evs ++ evs')%list)
      end
  end.

Section Reclaimer.

Variable dirname : path.

Definition workspace (job : value) : path :=
  path_resolve dirname
    ("../" ++ ToString (member job "author") ++ "/"
           ++ ToString (member job "repo") ++ "/"
           ++ ToString (member job "branch") ++ "/files").

(** [clearWorkspace(job, logging)], lines 172-177: the promise it
    returns, as the task behind it, and the calls of [fs] it made
    itself. *)
Definition clearWorkspace (job : value) (fs : gmap path node)
  : task * list fs_call :=
  if negb (isValid job false) then
    (Task (Settled (Rejected (Reason "Invalid Job!"))) Idle [], [])
  else if negb (existsSync fs (workspace job)) then
    (Task (Settled Fulfilled) Idle [], [ExistsSync (workspace job)])
  else
    (clearFolder (workspace job),
     [ExistsSync (workspace job); Stat (workspace job)]).

End Reclaimer.

(** ** The list of projects *)

(** [s.split(sep)] for a separator of one character: the pieces of [s]
    between the separators; [segment] is the piece under way. *)
Fixpoint String_split (sep : ascii) (s : string) (segment : string)
  : list string :=
  match s with
  | EmptyString => [segment]
  | String c rest =>
      if Ascii.eqb c sep then segment :: String_split sep rest ""
      else String_split sep rest (segment ++ String c EmptyString)
  end.

(** [v.split(sep)]: strings and String objects have the method; on
    anything else the call throws a TypeError. *)
Definition split (v : value) (sep : ascii) : result (list string) :=
  match v with
  | VStr s | VObj (StringWrapper s) _ => Ok (String_split sep s "")
  | _ => Throw TypeError
  end.

(** [a[i]] for the array a call of [split] returned. *)
Definition element (a : list string) (i : nat) : value :=
  match a !! i with
  | Some s => VStr s
  | None => VUndefined
  end.

(** The object literal of lines 30-34, for the key [repo] of the
    file. *)
Definition job_of (repo : string) : result value :=
  author ← split (VStr repo) "/";
  owner_repo ← split (VStr repo) "/";
  repository ← split (element owner_repo 1) ":";
  owner_branch ← split (VStr repo) "/";
  branch ← split (element owner_branch 1) ":";
  mret (VObj Plain
    [ ("author", element author 0);
      ("repo", element repository 0);
      ("branch", element branch 1) ]).

(** The loop of lines 27-37: [jobs] is the array so far. *)
Fixpoint collect (keys : list string) (jobs : list value)
  : result (list value) :=
  match keys with
  | [] => Ok jobs
  | repo :: rest =>
      job ← job_of repo;
      collect rest (jobs ++ [job])%list
  end.

(** What a call of [getProjects] comes to: its promise is resolved with
    the array [jobs], or rejected, or, when an exception escapes the
    callback of the read, never settles. *)
Inductive projects : Type :=
| Resolved (jobs : list value)
| Failed (e : error)
| Escaped (e : error).

Section Projects.

Variable dirname : path.

Definition repos_file : path :=
  path_resolve dirname "../resources/repos.json".

(** [getProjects(logging)], lines 21-42; the log messages are left
    out. *)
Definition getProjects (fs : gmap path node) : projects :=
  match readFile fs repos_file with
  | Throw e => Failed e
  | Ok data =>
      match json ← JSON_parse data; collect (for_in_keys json) [] with
      | Ok jobs => Resolved jobs
      | Throw e => Escaped e
      end
  end.

End Projects.

(** ** The page and the badge *)

(** [s] with [pattern] taken off its start. *)
Fixpoint strip_prefix (pattern s : string) : option string :=
  match pattern, s with
  | EmptyString, _ => Some s
  | String a pattern, String b s =>
      if Ascii.eqb a b then strip_prefix pattern s else None
  | String _ _, EmptyString => None
  end.

(** [GetSubstitution] for a match without capture groups: in the
    replacement, [$$] is a dollar sign, [$&] the text that matched, [$`]
    what comes before the match in the string and [$'] what comes after
    it; any other dollar sign stands for itself. *)
Fixpoint GetSubstitution (matched before after replacement : string)
  : string :=
  match replacement with
  | EmptyString => EmptyString
  | String c rest =>
      if Ascii.eqb c "$" then
        match rest with
        | String d rest' =>
            if Ascii.eqb d "$" then
              String "$" (GetSubstitution matched before after rest')
            else if Ascii.eqb d "&" then
              matched ++ GetSubstitution matched before after rest'
            else if Ascii.eqb d "`" then
              before ++ GetSubstitution matched before after rest'
            else if Ascii.eqb d "'" then
              after ++ GetSubstitution matched before after rest'
            else String c (GetSubstitution matched before after rest)
        | EmptyString => String c EmptyString
        end
      else String c (GetSubstitution matched before after rest)
  end.

(** [s.replace(/pattern/g, replacement)] for a regular expression that
    matches the text [pattern], which is not empty, and nothing else.
    [before] is the part of the string gone through, and [skip] the
    number of characters of the last match still to go through. *)
Fixpoint replace_from (pattern replacement before s : string) (skip : nat)
  : string :=
  match s with
  | EmptyString => EmptyString
  | String c rest =>
      match skip with
      | S skip =>
          replace_from pattern replacement (before ++ String c EmptyString)
            rest skip
      | 0 =>
          match strip_prefix pattern s with
          | Some after =>
              GetSubstitution pattern before after replacement
              ++ replace_from pattern replacement
                   (before ++ String c EmptyString) rest
                   (String.length pattern - 1)
          | None =>
              String c (replace_from pattern replacement
                          (before ++ String c EmptyString) rest 0)
          end
      end
  end.

Definition String_replace (pattern replacement s : string) : string :=
  replace_from pattern replacement "" s 0.

(** Lines 126-128 of [generateHTML]. *)
Definition render_page (html : string) (job : value) : string :=
  let html := String_replace "${owner}" (ToString (member job "author")) html in
  let html :=
    String_replace "${repository}" (ToString (member job "repo")) html in
  String_replace "${branch}" (ToString (member job "branch")) html.

(** Lines 155-156 of [generateBadge]. *)
Definition render_badge (svg : string) (job : value) : string :=
  let svg :=
    String_replace "${status}"
      (if ToBoolean (member job "success") then "SUCCESS" else "FAILURE")
      svg in
  String_replace "${color}"
    (if ToBoolean (member job "success")
     then "rgb(30, 220, 30)" else "rgb(220, 30, 30)")
    svg.

Section Pages.

Variable dirname : path.

(** The disk keeps a file that holds well-formed JSON by the document
    and not by its spelling. [spelling] is the text such a file reads
    as, and [document] tells which texts are well-formed JSON; both are
    left open. *)
Variable spelling : json -> string.
Variable document : string -> option json.

(** The text of a file read with the encoding ["utf8"], and what
    writing a text makes of a file. *)
Definition utf8 (data : content) : string :=
  match data with
  | Json j => spelling j
  | Malformed text => text
  end.

Definition content_of (text : string) : content :=
  match document text with
  | Some j => Json j
  | None => Malformed text
  end.

Definition template_file : path :=
  path_resolve dirname "../resources/template.html".

Definition page_file (job : value) : path :=
  path_resolve dirname
    ("../" ++ ToString (member job "author") ++ "/"
           ++ ToString (member job "repo") ++ "/"
           ++ ToString (member job "branch") ++ "/index.html").

Definition badge_template_file : path :=
  path_resolve dirname "../resources/badge.svg".

Definition badge_file (job : value) : path :=
  path_resolve dirname
    ("../" ++ ToString (member job "author") ++ "/"
           ++ ToString (member job "repo") ++ "/"
           ++ ToString (member job "branch") ++ "/badge.svg").

(** [generateHTML(job, logging)], lines 116-135; what a call comes to is
    recorded as for [addBuild]. [isValid] is called without [compiled],
    which then is [undefined]. *)
Definition generateHTML (job : value) (fs : gmap path node) : run :=
  if negb (isValid job false) then
    Run (Settled (Rejected (Reason "Invalid Job"))) None fs []
  else
    match readFile fs template_file with
    | Throw e => Run (Settled (Rejected e)) None fs [ReadFile template_file]
    | Ok data =>
        let html := render_page (utf8 data) job in
        let log := [ReadFile template_file;
                    WriteFile (page_file job) (content_of html)] in
        match writeFile fs (page_file job) (content_of html) with
        | Ok fs' => Run (Settled Fulfilled) None fs' log
        | Throw e => Run (Settled (Rejected e)) None fs log
        end
    end.

(** [generateBadge(job, logging)], lines 145-163. *)
Definition generateBadge (job : value) (fs : gmap path node) : run :=
  if negb (isValid job false) then
    Run (Settled (Rejected (Reason "Invalid Job"))) None fs []
  else
    match readFile fs badge_template_file with
    | Throw e =>
        Run (Settled (Rejected e)) None fs [ReadFile badge_template_file]
    | Ok data =>
        let svg := render_badge (utf8 data) job in
        let log := [ReadFile badge_template_file;
                    WriteFile (badge_file job) (content_of svg)] in
        match writeFile fs (badge_file job) (content_of svg) with
        | Ok fs' => Run (Settled Fulfilled) None fs' log
        | Throw e => Run (Settled (Rejected e)) None fs log
        end
    end.

End Pages.

(** ** Vocabulary of the specification *)

(** Modelled after section 4.3 of the specification: a text value is a
    string or a String object. *)
Definition is_text (v : value) : bool :=
  typeof_string v || instanceof_String v.

(** The checks of section 4.3 that apply to [job], in the words of the
    specification: a plain structured record; [author], [repo] and
    [branch] text values; under [compiled], [id] an integer and [success]
    a boolean. *)
Definition applicable_checks (job : value) (compiled : bool) : Prop :=
  (exists props, job = VObj Plain props) /\
  is_text (member job "author") = true /\
  is_text (member job "repo") = true /\
  is_text (member job "branch") = true /\
  (compiled = true ->
   (exists z, member job "id" = VNum (Int z)) /\
   (exists b, member job "success" = VBool b)).

(** [Number.isSafeInteger(v)]: an integer of at most 53 bits. Every such
    integer is a double of its own, and [String(v)] is its decimal
    notation. *)
Definition Number_isSafeInteger (v : value) : bool :=
  match v with
  | VNum (Int z) => (Z.abs z <=? 9007199254740991)%Z
  | _ => false
  end.

(** A value that is no object: [===] compares it by what it is. *)
Definition is_primitive (v : value) : bool :=
  match v with
  | VObj _ _ => false
  | _ => true
  end.

(** A value made of primitive values and plain objects only, as the
    result of [JSON.parse] is: [JSON.stringify] writes it member by
    member. *)
Fixpoint plain_data (v : value) : bool :=
  match v with
  | VObj Plain props =>
      (fix each (ps : list (string * value)) : bool :=
         match ps with
         | [] => true
         | (_, w) :: rest => plain_data w && each rest
         end) props
  | VObj _ _ => false
  | _ => true
  end.

(** The entry at [p] is neither a file nor a directory. *)
Definition is_special (fs : gmap path node) (p : path) : bool :=
  match fs !! p with
  | Some (Special _) => true
  | _ => false
  end.

(** The property lists behind [value_of_json] and [JSON_stringify]. *)
Definition props_of_members (members : list (string * json))
  : list (string * value) :=
  map (fun m => (m.1, value_of_json m.2)) members.

Definition members_of_props (props : list (string * value))
  : list (string * json) :=
  omap (fun p => match JSON_stringify p.2 with
                 | Some x => Some (p.1, x)
                 | None => None
                 end) props.

(** The ledger a file holds, and the entry under a key of it. *)
Definition ledger (fs : gmap path node) (file : path)
  : option (list (string * json)) :=
  match fs !! file with
  | Some (File _ (Json (JObj members))) => Some members
  | _ => None
  end.

Definition entry (fs : gmap path node) (file : path) (key : string)
  : option json :=
  match ledger fs file with
  | Some members => lookup_prop key members
  | None => None
  end.

(** Step 1 of section 4.1 goes through with the ledger [members]: there
    is no file and the ledger is empty, or there is one, it is read, and
    it holds the mapping [members]. *)
Definition loads (fs : gmap path node) (file : path)
    (members : list (string * json)) : Prop :=
  (fs !! file = None /\ members = []) \/
  (existsSync fs file = true /\ readFile fs file = Ok (Json (JObj members))).

(** What [append] is handed: the ledger that was loaded, or, when the
    file is there but the read fails, the empty one. *)
Definition starts_from (fs : gmap path node) (file : path)
    (members : list (string * json)) : Prop :=
  loads fs file members \/
  (existsSync fs file = true /\
   (exists e, readFile fs file = Throw e) /\ members = []).

(** Step 4 of section 4.1, in its words: the first tag, in the order of
    iteration, whose value equals the sha of the record wins. *)
Fixpoint first_tag (tags : value) (tag_keys : list string) (sha : value)
  : option string :=
  match tag_keys with
  | [] => None
  | tag :: rest =>
      if strict_equal (member tags tag) sha then Some tag
      else first_tag tags rest sha
  end.

Definition release {A} (candidate : A) (tag : A) (record : list (string * A))
  : list (string * A) :=
  put_prop "tag" tag (put_prop "candidate" candidate record).

Definition resolved (tags : value) (record : list (string * json))
  : list (string * json) :=
  match first_tag tags (for_in_keys tags)
          (member (value_of_json (JObj record)) "sha") with
  | Some tag => release (JStr "RELEASE") (JStr tag) record
  | None => record
  end.

(** What the inner loop makes of one entry of [builds]. *)
Fixpoint resolve (tags : value) (tag_keys : list string) (entry : value)
  : result value :=
  match tag_keys with
  | [] => Ok entry
  | tag :: rest =>
      sha ← Get entry "sha";
      if strict_equal (member tags tag) sha then
        entry ← Put entry "candidate" (VStr "RELEASE");
        Put entry "tag" (VStr tag)
      else resolve tags rest entry
  end.

(** Two records that differ at most in [candidate] and [tag]. *)
Definition same_but_candidate_and_tag (r r' : list (string * json)) : Prop :=
  forall name, name <> "candidate" -> name <> "tag" ->
               lookup_prop name r = lookup_prop name r'.

Section Sequences.

Variable dirname : path.
Variable file : path.

(** Calls of [addBuild] one after the other. *)
Fixpoint addBuilds (jobs : list value) (fs : gmap path node)
  : gmap path node :=
  match jobs with
  | [] => fs
  | job :: jobs => addBuilds jobs (disk (addBuild dirname job fs))
  end.

(** Every call of the sequence is for the ledger [file], finds no ledger
    or loads the one there, and succeeds. *)
Fixpoint completes (jobs : list value) (fs : gmap path node) : Prop :=
  match jobs with
  | [] => True
  | job :: jobs =>
      ledger_file dirname job = file /\
      (exists members, loads fs file members) /\
      returned (addBuild dirname job fs) = Settled Fulfilled /\
      completes jobs (disk (addBuild dirname job fs))
  end.

End Sequences.

(** Properties that are written as they are: the object with
    properties [props] is written with the members [members]. *)
Definition written (props : list (string * value))
    (members : list (string * json)) : Prop :=
  Forall2 (fun p m => p.1 = m.1 /\ JSON_stringify p.2 = Some m.2)
          props members.

(** [builds] after lines 64-79, for a job with the integer id [z], the
    outcome [success] and the record [record]. *)
Definition inserted (z : Z) (success : bool) (record : value)
    (props : list (string * value)) : list (string * value) :=
  put_prop "latest" (VNum (Int z))
    ((if success then put_prop "last_successful" (VNum (Int z)) else id)
       (put_prop (Int_toString z) record props)).

(** A string that is one segment of a path when put between slashes. *)
Fixpoint no_slash (s : string) : bool :=
  match s with
  | EmptyString => true
  | String c rest => negb (Ascii.eqb c "/") && no_slash rest
  end.

Definition proper_segment (s : string) : bool :=
  no_slash s && negb (String.eqb s "") && negb (String.eqb s ".")
  && negb (String.eqb s "..").




Definition fulfilled (cs : list task) : nat :=
  length (filter (fun c => promise_of c = Settled Fulfilled) cs).

Section Barrier.

Variable fs0 : gmap path node.
Variable dir : path.
Variable files : list string.


End Barrier.

(** ** Vocabulary of the further properties *)

(** The path a call of [fs] is for. *)
Definition path_of_call (c : fs_call) : path :=
  match c with
  | ExistsSync p | ReadFile p | WriteFile p _ | Stat p | Unlink p
  | Readdir p | Rmdir p => p
  end.

(** What the loop of lines 82-90 makes of an entry of the ledger: a
    record is resolved by the tags, anything else is left as it is. *)
Definition resolved_entry (tags : value) (x : json) : json :=
  match x with
  | JObj record => JObj (resolved tags record)
  | _ => x
  end.

(** The record of a build with the fields [fields], as it is written:
    the loop goes over the new record too. *)
Definition recorded (tags : value) (fields : list (string * value))
  : list (string * json) :=
  members_of_props
    match first_tag tags (for_in_keys tags)
            (member (VObj Plain fields) "sha") with
    | Some tag => release (VStr "RELEASE") (VStr tag) fields
    | None => fields
    end.

(** The entry under [k] after a build with the id [z], the outcome
    [success] and the fields [fields] has been added to the ledger
    [members]. *)
Definition entry_after (tags : value) (z : Z) (success : bool)
    (fields : list (string * value)) (members : list (string * json))
    (k : string) : option json :=
  if decide (k = "latest") then Some (JInt z)
  else if decide (k = "last_successful" /\ success = true) then Some (JInt z)
  else if decide (k = Int_toString z) then Some (JObj (recorded tags fields))
  else resolved_entry tags <$> lookup_prop k members.

(** The directory of the branch of a job, beside the directory of the
    module. *)
Definition branch_directory (dirname : path) (job : value) : path :=
  path_resolve dirname
    ("../" ++ ToString (member job "author") ++ "/"
           ++ ToString (member job "repo") ++ "/"
           ++ ToString (member job "branch")).

(** A call that looks at an entry or removes it. *)
Definition looks_or_removes (c : fs_call) : Prop :=
  match c with
  | Stat _ | Unlink _ | Readdir _ | Rmdir _ => True
  | ExistsSync _ | ReadFile _ | WriteFile _ _ => False
  end.

(** The path a task is at work on. *)
Definition file_of (ph : phase) : option path :=
  match ph with
  | Stat_pending f | Unlink_pending f | Readdir_pending f
  | Waiting f _ _ | Rmdir_pending f => Some f
  | Idle => None
  end.

(** Every task of [t] is at work under [root]. *)
Inductive within (root : path) : task -> Prop :=
| Within p ph cs :
    (forall f, file_of ph = Some f -> root `prefix_of` f) ->
    Forall (within root) cs ->
    within root (Task p ph cs).

(** How many callbacks of the schedule are for the task under study
    itself. *)
Fixpoint own_callbacks (schedule : list place) : nat :=
  match schedule with
  | [] => 0
  | [] :: schedule => S (own_callbacks schedule)
  | _ :: schedule => own_callbacks schedule
  end.

(** The promise of a call on [file] is fulfilled by its last callback
    only, and the path is gone by then. *)
Definition gone_when_fulfilled (file : path) (fs : gmap path node) (t : task)
  : Prop :=
  (forall f, file_of (phase_of t) = Some f -> f = file) /\
  (promise_of t = Settled Fulfilled ->
   phase_of t = Idle /\ fs !! file = None).

(** A tree of files and directories every call of [fs] on which goes
    through. *)
Inductive removable (fs : gmap path node) : path -> Prop :=
| removable_file p m data :
    fs !! p = Some (File m data) ->
    can_stat m = true -> can_remove m = true ->
    removable fs p
| removable_dir p m :
    fs !! p = Some (Dir m) ->
    can_stat m = true -> can_read m = true -> can_remove m = true ->
    (forall name, name ∈ entries fs p -> removable fs (p ++ [name])%list) ->
    removable fs p.

(** A disk on which what holds an entry is a directory. *)
Definition hierarchical (fs : gmap path node) : Prop :=
  forall (q : path) name,
    is_Some (fs !! (q ++ [name])%list) -> exists m, fs !! q = Some (Dir m).

(** There is an order of completion in which [clearFolder] removes [p],
    is fulfilled, and leaves what is not under [p] as it is. *)
Definition removes (fs : gmap path node) (p : path) : Prop :=
  exists schedule fs' t evs,
    run_schedule fs (clearFolder p) schedule = (fs', t, evs) /\
    promise_of t = Settled Fulfilled /\
    fs' !! p = None /\
    forall q : path, ~ p `prefix_of` q -> fs' !! q = fs !! q.

(** The call of [clearFolder] on [f] is on its way on the disk [fs]:
    what it still has to remove is there and may be removed, and what
    it has reported as removed is gone. *)
Inductive sound (fs : gmap path node) : path -> task -> Prop :=
| sound_stat (f : path) cs :
    removable fs f ->
    sound fs f (Task Pending (Stat_pending f) cs)
| sound_unlink (f : path) m data cs :
    fs !! f = Some (File m data) -> can_remove m = true ->
    sound fs f (Task Pending (Unlink_pending f) cs)
| sound_readdir (f : path) m cs :
    fs !! f = Some (Dir m) -> can_read m = true -> can_remove m = true ->
    (forall name, name ∈ entries fs f -> removable fs (f ++ [name])%list) ->
    sound fs f (Task Pending (Readdir_pending f) cs)
| sound_waiting (f : path) m names len idx cs :
    fs !! f = Some (Dir m) -> can_remove m = true ->
    NoDup names -> len = length names -> length cs = len ->
    idx = fulfilled cs -> idx < len ->
    (forall name, is_Some (fs !! (f ++ [name])%list) -> name ∈ names) ->
    (forall i name c,
       names !! i = Some name -> cs !! i = Some c ->
       sound fs (f ++ [name])%list c) ->
    sound fs f (Task Pending (Waiting f len idx) cs)
| sound_rmdir (f : path) m cs :
    fs !! f = Some (Dir m) -> can_remove m = true ->
    (forall name, fs !! (f ++ [name])%list = None) ->
    sound fs f (Task Pending (Rmdir_pending f) cs)
| sound_done (f : path) cs :
    fs !! f = None ->
    sound fs f (Task (Settled Fulfilled) Idle cs).

(** No call of [fs] is pending in the task. *)
Definition quiescent (fs : gmap path node) (t : task) : Prop :=
  forall pos, step fs t pos = None.

(** A string in which the character [c] does not occur. *)
Fixpoint without (c : ascii) (s : string) : bool :=
  match s with
  | EmptyString => true
  | String d rest => negb (Ascii.eqb d c) && without c rest
  end.

(** The placeholders of the templates, and a template as the pieces of
    text between its placeholders. *)
Inductive placeholder : Type :=
| Owner
| Repository
| Branch
| Status
| Color.

#[global] Instance placeholder_eq_dec : EqDecision placeholder.
Proof. solve_decision. Defined.

Definition pattern (h : placeholder) : string :=
  match h with
  | Owner => "${owner}"
  | Repository => "${repository}"
  | Branch => "${branch}"
  | Status => "${status}"
  | Color => "${color}"
  end.

Inductive piece : Type :=
| Text (s : string)
| Hole (h : placeholder).

(** The text of a template whose placeholders read as [value] tells. *)
Fixpoint filled (value : placeholder -> string) (pieces : list piece)
  : string :=
  match pieces with
  | [] => ""
  | Text s :: rest => s ++ filled value rest
  | Hole h :: rest => value h ++ filled value rest
  end.

(** No piece of text has a dollar sign. *)
Definition plain (pieces : list piece) : Prop :=
  forall s, Text s ∈ pieces -> without "$" s = true.

(** What the placeholders stand for in the page and in the badge of a
    job; the others are left as they are. *)
Definition page_value (job : value) (h : placeholder) : string :=
  match h with
  | Owner => ToString (member job "author")
  | Repository => ToString (member job "repo")
  | Branch => ToString (member job "branch")
  | _ => pattern h
  end.

Definition badge_value (job : value) (h : placeholder) : string :=
  match h with
  | Status =>
      if ToBoolean (member job "success") then "SUCCESS" else "FAILURE"
  | Color =>
      if ToBoolean (member job "success")
      then "rgb(30, 220, 30)" else "rgb(220, 30, 30)"
  | _ => pattern h
  end.

(** ** A project on disk *)

Module Example.

Definition dirname : path := ["srv"; "builds"; "src"].

Definition branch : path := ["srv"; "builds"; "owner"; "repo"; "master"].

Definition builds_json : path := (branch ++ ["builds.json"])%list.

Definition files : path := (branch ++ ["files"])%list.

Definition job (id : Z) (success : bool) (sha : string)
    (tags : list (string * value)) : value :=
  VObj Plain
    [ ("author", VStr "owner"); ("repo", VStr "repo");
      ("branch", VStr "master");
      ("id", VNum (Int id)); ("success", VBool success);
      ("commit",
       VObj Plain
         [ ("sha", VStr sha); ("date", VStr "1 Jan 2020");
           ("timestamp", VNum (Int 1577836800)); ("message", VStr "build");
           ("author", VStr "owner"); ("avatar", VStr "owner.png") ]);
      ("license", VStr "MIT");
      ("tags", VObj Plain tags) ].

(** The same job before the build has run: no [commit] yet. *)
Definition job_without_commit (id : Z) (success : bool) : value :=
  VObj Plain
    [ ("author", VStr "owner"); ("repo", VStr "repo");
      ("branch", VStr "master");
      ("id", VNum (Int id)); ("success", VBool success) ].

Definition second : value := job 2 true "abc" [].

Definition third : value :=
  job 3 false "def"
    [ ("v0.9", VStr "zzz"); ("v1.0", VStr "abc"); ("v1.1", VStr "abc") ].

(** The ledger after build 2 has been added to none. *)
Definition second_record : list (string * json) :=
  [ ("id", JInt 2); ("sha", JStr "abc"); ("date", JStr "1 Jan 2020");
    ("timestamp", JInt 1577836800); ("message", JStr "build");
    ("author", JStr "owner"); ("avatar", JStr "owner.png");
    ("license", JStr "MIT"); ("candidate", JStr "DEVELOPMENT");
    ("status", JStr "SUCCESS") ].

Definition second_ledger : list (string * json) :=
  [ ("2", JObj second_record); ("last_successful", JInt 2);
    ("latest", JInt 2) ].

(** The directories of the branch, without a ledger and without working
    files. *)
Definition bare : gmap path node :=
  list_to_map
    [ ([], Dir rwx); (["srv"], Dir rwx); (["srv"; "builds"], Dir rwx);
      (["srv"; "builds"; "src"], Dir rwx);
      (["srv"; "builds"; "owner"], Dir rwx);
      (["srv"; "builds"; "owner"; "repo"], Dir rwx);
      (branch, Dir rwx) ].

(** A ledger with one build, in a file that can be written but not
    read. *)
Definition write_only : mode := Mode true false true true.

Definition first_ledger : list (string * json) :=
  [ ("1", JObj [ ("id", JInt 1); ("sha", JStr "000");
                 ("candidate", JStr "DEVELOPMENT");
                 ("status", JStr "SUCCESS") ]);
    ("last_successful", JInt 1); ("latest", JInt 1) ].

Definition locked : gmap path node :=
  <[builds_json := File write_only (Json (JObj first_ledger))]> bare.

(** Working files: [a] cannot be removed, [b] can, and [d] is a
    directory with the file [c]. *)
Definition cluttered : gmap path node :=
  <[(files ++ ["d"; "c"])%list := File rwx (Malformed "c")]>
    (<[(files ++ ["d"])%list := Dir rwx]>
       (<[(files ++ ["b"])%list := File rwx (Malformed "b")]>
          (<[(files ++ ["a"])%list :=
               File (Mode true true true false) (Malformed "a")]>
             (<[files := Dir rwx]> bare)))).

(** The same with [a] removable. *)
Definition tidy : gmap path node :=
  <[(files ++ ["a"])%list := File rwx (Malformed "a")]> cluttered.

(** An order of completion: down to the files, then [b], then [a], while
    [d] is still at work. *)
Definition a_fails_first : list place :=
  [ []; []; [0]; [1]; [2]; [0]; [1]; [2] ].

(** What it leads to: [a] has failed and [files] is rejected while [d]
    still waits for the call of [stat] on [c]. *)
Definition a_fails_first_task : task :=
  Task (Settled (Rejected EACCES)) (Waiting files 3 1)
    [ Task Pending (Waiting (files ++ ["d"])%list 1 0)
        [ Task Pending (Stat_pending (files ++ ["d"; "c"])%list) [] ];
      Task (Settled Fulfilled) Idle [];
      Task (Settled (Rejected EACCES)) Idle [] ].

Definition a_fails_first_events : list (place * event) :=
  [ ([], Call (Readdir files));
    ([0], Call (Stat (files ++ ["d"])%list));
    ([1], Call (Stat (files ++ ["b"])%list));
    ([2], Call (Stat (files ++ ["a"])%list));
    ([0], Call (Readdir (files ++ ["d"])%list));
    ([1], Call (Unlink (files ++ ["b"])%list));
    ([2], Call (Unlink (files ++ ["a"])%list));
    ([0; 0], Call (Stat (files ++ ["d"; "c"])%list));
    ([1], Settle Fulfilled);
    ([2], Settle (Rejected EACCES));
    ([], Settle (Rejected EACCES)) ].


(** An order in which everything completes. *)
Definition to_the_end : list place :=
  [ []; []; [0]; [1]; [2]; [0]; [1]; [2]; [0; 0]; [0; 0]; [0]; [] ].

(** What it leads to on the tidy workspace. *)
Definition to_the_end_task : task :=
  Task (Settled Fulfilled) Idle
    [ Task (Settled Fulfilled) Idle [ Task (Settled Fulfilled) Idle [] ];
      Task (Settled Fulfilled) Idle [];
      Task (Settled Fulfilled) Idle [] ].

Definition to_the_end_events : list (place * event) :=
  [ ([], Call (Readdir files));
    ([0], Call (Stat (files ++ ["d"])%list));
    ([1], Call (Stat (files ++ ["b"])%list));
    ([2], Call (Stat (files ++ ["a"])%list));
    ([0], Call (Readdir (files ++ ["d"])%list));
    ([1], Call (Unlink (files ++ ["b"])%list));
    ([2], Call (Unlink (files ++ ["a"])%list));
    ([0; 0], Call (Stat (files ++ ["d"; "c"])%list));
    ([1], Settle Fulfilled);
    ([2], Settle Fulfilled);
    ([0; 0], Call (Unlink (files ++ ["d"; "c"])%list));
    ([0; 0], Settle Fulfilled);
    ([0], Call (Rmdir (files ++ ["d"])%list));
    ([0], Settle Fulfilled);
    ([], Call (Rmdir files));
    ([], Settle Fulfilled) ].

End Example.


(** ** The resources of the site *)

Module Site.

Import Example.

Definition resources : path := ["srv"; "builds"; "resources"].

Definition repos_json : path := (resources ++ ["repos.json"])%list.

Definition template_html : path := (resources ++ ["template.html"])%list.

Definition badge_svg : path := (resources ++ ["badge.svg"])%list.

(** The projects: one key is well formed, one has no branch. *)
Definition repos : list (string * json) :=
  [ ("owner/repo:master", JObj [("sonar", JBool true)]);
    ("owner/other", JObj []) ].

Definition page_template : list piece :=
  [ Text "<h1>"; Hole Owner; Text "/"; Hole Repository; Text " ("; Hole Branch;
    Text ")</h1>" ].

Definition badge_template : list piece :=
  [ Text "<svg><rect fill="; Hole Color; Text "/><text>"; Hole Status;
    Text "</text></svg>" ].

(** The example project with the resources beside it. *)
Definition site : gmap path node :=
  <[badge_svg := File rwx (Malformed (filled pattern badge_template))]>
    (<[template_html := File rwx (Malformed (filled pattern page_template))]>
       (<[repos_json := File rwx (Json (JObj repos))]>
          (<[resources := Dir rwx]> bare))).

(** The same with a project whose key has no slash. *)
Definition stray : list (string * json) :=
  [ ("owner/repo:master", JObj []); ("readme", JObj []) ].

Definition strayed : gmap path node :=
  <[repos_json := File rwx (Json (JObj stray))]> site.

(** A job as [getProjects] makes it. *)
Definition listed : value :=
  VObj Plain
    [ ("author", VStr "owner"); ("repo", VStr "repo");
      ("branch", VStr "master") ].

(** The spelling of JSON plays no part at the templates of the
    example. *)
Definition no_spelling (j : json) : string := "".

Definition no_document (text : string) : option json := None.

End Site.

(** * Properties *)

(** ** Job validation *)

Lemma isValid_plain job compiled :
  isValid job compiled = true -> exists props, job = VObj Plain props.
Proof.
  unfold isValid. destruct job as [| | | | |[]]; simpl; try discriminate;
    try (destruct (negb _); discriminate); eauto.
Qed.

Lemma isValid_checks job compiled :
  isValid job compiled = true <-> applicable_checks job compiled.
Proof.
  split.
  - intros H. destruct (isValid_plain _ _ H) as [props ->].
    revert H. unfold isValid, applicable_checks, is_text. simpl.
    destruct (typeof_string _ || instanceof_String _); [|discriminate].
    destruct (typeof_string _ || instanceof_String _); [|discriminate].
    destruct (typeof_string _ || instanceof_String _); [|discriminate].
    simpl. intros H. split; [eauto|]. do 3 (split; [done|]).
    intros ->. revert H.
    destruct (match lookup_prop "id" props with Some w => w | None => _ end)
      as [| | |[]| |]; simpl; try discriminate.
    destruct (match lookup_prop "success" props with Some w => w | None => _ end);
      simpl; try discriminate. eauto.
  - intros ([props ->] & Ha & Hr & Hb & Hc). unfold isValid, is_text in *.
    simpl in *. rewrite Ha, Hr, Hb. simpl. destruct compiled; [|done].
    destruct Hc as [[z Hz] [b Hs]]; [done|]. by rewrite Hz, Hs.
Qed.

(** C7. [isValid] is false on [null], on the empty record, on a record
    whose [branch] is not a string, on an object that is not a plain
    record whatever its fields, and, with [compiled = true], on a record
    without [id], with an [id] that is not an integer or with a
    [success] that is not a boolean; it is true exactly when all the
    applicable checks pass. *)
Theorem isValid_rejects_and_accepts :
  (forall compiled, isValid VNull compiled = false) /\
  (forall compiled, isValid (VObj Plain []) compiled = false) /\
  (forall job compiled,
     is_text (member job "branch") = false -> isValid job compiled = false) /\
  (forall c props compiled,
     c <> Plain -> isValid (VObj c props) compiled = false) /\
  (forall props,
     lookup_prop "id" props = None -> isValid (VObj Plain props) true = false) /\
  (forall job,
     Number_isInteger (member job "id") = false -> isValid job true = false) /\
  (forall job,
     typeof_boolean (member job "success") = false ->
     isValid job true = false) /\
  (forall job compiled,
     isValid job compiled = true <-> applicable_checks job compiled).
Proof.
  split_and!; try done.
  - intros job compiled Hb. apply not_true_is_false. intros H.
    apply isValid_checks in H as (_ & _ & _ & Hb' & _). congruence.
  - intros c props compiled Hc. apply not_true_is_false. intros H.
    apply isValid_plain in H as [props' H]. congruence.
  - intros props Hid. apply not_true_is_false. intros H.
    apply isValid_checks in H as (_ & _ & _ & _ & Hc).
    destruct Hc as [[z Hz] _]; [done|]. simpl in Hz. by rewrite Hid in Hz.
  - intros job Hid. apply not_true_is_false. intros H.
    apply isValid_checks in H as (_ & _ & _ & _ & Hc).
    destruct Hc as [[z Hz] _]; [done|]. by rewrite Hz in Hid.
  - intros job Hs. apply not_true_is_false. intros H.
    apply isValid_checks in H as (_ & _ & _ & _ & Hc).
    destruct Hc as [_ [b Hb]]; [done|]. by rewrite Hb in Hs.
  - apply isValid_checks.
Qed.

(** The rejections of C7 at a record with a numeric [branch], at a String
    object carrying every field, and at records with a fractional [id]
    and a textual [success]. *)
Lemma isValid_rejects_and_accepts_witness :
  isValid (VObj Plain [("author", VStr "a"); ("repo", VStr "r");
                       ("branch", VNum (Int 7))]) false = false /\
  isValid (VObj Other [("author", VStr "a"); ("repo", VStr "r");
                       ("branch", VStr "b")]) false = false /\
  isValid (VObj Plain [("author", VStr "a"); ("repo", VStr "r");
                       ("branch", VStr "b"); ("success", VBool true)])
          true = false /\
  isValid (VObj Plain [("author", VStr "a"); ("repo", VStr "r");
                       ("branch", VStr "b"); ("id", VNum (Fractional "1.5"));
                       ("success", VBool true)]) true = false /\
  isValid (VObj Plain [("author", VStr "a"); ("repo", VStr "r");
                       ("branch", VStr "b"); ("id", VNum (Int 1));
                       ("success", VStr "yes")]) true = false /\
  isValid (VObj Plain [("author", VStr "a"); ("repo", VStr "r");
                       ("branch", VStr "b"); ("id", VNum (Int 1));
                       ("success", VBool false)]) true = true.
Proof.
  destruct isValid_rejects_and_accepts
    as (_ & _ & Hbranch & Hclass & Hmissing & Hid & Hsuccess & Hiff).
  split_and!.
  - apply Hbranch. reflexivity.
  - apply Hclass. discriminate.
  - apply Hmissing. reflexivity.
  - apply Hid. reflexivity.
  - apply Hsuccess. reflexivity.
  - apply Hiff. unfold applicable_checks. simpl. split_and!; eauto.
Defined.

(** C10. A plain record whose [author], [repo] and [branch] are strings
    is valid whatever the strings, the empty one included, and with
    [compiled = true] it is valid whatever integer [id] is, zero and the
    negative ones included: neither emptiness nor sign is looked at. *)
Theorem isValid_ignores_emptiness_and_sign props a r b :
  lookup_prop "author" props = Some (VStr a) ->
  lookup_prop "repo" props = Some (VStr r) ->
  lookup_prop "branch" props = Some (VStr b) ->
  isValid (VObj Plain props) false = true /\
  (forall z s,
     lookup_prop "id" props = Some (VNum (Int z)) ->
     lookup_prop "success" props = Some (VBool s) ->
     isValid (VObj Plain props) true = true).
Proof.
  intros Ha Hr Hb. split.
  - unfold isValid. simpl. by rewrite Ha, Hr, Hb.
  - intros z s Hz Hs. unfold isValid. simpl. by rewrite Ha, Hr, Hb, Hz, Hs.
Qed.

(** C10 at empty key fields, with [id] zero and with [id] negative. *)
Lemma isValid_ignores_emptiness_and_sign_witness :
  isValid (VObj Plain [("author", VStr ""); ("repo", VStr "");
                       ("branch", VStr ""); ("id", VNum (Int 0));
                       ("success", VBool true)]) false = true /\
  isValid (VObj Plain [("author", VStr ""); ("repo", VStr "");
                       ("branch", VStr ""); ("id", VNum (Int 0));
                       ("success", VBool true)]) true = true /\
  isValid (VObj Plain [("author", VStr ""); ("repo", VStr "");
                       ("branch", VStr ""); ("id", VNum (Int (-1)));
                       ("success", VBool false)]) true = true.
Proof.
  split_and!.
  - apply (isValid_ignores_emptiness_and_sign _ "" "" ""); reflexivity.
  - eapply (isValid_ignores_emptiness_and_sign _ "" "" ""); reflexivity.
  - eapply (isValid_ignores_emptiness_and_sign _ "" "" ""); reflexivity.
Defined.

(** ** Property lists *)

Section Props.

Context {A : Type}.
Implicit Types (props : list (string * A)) (key k : string) (a : A).

Lemma lookup_replace_prop props key a k :
  lookup_prop k (replace_prop key a props)
  = if decide (k = key)
    then match lookup_prop key props with Some _ => Some a | None => None end
    else lookup_prop k props.
Proof.
  induction props as [|[k' b] props IH]; simpl.
  - by destruct (decide _).
  - destruct (String.eqb_spec k' key) as [->|Hne]; simpl.
    + destruct (String.eqb_spec key k) as [->|Hk].
      * by rewrite decide_True.
      * by rewrite decide_False by congruence.
    + destruct (String.eqb_spec k' k) as [->|Hk].
      * by rewrite decide_False by congruence.
      * apply IH.
Qed.

Lemma lookup_create_prop props key a k :
  lookup_prop key props = None ->
  lookup_prop k (create_prop key a props)
  = if decide (k = key) then Some a else lookup_prop k props.
Proof.
  induction props as [|[k' b] props IH]; simpl.
  - intros _. destruct (String.eqb_spec key k) as [->|Hk].
    + by rewrite decide_True.
    + by rewrite decide_False by congruence.
  - destruct (String.eqb_spec k' key) as [->|Hne]; [done|]. intros Hnone.
    destruct (comes_before key k'); simpl.
    + destruct (String.eqb_spec key k) as [->|Hk].
      * by rewrite decide_True.
      * by rewrite decide_False by congruence.
    + destruct (String.eqb_spec k' k) as [->|Hk].
      * by rewrite decide_False by congruence.
      * by apply IH.
Qed.

Lemma lookup_put_prop props key a k :
  lookup_prop k (put_prop key a props)
  = if decide (k = key) then Some a else lookup_prop k props.
Proof.
  unfold put_prop. destruct (lookup_prop key props) eqn:Hkey.
  - rewrite lookup_replace_prop, Hkey. by destruct (decide _).
  - by apply lookup_create_prop.
Qed.

Lemma lookup_put_prop_eq props key a :
  lookup_prop key (put_prop key a props) = Some a.
Proof. by rewrite lookup_put_prop, decide_True. Qed.

Lemma lookup_put_prop_ne props key a k :
  k <> key -> lookup_prop k (put_prop key a props) = lookup_prop k props.
Proof. intros. by rewrite lookup_put_prop, decide_False. Qed.

Lemma put_prop_same props key a :
  lookup_prop key props = Some a -> put_prop key a props = props.
Proof.
  intros Hkey. unfold put_prop. rewrite Hkey. clear -Hkey.
  induction props as [|[k' b] props IH]; simpl in *; [done|].
  destruct (String.eqb_spec k' key) as [->|Hne].
  - by injection Hkey as ->.
  - by rewrite IH.
Qed.

Lemma keys_replace_prop props key a :
  map fst (replace_prop key a props) = map fst props.
Proof.
  induction props as [|[k' b] props IH]; simpl; [done|].
  destruct (String.eqb k' key); simpl; by rewrite ?IH.
Qed.

Lemma keys_put_prop props key a b :
  lookup_prop key props = Some b ->
  map fst (put_prop key a props) = map fst props.
Proof. intros Hkey. unfold put_prop. rewrite Hkey. apply keys_replace_prop. Qed.

Lemma lookup_prop_keys props key :
  key ∈ map fst props <-> is_Some (lookup_prop key props).
Proof.
  induction props as [|[k' b] props IH]; simpl.
  - split; [by intros ?%elem_of_nil|by intros [? ?]].
  - rewrite elem_of_cons. destruct (String.eqb_spec k' key) as [->|Hne].
    + split; eauto.
    + rewrite IH. split; [intros [?|?]; [congruence|done]|eauto].
Qed.

Lemma keys_put_prop_elem props key a k :
  k ∈ map fst (put_prop key a props) <-> k = key \/ k ∈ map fst props.
Proof.
  rewrite !lookup_prop_keys, lookup_put_prop.
  destruct (decide (k = key)) as [->|]; split; eauto.
  intros [?|?]; [done|eauto].
Qed.

End Props.

(** ** Keys of the ledger *)

Lemma Int_toString_parse z :
  NilZero.int_of_string (Int_toString z) = Some (Z.to_int z).
Proof.
  unfold Int_toString. apply NilZero.isi; destruct z; simpl; try discriminate;
    intros [= H]; by apply DecimalPos.Unsigned.to_uint_nonnil in H.
Qed.

Lemma Int_toString_inj z z' : Int_toString z = Int_toString z' -> z = z'.
Proof.
  intros H. apply DecimalZ.to_int_inj.
  pose proof (Int_toString_parse z) as Hz. rewrite H, Int_toString_parse in Hz.
  congruence.
Qed.

Lemma Int_toString_not_latest z : Int_toString z <> "latest".
Proof.
  intros H. pose proof (Int_toString_parse z) as Hz. rewrite H in Hz.
  discriminate.
Qed.

Lemma Int_toString_not_last_successful z :
  Int_toString z <> "last_successful".
Proof.
  intros H. pose proof (Int_toString_parse z) as Hz. rewrite H in Hz.
  discriminate.
Qed.

(** ** JSON *)

(** Induction on a document that reaches the members of an object. *)
Lemma json_members_ind (P : json -> Prop) :
  P JNull -> (forall b, P (JBool b)) -> (forall z, P (JInt z)) ->
  (forall text, P (JFrac text)) -> (forall s, P (JStr s)) ->
  (forall members, Forall (fun m => P m.2) members -> P (JObj members)) ->
  forall j, P j.
Proof.
  intros HNull HBool HInt HFrac HStr HObj.
  fix IH 1. intros [| b | z | text | s | members];
    [exact HNull|apply HBool|apply HInt|apply HFrac|apply HStr|].
  apply HObj. induction members as [|[k x] members IHm]; constructor;
    [apply IH|exact IHm].
Qed.

Lemma value_of_json_object members :
  value_of_json (JObj members) = VObj Plain (props_of_members members).
Proof.
  simpl. f_equal. induction members as [|[k x] members IH]; simpl; [done|].
  by rewrite IH.
Qed.

Lemma JSON_stringify_object props :
  JSON_stringify (VObj Plain props) = Some (JObj (members_of_props props)).
Proof.
  simpl. do 2 f_equal. induction props as [|[k w] props IH]; simpl; [done|].
  rewrite IH. by destruct (JSON_stringify w).
Qed.

(** A parsed document is written back as it was read. *)
Lemma JSON_stringify_value_of_json j :
  JSON_stringify (value_of_json j) = Some j.
Proof.
  induction j as [| | | | |members IH] using json_members_ind; try done.
  rewrite value_of_json_object, JSON_stringify_object. do 2 f_equal.
  induction IH as [|[k x] members Hx _ IHm]; simpl in *; [done|].
  by rewrite Hx, IHm.
Qed.

Lemma lookup_props_of_members members key :
  lookup_prop key (props_of_members members)
  = value_of_json <$> lookup_prop key members.
Proof.
  induction members as [|[k x] members IH]; simpl; [done|].
  by destruct (String.eqb k key).
Qed.

Lemma lookup_members_of_props props key w x :
  lookup_prop key props = Some w -> JSON_stringify w = Some x ->
  lookup_prop key (members_of_props props) = Some x.
Proof.
  intros Hkey Hx. induction props as [|[k w'] props IH]; simpl in *; [done|].
  destruct (String.eqb_spec k key) as [->|Hne].
  - injection Hkey as ->. rewrite Hx. simpl. by rewrite String.eqb_refl.
  - destruct (JSON_stringify w'); simpl; [|by apply IH].
    destruct (String.eqb_spec k key); [done|by apply IH].
Qed.

Lemma lookup_members_of_props_None props key :
  lookup_prop key props = None ->
  lookup_prop key (members_of_props props) = None.
Proof.
  induction props as [|[k w'] props IH]; simpl; [done|].
  destruct (String.eqb_spec k key) as [->|Hne]; [done|]. intros Hkey.
  destruct (JSON_stringify w'); simpl; [|by apply IH].
  destruct (String.eqb_spec k key); [done|by apply IH].
Qed.

Lemma written_members props members :
  written props members -> members_of_props props = members.
Proof.
  unfold written.
  induction 1 as [|[k w] [k' x] props members [Hk Hx] H IH]; simpl in *;
    [done|]. subst k. by rewrite Hx, IH.
Qed.

Lemma written_props_of_members members :
  written (props_of_members members) members.
Proof.
  induction members as [|[k x] members IH]; constructor; [|done].
  split; [done|]. apply JSON_stringify_value_of_json.
Qed.

Lemma written_lookup props members key :
  written props members ->
  lookup_prop key members
  = (lookup_prop key props ≫= fun w => JSON_stringify w).
Proof.
  unfold written.
  induction 1 as [|[k w] [k' x] props members [Hk Hx] H IH]; simpl in *;
    [done|]. subst k. destruct (String.eqb k' key); [by simpl|done].
Qed.

Lemma written_replace props members key w x :
  written props members -> JSON_stringify w = Some x ->
  written (replace_prop key w props) (replace_prop key x members).
Proof.
  intros H Hx.
  induction H as [|[k w'] [k' x'] props members [Hk Hx'] H IH]; simpl in *;
    [constructor|]. subst.
  destruct (String.eqb k' key); constructor; auto.
Qed.

Lemma written_create props members key w x :
  written props members -> JSON_stringify w = Some x ->
  written (create_prop key w props) (create_prop key x members).
Proof.
  intros H Hx.
  induction H as [|[k w'] [k' x'] props members [Hk Hx'] H IH]; simpl in *.
  - by repeat constructor.
  - subst. destruct (comes_before key k'); repeat constructor; auto.
Qed.

Lemma written_put props members key w x :
  written props members -> JSON_stringify w = Some x ->
  written (put_prop key w props) (put_prop key x members).
Proof.
  intros H Hx. unfold put_prop. rewrite (written_lookup _ _ key H).
  destruct (lookup_prop key props) as [w'|] eqn:Hkey; simpl.
  - assert (is_Some (JSON_stringify w')) as [x' ->];
      [|by apply written_replace].
    clear -H Hkey.
    induction H as [|[k w''] [k' x''] props members [Hk Hx'] H IH];
      simpl in *; [done|]. subst.
    destruct (String.eqb k' key); [|by apply IH]. injection Hkey as <-. eauto.
  - by apply written_create.
Qed.

(** ** Candidate and tag resolution *)

Lemma Put_object c props key v :
  key = "candidate" \/ key = "tag" ->
  Put (VObj c props) key v = Ok (VObj c (put_prop key v props)).
Proof. intros [-> | ->]; by destruct c. Qed.

Lemma member_put c props key v k :
  key = "candidate" \/ key = "tag" -> k <> key ->
  member (VObj c (put_prop key v props)) k = member (VObj c props) k.
Proof. intros _ Hk. simpl. by rewrite lookup_put_prop_ne. Qed.

Lemma member_release c props (v w : value) :
  member (VObj c (release v w props)) "sha" = member (VObj c props) "sha".
Proof. unfold release. by rewrite !member_put by (auto || done). Qed.

Lemma release_release {A} (props : list (string * A)) v w :
  release v w (release v w props) = release v w props.
Proof.
  unfold release.
  rewrite (put_prop_same _ "candidate").
  - apply put_prop_same, lookup_put_prop_eq.
  - rewrite lookup_put_prop_ne by done. apply lookup_put_prop_eq.
Qed.

Lemma resolve_object tags tag_keys c props :
  resolve tags tag_keys (VObj c props)
  = Ok (match first_tag tags tag_keys (member (VObj c props) "sha") with
        | Some tag => VObj c (release (VStr "RELEASE") (VStr tag) props)
        | None => VObj c props
        end).
Proof.
  induction tag_keys as [|tag rest IH]; [done|].
  cbn [resolve first_tag Get mbind result_bind].
  destruct (strict_equal _ _); [|done].
  rewrite Put_object by auto. cbn [mbind result_bind].
  by rewrite Put_object by auto.
Qed.

Lemma resolve_primitive tags tag_keys e e' :
  (forall c props, e <> VObj c props) ->
  resolve tags tag_keys e = Ok e' -> e' = e.
Proof.
  intros He. induction tag_keys as [|tag rest IH]; simpl; [congruence|].
  destruct e; try done; simpl; destruct (strict_equal _ _); naive_solver.
Qed.

Lemma resolve_idempotent tags tag_keys e e' :
  resolve tags tag_keys e = Ok e' -> resolve tags tag_keys e' = Ok e'.
Proof.
  intros H. destruct e as [| | b | n | s | c props].
  1-5: (pose proof H as H'; apply resolve_primitive in H';
        [by subst e'|intros ? ? ?; discriminate]).
  rewrite resolve_object in H.
  remember (member (VObj c props) "sha") as sha eqn:Hsha.
  destruct (first_tag tags tag_keys sha) as [tag|] eqn:Htag; injection H as <-.
  - by rewrite resolve_object, member_release, <- Hsha, Htag, release_release.
  - by rewrite resolve_object, <- Hsha, Htag.
Qed.

Lemma scan_tags_resolve tags tag_keys props build e :
  lookup_prop build props = Some e ->
  scan_tags tags tag_keys (VObj Plain props) build
  = (e' ← resolve tags tag_keys e; Ok (VObj Plain (put_prop build e' props))).
Proof.
  intros Hbuild. induction tag_keys as [|tag rest IH]; simpl.
  - by rewrite put_prop_same.
  - rewrite Hbuild. simpl. destruct (Get e "sha") as [sha|]; simpl; [|done].
    destruct (strict_equal _ _); [|done].
    destruct (Put e "candidate" _) as [e1|]; simpl; [|done].
    by destruct (Put e1 "tag" _).
Qed.

Lemma apply_tags_lookup tags build_keys props builds' :
  (forall k, k ∈ build_keys -> is_Some (lookup_prop k props)) ->
  apply_tags tags build_keys (VObj Plain props) = Ok builds' ->
  exists props',
    builds' = VObj Plain props' /\
    map fst props' = map fst props /\
    (forall k, k ∈ build_keys ->
       exists e e', lookup_prop k props = Some e /\
                    resolve tags (for_in_keys tags) e = Ok e' /\
                    lookup_prop k props' = Some e') /\
    (forall k, k ∉ build_keys -> lookup_prop k props' = lookup_prop k props).
Proof.
  revert props. induction build_keys as [|build rest IH]; intros props Hkeys.
  - simpl. intros [= <-]. exists props. split_and!; try done.
    by intros k ?%elem_of_nil.
  - cbn [apply_tags].
    destruct (Hkeys build) as [e He]; [left|].
    rewrite (scan_tags_resolve _ _ _ _ _ He).
    destruct (resolve tags (for_in_keys tags) e) as [e'|] eqn:Hres;
      [|discriminate]. cbn [mbind result_bind]. intros Happly.
    apply IH in Happly as (props' & -> & Hfst & Hin & Hout).
    2:{ intros k Hk. rewrite lookup_put_prop. destruct (decide _); [done|].
        apply Hkeys. by right. }
    exists props'. split_and!; [done| | |].
    + rewrite Hfst. by eapply keys_put_prop.
    + intros k [->|Hk]%elem_of_cons.
      * exists e, e'. split_and!; [done..|].
        destruct (decide (build ∈ rest)) as [Hrest|Hrest].
        -- destruct (Hin _ Hrest) as (e1 & e1' & H1 & H2 & H3).
           rewrite lookup_put_prop_eq in H1. injection H1 as <-.
           rewrite (resolve_idempotent _ _ _ _ Hres) in H2. congruence.
        -- by rewrite Hout, lookup_put_prop_eq.
      * destruct (Hin _ Hk) as (e1 & e1' & H1 & H2 & H3).
        destruct (decide (k = build)) as [->|Hne].
        -- rewrite lookup_put_prop_eq in H1. injection H1 as <-.
           rewrite (resolve_idempotent _ _ _ _ Hres) in H2.
           exists e, e'. split_and!; congruence.
        -- rewrite lookup_put_prop_ne in H1 by done. eauto.
    + intros k [Hne Hk]%not_elem_of_cons.
      by rewrite Hout, lookup_put_prop_ne.
Qed.

(** ** The registry *)

Lemma isValid_compiled job :
  isValid job true = true ->
  exists props z b, job = VObj Plain props /\
                    member job "id" = VNum (Int z) /\
                    member job "success" = VBool b.
Proof.
  intros (Hplain & _ & _ & _ & Hc)%isValid_checks.
  destruct Hplain as [props ->]. destruct Hc as [[z Hz] [b Hb]]; [done|].
  by exists props, z, b.
Qed.

Lemma update_inserted job z b props builds' :
  member job "id" = VNum (Int z) ->
  member job "success" = VBool b ->
  update job (VObj Plain props) = Ok builds' ->
  exists record props',
    build_record job = Ok record /\
    builds' = VObj Plain props' /\
    map fst props' = map fst (inserted z b record props) /\
    (forall k e,
       lookup_prop k (inserted z b record props) = Some e ->
       exists e', resolve (member job "tags")
                    (for_in_keys (member job "tags")) e = Ok e' /\
                  lookup_prop k props' = Some e') /\
    (forall k,
       lookup_prop k (inserted z b record props) = None ->
       lookup_prop k props' = None).
Proof.
  intros Hid Hsuccess. unfold update. rewrite Hid, Hsuccess.
  destruct (build_record job) as [record|]; [|discriminate].
  assert (apply_tags (member job "tags")
            (map fst (inserted z b record props))
            (VObj Plain (inserted z b record props)) = Ok builds' ->
          exists props',
            builds' = VObj Plain props' /\
            map fst props' = map fst (inserted z b record props) /\
            (forall k, k ∈ map fst (inserted z b record props) ->
               exists e e',
                 lookup_prop k (inserted z b record props) = Some e /\
                 resolve (member job "tags")
                   (for_in_keys (member job "tags")) e = Ok e' /\
                 lookup_prop k props' = Some e') /\
            (forall k, k ∉ map fst (inserted z b record props) ->
               lookup_prop k props' = lookup_prop k (inserted z b record props)))
    as Happly.
  { apply apply_tags_lookup. intros k. by rewrite lookup_prop_keys. }
  intros Hupd.
  assert (apply_tags (member job "tags")
            (map fst (inserted z b record props))
            (VObj Plain (inserted z b record props)) = Ok builds') as Hupd'.
  { by destruct b. }
  clear Hupd. revert Hupd'. intros (props' & -> & Hfst & Hin & Hout)%Happly.
  exists record, props'. split_and!; try done.
  - intros k e Hk. destruct (Hin k) as (e1 & e' & H1 & H2 & H3).
    { apply lookup_prop_keys. eauto. }
    exists e'. split; congruence.
  - intros k Hk. rewrite Hout; [done|]. rewrite lookup_prop_keys, Hk.
    by intros [? ?].
Qed.

Lemma writeFile_ledger fs file members fs' :
  writeFile fs file (Json (JObj members)) = Ok fs' ->
  ledger fs' file = Some members.
Proof.
  unfold writeFile, ledger. intros H.
  destruct (fs !! file) as [[m data|m|m]|]; try discriminate.
  - destruct (can_write m); [|discriminate]. injection H as <-.
    by rewrite lookup_insert_eq.
  - destruct (fs !! removelast file) as [[|m|]|]; try discriminate.
    destruct (can_write m); [|discriminate]. injection H as <-.
    by rewrite lookup_insert_eq.
Qed.

Lemma append_fulfilled job file builds in_callback fs log :
  returned (append job file builds in_callback fs log) = Settled Fulfilled ->
  exists builds' j fs',
    update job builds = Ok builds' /\
    JSON_stringify builds' = Some j /\
    writeFile fs file (Json j) = Ok fs' /\
    disk (append job file builds in_callback fs log) = fs'.
Proof.
  unfold append. destruct (update job builds) as [builds'|e].
  - destruct (JSON_stringify builds') as [j|] eqn:Hj; [|discriminate].
    destruct (writeFile fs file (Json j)) as [fs'|e] eqn:Hw; [|discriminate].
    intros _. exists builds', j, fs'. by rewrite Hw.
  - by destruct in_callback.
Qed.

Lemma addBuild_starts dirname job fs members :
  isValid job true = true ->
  starts_from fs (ledger_file dirname job) members ->
  exists in_callback log,
    addBuild dirname job fs
    = append job (ledger_file dirname job) (value_of_json (JObj members))
        in_callback fs log.
Proof.
  intros Hvalid Hstarts. unfold addBuild. rewrite Hvalid. cbn [negb].
  destruct Hstarts
    as [[[Hnone ->]|[Hexists Hread]]|(Hexists & [e Hread] & ->)].
  - unfold existsSync, stat. rewrite Hnone. eauto.
  - rewrite Hexists, Hread. cbn [JSON_parse]. eauto.
  - rewrite Hexists, Hread. eauto.
Qed.

Lemma isValid_of_fulfilled dirname job fs :
  returned (addBuild dirname job fs) = Settled Fulfilled ->
  isValid job true = true.
Proof. unfold addBuild. by destruct (isValid job true). Qed.

(** What a call that started from [members] and succeeded left on the
    disk. *)
Lemma addBuild_fulfilled dirname job fs members :
  starts_from fs (ledger_file dirname job) members ->
  returned (addBuild dirname job fs) = Settled Fulfilled ->
  exists z b record props',
    member job "id" = VNum (Int z) /\
    member job "success" = VBool b /\
    build_record job = Ok record /\
    ledger (disk (addBuild dirname job fs)) (ledger_file dirname job)
    = Some (members_of_props props') /\
    (forall k e,
       lookup_prop k (inserted z b record (props_of_members members)) = Some e ->
       exists e', resolve (member job "tags")
                    (for_in_keys (member job "tags")) e = Ok e' /\
                  lookup_prop k props' = Some e') /\
    (forall k,
       lookup_prop k (inserted z b record (props_of_members members)) = None ->
       lookup_prop k props' = None).
Proof.
  intros Hloads Hok. pose proof (isValid_of_fulfilled _ _ _ Hok) as Hvalid.
  destruct (isValid_compiled _ Hvalid) as (jp & z & b & -> & Hid & Hsuccess).
  destruct (addBuild_starts _ _ _ _ Hvalid Hloads) as (cb & log & Heq).
  rewrite Heq in Hok |- *.
  apply append_fulfilled in Hok as (builds' & j & fs' & Hupd & Hj & Hw & ->).
  rewrite value_of_json_object in Hupd.
  apply (update_inserted _ z b) in Hupd
    as (record & props' & Hrec & -> & _ & Hin & Hout); [|done..].
  rewrite JSON_stringify_object in Hj. injection Hj as <-.
  apply writeFile_ledger in Hw.
  by exists z, b, record, props'.
Qed.

Lemma lookup_inserted_other z b record props k :
  k <> Int_toString z -> k <> "latest" -> k <> "last_successful" ->
  lookup_prop k (inserted z b record props) = lookup_prop k props.
Proof.
  intros Hz Hlatest Hlast. unfold inserted.
  rewrite lookup_put_prop_ne by done.
  destruct b; simpl; by rewrite !lookup_put_prop_ne.
Qed.

Lemma lookup_inserted_latest z b record props :
  lookup_prop "latest" (inserted z b record props) = Some (VNum (Int z)).
Proof. apply lookup_put_prop_eq. Qed.

Lemma lookup_inserted_last_successful z b record props :
  lookup_prop "last_successful" (inserted z b record props)
  = if b then Some (VNum (Int z)) else lookup_prop "last_successful" props.
Proof.
  unfold inserted. rewrite lookup_put_prop_ne by done.
  destruct b; simpl; [apply lookup_put_prop_eq|].
  apply lookup_put_prop_ne. intros H. symmetry in H.
  by apply Int_toString_not_last_successful in H.
Qed.

Lemma lookup_inserted_record z b record props :
  lookup_prop (Int_toString z) (inserted z b record props) = Some record.
Proof.
  unfold inserted.
  rewrite lookup_put_prop_ne by apply Int_toString_not_latest.
  destruct b; simpl; [|apply lookup_put_prop_eq].
  rewrite lookup_put_prop_ne by apply Int_toString_not_last_successful.
  apply lookup_put_prop_eq.
Qed.

Lemma JSON_stringify_resolved tags record :
  JSON_stringify
    (match first_tag tags (for_in_keys tags)
             (member (VObj Plain (props_of_members record)) "sha") with
     | Some tag =>
         VObj Plain
           (release (VStr "RELEASE") (VStr tag) (props_of_members record))
     | None => VObj Plain (props_of_members record)
     end)
  = Some (JObj (resolved tags record)).
Proof.
  unfold resolved. rewrite value_of_json_object.
  destruct (first_tag _ _ _) as [tag|]; rewrite JSON_stringify_object;
    do 2 f_equal; apply written_members.
  - unfold release. apply written_put; [|reflexivity].
    apply written_put; [|reflexivity]. apply written_props_of_members.
  - apply written_props_of_members.
Qed.

Lemma same_but_candidate_and_tag_resolved tags record :
  same_but_candidate_and_tag record (resolved tags record).
Proof.
  unfold resolved, release. intros name Hc Ht.
  destruct (first_tag _ _ _); [|done]. by rewrite !lookup_put_prop_ne.
Qed.

Lemma loads_ledger fs file members members' :
  loads fs file members -> ledger fs file = Some members' ->
  members' = members.
Proof.
  unfold loads, ledger, readFile. intros [[Hnone _]|[_ Hread]] Hledger.
  - by rewrite Hnone in Hledger.
  - destruct (fs !! file) as [[m data|m|m]|]; try discriminate.
    destruct (can_read m); [|discriminate]. injection Hread as ->.
    by injection Hledger as ->.
Qed.

Lemma tags_resolved_step dirname job fs members z record :
  starts_from fs (ledger_file dirname job) members ->
  returned (addBuild dirname job fs) = Settled Fulfilled ->
  lookup_prop (Int_toString z) members = Some (JObj record) ->
  member job "id" <> VNum (Int z) ->
  entry (disk (addBuild dirname job fs)) (ledger_file dirname job)
        (Int_toString z)
  = Some (JObj (resolved (member job "tags") record)).
Proof.
  intros Hloads Hok Hrecord Hid.
  destruct (addBuild_fulfilled _ _ _ _ Hloads Hok)
    as (z' & b & new & props' & Hz' & _ & _ & Hledger & Hin & _).
  unfold entry. rewrite Hledger.
  destruct (Hin (Int_toString z) (value_of_json (JObj record)))
    as (e' & Hres & Hlookup).
  { rewrite lookup_inserted_other, lookup_props_of_members, Hrecord;
      [done| |apply Int_toString_not_latest
       |apply Int_toString_not_last_successful].
    intros ->%Int_toString_inj. congruence. }
  rewrite value_of_json_object, resolve_object in Hres. injection Hres as <-.
  eapply lookup_members_of_props; [done|]. apply JSON_stringify_resolved.
Qed.


(** C5. A call of [addBuild] that succeeds leaves [latest] at the id of
    the job whatever the outcome of the build, and [last_successful] at
    that id when the build succeeded; when it failed, [last_successful]
    is what the ledger it started from had (a pointer, or nothing). *)
Theorem latest_and_last_successful dirname job fs members :
  starts_from fs (ledger_file dirname job) members ->
  returned (addBuild dirname job fs) = Settled Fulfilled ->
  exists z,
    member job "id" = VNum (Int z) /\
    entry (disk (addBuild dirname job fs)) (ledger_file dirname job) "latest"
    = Some (JInt z) /\
    (member job "success" = VBool true ->
     entry (disk (addBuild dirname job fs)) (ledger_file dirname job)
           "last_successful" = Some (JInt z)) /\
    (member job "success" = VBool false ->
     (forall record,
        lookup_prop "last_successful" members <> Some (JObj record)) ->
     entry (disk (addBuild dirname job fs)) (ledger_file dirname job)
           "last_successful" = lookup_prop "last_successful" members).
Proof.
  intros Hstarts Hok.
  destruct (addBuild_fulfilled _ _ _ _ Hstarts Hok)
    as (z & b & new & props' & Hz & Hb & _ & Hledger & Hin & Hout).
  exists z. unfold entry. rewrite Hledger. split_and!; [done| | |].
  - destruct (Hin _ _ (lookup_inserted_latest z b new _))
      as (e' & Hres & Hlookup).
    apply resolve_primitive in Hres as ->; [|done].
    by eapply lookup_members_of_props.
  - rewrite Hb. intros [= ->].
    pose proof (lookup_inserted_last_successful z true new
                  (props_of_members members)) as Hlast.
    destruct (Hin _ _ Hlast) as (e' & Hres & Hlookup).
    apply resolve_primitive in Hres as ->; [|done].
    by eapply lookup_members_of_props.
  - rewrite Hb. intros [= ->] Hpointer.
    pose proof (lookup_inserted_last_successful z false new
                  (props_of_members members)) as Hlast.
    rewrite lookup_props_of_members in Hlast.
    destruct (lookup_prop "last_successful" members) as [x|] eqn:Hx.
    + destruct (Hin _ _ Hlast) as (e' & Hres & Hlookup).
      apply resolve_primitive in Hres as ->.
      * eapply lookup_members_of_props; [done|].
        apply JSON_stringify_value_of_json.
      * intros c props Hobj. destruct x as [| | | | |record]; try discriminate.
        by destruct (Hpointer record).
    + apply lookup_members_of_props_None. by apply Hout.
Qed.

Lemma build_record_object job record :
  build_record job = Ok record -> exists props, record = VObj Plain props.
Proof.
  unfold build_record.
  destruct (Get (member job "commit") "sha"); [|discriminate].
  destruct (Get (member job "commit") "date"); [|discriminate].
  destruct (Get (member job "commit") "timestamp"); [|discriminate].
  destruct (Get (member job "commit") "message"); [|discriminate].
  destruct (Get (member job "commit") "author"); [|discriminate].
  destruct (Get (member job "commit") "avatar"); [|discriminate].
  intros [= <-]. eauto.
Qed.

Lemma same_but_candidate_and_tag_trans r1 r2 r3 :
  same_but_candidate_and_tag r1 r2 -> same_but_candidate_and_tag r2 r3 ->
  same_but_candidate_and_tag r1 r3.
Proof. intros H12 H23 name Hc Ht. by rewrite H12, H23. Qed.

(** The record a call has just added. *)
Lemma addBuild_adds dirname job fs members z :
  loads fs (ledger_file dirname job) members ->
  returned (addBuild dirname job fs) = Settled Fulfilled ->
  member job "id" = VNum (Int z) ->
  exists record,
    entry (disk (addBuild dirname job fs)) (ledger_file dirname job)
          (Int_toString z) = Some (JObj record).
Proof.
  intros Hloads Hok Hid.
  destruct (addBuild_fulfilled _ _ _ _ (or_introl Hloads) Hok)
    as (z' & b & new & props' & Hz' & _ & Hnew & Hledger & Hin & _).
  assert (z' = z) as -> by congruence.
  destruct (build_record_object _ _ Hnew) as [props ->].
  destruct (Hin _ _ (lookup_inserted_record z b _ _)) as (e' & Hres & Hlookup).
  rewrite resolve_object in Hres. injection Hres as <-.
  unfold entry. rewrite Hledger.
  destruct (first_tag _ _ _);
    (eexists; eapply lookup_members_of_props;
     [done|apply JSON_stringify_object]).
Qed.

(** The calls after it keep a record, up to [candidate] and [tag]. *)
Lemma addBuilds_keep dirname file later : forall fs z record,
  completes dirname file later fs ->
  VNum (Int z) ∉ map (fun job => member job "id") later ->
  entry fs file (Int_toString z) = Some (JObj record) ->
  exists record',
    entry (addBuilds dirname later fs) file (Int_toString z)
    = Some (JObj record') /\
    same_but_candidate_and_tag record record'.
Proof.
  induction later as [|job later IH]; intros fs z record Hcompletes Hids Hentry.
  - exists record. by split.
  - destruct Hcompletes as (<- & [members Hloads] & Hok & Hlater).
    apply not_elem_of_cons in Hids as [Hid Hids].
    assert (lookup_prop (Int_toString z) members = Some (JObj record))
      as Hrecord.
    { unfold entry in Hentry.
      destruct (ledger fs (ledger_file dirname job)) as [members'|] eqn:Hl;
        [|done]. by rewrite <- (loads_ledger _ _ _ _ Hloads Hl). }
    pose proof (tags_resolved_step dirname job fs members z record
                  (or_introl Hloads) Hok Hrecord ltac:(congruence)) as Hstep.
    destruct (IH _ _ _ Hlater Hids Hstep) as (record' & Hfinal & Hsame).
    exists record'. split; [done|].
    eapply same_but_candidate_and_tag_trans; [|done].
    apply same_but_candidate_and_tag_resolved.
Qed.

(** C4, as amended. In a sequence of calls of [addBuild] for one ledger,
    each of which finds no ledger file or reads the one there, and
    succeeds, the record under an id that no later call uses is still in
    the ledger after the later calls, and is the record the call that
    added it left but for [candidate] and [tag]. The id is a safe
    integer, so that its key is its decimal notation. *)
Theorem ledger_is_append_only dirname file job later fs z :
  completes dirname file (job :: later) fs ->
  member job "id" = VNum (Int z) ->
  Number_isSafeInteger (member job "id") = true ->
  VNum (Int z) ∉ map (fun job => member job "id") later ->
  exists record record',
    entry (disk (addBuild dirname job fs)) file (ToString (member job "id"))
    = Some (JObj record) /\
    entry (addBuilds dirname (job :: later) fs) file
          (ToString (member job "id"))
    = Some (JObj record') /\
    same_but_candidate_and_tag record record'.
Proof.
  intros (<- & [members Hloads] & Hok & Hlater) Hid _ Hids.
  rewrite Hid. cbn [ToString Number_toString].
  destruct (addBuild_adds _ _ _ _ _ Hloads Hok Hid) as [record Hrecord].
  destruct (addBuilds_keep _ _ _ _ _ _ Hlater Hids Hrecord)
    as (record' & Hfinal & Hsame).
  by exists record, record'.
Qed.

(** ** When the update goes through *)

Lemma resolve_ok tags tag_keys e :
  e <> VUndefined -> e <> VNull ->
  exists e', resolve tags tag_keys e = Ok e'.
Proof.
  intros Hu Hn. destruct e as [| | b | n | s | c props]; try done.
  4: by rewrite resolve_object; eauto.
  all: induction tag_keys as [|tag rest IH]; simpl; eauto;
    destruct (strict_equal _ _); eauto.
Qed.

Lemma apply_tags_ok tags build_keys : forall props,
  (forall k, k ∈ build_keys ->
     exists e e', lookup_prop k props = Some e /\
                  resolve tags (for_in_keys tags) e = Ok e') ->
  exists builds', apply_tags tags build_keys (VObj Plain props) = Ok builds'.
Proof.
  induction build_keys as [|build rest IH]; intros props Hkeys; [by eexists|].
  cbn [apply_tags]. destruct (Hkeys build) as (e & e' & He & Hres); [left|].
  rewrite (scan_tags_resolve _ _ _ _ _ He), Hres. cbn [mbind result_bind].
  apply IH. intros k Hk. rewrite lookup_put_prop.
  destruct (decide (k = build)) as [->|Hne].
  - exists e', e'. split; [done|]. by eapply resolve_idempotent.
  - apply Hkeys. by right.
Qed.

Lemma update_ok job z b record props :
  member job "id" = VNum (Int z) ->
  member job "success" = VBool b ->
  build_record job = Ok record ->
  (forall k e, lookup_prop k props = Some e -> e <> VUndefined /\ e <> VNull) ->
  exists builds', update job (VObj Plain props) = Ok builds'.
Proof.
  intros Hid Hsuccess Hrecord Hprops.
  destruct (build_record_object _ _ Hrecord) as [rp ->].
  assert (exists builds',
            apply_tags (member job "tags")
              (map fst (inserted z b (VObj Plain rp) props))
              (VObj Plain (inserted z b (VObj Plain rp) props)) = Ok builds')
    as [builds' Hbuilds'].
  { apply apply_tags_ok. intros k [e He]%lookup_prop_keys. exists e.
    destruct (resolve_ok (member job "tags")
                (for_in_keys (member job "tags")) e) as [e' He']; [| |eauto].
    all: intros ->; revert He; unfold inserted; rewrite lookup_put_prop;
      destruct (decide _); [done|]; destruct b; simpl;
      rewrite ?lookup_put_prop; repeat (destruct (decide _); [done|]);
      intros He; by destruct (Hprops _ _ He). }
  exists builds'. rewrite <- Hbuilds'. unfold update.
  rewrite Hid, Hsuccess, Hrecord. by destruct b.
Qed.

Lemma lookup_members_of_props_is_Some props key :
  is_Some (lookup_prop key (members_of_props props)) ->
  is_Some (lookup_prop key props).
Proof.
  destruct (lookup_prop key props) eqn:Hkey; [eauto|].
  rewrite lookup_members_of_props_None by done. by intros [? ?].
Qed.

(** A call goes through when the job has a commit, no entry of the
    ledger it starts from is [null], and the file can be written. *)
Lemma addBuild_succeeds dirname job fs members record :
  isValid job true = true ->
  starts_from fs (ledger_file dirname job) members ->
  build_record job = Ok record ->
  (forall k, lookup_prop k members <> Some JNull) ->
  (forall data, exists fs', writeFile fs (ledger_file dirname job) data = Ok fs') ->
  returned (addBuild dirname job fs) = Settled Fulfilled.
Proof.
  intros Hvalid Hstarts Hrecord Hnull Hwrite.
  destruct (isValid_compiled _ Hvalid) as (jp & z & b & _ & Hid & Hsuccess).
  destruct (addBuild_starts _ _ _ _ Hvalid Hstarts) as (cb & log & ->).
  rewrite value_of_json_object.
  destruct (update_ok job z b record (props_of_members members)
              Hid Hsuccess Hrecord) as [builds' Hupd].
  { intros k e. rewrite lookup_props_of_members.
    destruct (lookup_prop k members) as [x|] eqn:Hx; [|done].
    intros [= <-]. split; [by destruct x|].
    destruct x; try done. by destruct (Hnull k). }
  destruct (update_inserted _ _ _ _ _ Hid Hsuccess Hupd)
    as (_ & props' & _ & -> & _).
  unfold append. rewrite Hupd, JSON_stringify_object.
  destruct (Hwrite (Json (JObj (members_of_props props')))) as [fs' ->].
  done.
Qed.

Lemma resolve_json tags x e' :
  resolve tags (for_in_keys tags) (value_of_json x) = Ok e' ->
  JSON_stringify e' = Some (resolved_entry tags x).
Proof.
  destruct x as [| | | | |record].
  1-5: (intros H; apply resolve_primitive in H; [by subst|];
        intros ? ? ?; discriminate).
  rewrite value_of_json_object, resolve_object. intros [= <-].
  apply JSON_stringify_resolved.
Qed.

Lemma resolved_entry_no_tags tags x :
  for_in_keys tags = [] -> resolved_entry tags x = x.
Proof.
  intros Htags. destruct x; try done. simpl. unfold resolved.
  by rewrite Htags.
Qed.

Lemma lookup_inserted_kept z b record props k :
  k <> "latest" -> ~ (k = "last_successful" /\ b = true) ->
  k <> Int_toString z ->
  lookup_prop k (inserted z b record props) = lookup_prop k props.
Proof.
  intros Hlatest Hlast Hid.
  destruct (decide (k = "last_successful")) as [->|Hne].
  - rewrite lookup_inserted_last_successful. destruct b; [|done].
    by destruct Hlast.
  - by apply lookup_inserted_other.
Qed.

Lemma addBuild_entries dirname job fs members :
  starts_from fs (ledger_file dirname job) members ->
  returned (addBuild dirname job fs) = Settled Fulfilled ->
  exists z b fields,
    member job "id" = VNum (Int z) /\
    member job "success" = VBool b /\
    build_record job = Ok (VObj Plain fields) /\
    forall k,
      entry (disk (addBuild dirname job fs)) (ledger_file dirname job) k
      = entry_after (member job "tags") z b fields members k.
Proof.
  intros Hstarts Hok.
  destruct (addBuild_fulfilled _ _ _ _ Hstarts Hok)
    as (z & b & new & props' & Hz & Hb & Hnew & Hledger & Hin & Hout).
  destruct (build_record_object _ _ Hnew) as [fields ->].
  exists z, b, fields. split_and!; [done..|]. intros k.
  unfold entry, entry_after. rewrite Hledger.
  destruct (decide (k = "latest")) as [->|Hlatest].
  { destruct (Hin _ _ (lookup_inserted_latest z b _ _)) as (e' & Hres & Hk).
    apply resolve_primitive in Hres as ->; [|done].
    by eapply lookup_members_of_props. }
  pose proof (lookup_inserted_last_successful z b (VObj Plain fields)
                (props_of_members members)) as Hlast.
  destruct (decide (k = "last_successful" /\ b = true)) as [[-> ->]|Hls].
  { destruct (Hin _ _ Hlast) as (e' & Hres & Hk).
    apply resolve_primitive in Hres as ->; [|done].
    by eapply lookup_members_of_props. }
  destruct (decide (k = Int_toString z)) as [->|Hid].
  { destruct (Hin _ _ (lookup_inserted_record z b _ _)) as (e' & Hres & Hk).
    rewrite resolve_object in Hres. injection Hres as <-.
    eapply lookup_members_of_props; [done|]. unfold recorded.
    by destruct (first_tag _ _ _); rewrite JSON_stringify_object. }
  assert (lookup_prop k (inserted z b (VObj Plain fields)
                           (props_of_members members))
          = value_of_json <$> lookup_prop k members) as Hk.
  { rewrite <- lookup_props_of_members. by apply lookup_inserted_kept. }
  destruct (lookup_prop k members) as [x|]; simpl in *.
  - destruct (Hin _ _ Hk) as (e' & Hres & Hk').
    eapply lookup_members_of_props; [done|]. by apply resolve_json.
  - apply lookup_members_of_props_None. by apply Hout.
Qed.

Lemma build_record_fields job record :
  build_record job = Ok record ->
  record
  = VObj Plain
      [ ("id", member job "id");
        ("sha", member (member job "commit") "sha");
        ("date", member (member job "commit") "date");
        ("timestamp", member (member job "commit") "timestamp");
        ("message", member (member job "commit") "message");
        ("author", member (member job "commit") "author");
        ("avatar", member (member job "commit") "avatar");
        ("license", member job "license");
        ("candidate", VStr "DEVELOPMENT");
        ("status", VStr (if ToBoolean (member job "success")
                         then "SUCCESS" else "FAILURE")) ].
Proof.
  unfold build_record.
  destruct (member job "commit"); try discriminate; by intros [= <-].
Qed.

Lemma lookup_members_of_props_NoDup props key :
  NoDup (map fst props) ->
  lookup_prop key (members_of_props props)
  = lookup_prop key props ≫= JSON_stringify.
Proof.
  induction props as [|[k w] props IH]; [done|].
  rewrite map_cons. intros [Hk Hnodup]%NoDup_cons.
  cbn [members_of_props omap list_omap lookup_prop fst snd].
  destruct (String.eqb_spec k key) as [->|Hne].
  - cbn [mbind option_bind].
    destruct (JSON_stringify w) as [x|] eqn:Hx.
    + cbn [lookup_prop]. by rewrite String.eqb_refl.
    + apply lookup_members_of_props_None.
      destruct (lookup_prop key props) eqn:Hl; [|done].
      destruct Hk. apply lookup_prop_keys. eauto.
  - destruct (JSON_stringify w) as [x|]; [|by apply IH].
    cbn [lookup_prop]. destruct (String.eqb_spec k key); [done|by apply IH].
Qed.

(** The fields of the record of a build, as it is written. *)
Lemma recorded_fields job z b fields :
  member job "id" = VNum (Int z) ->
  member job "success" = VBool b ->
  build_record job = Ok (VObj Plain fields) ->
  lookup_prop "id" (recorded (member job "tags") fields) = Some (JInt z) /\
  lookup_prop "status" (recorded (member job "tags") fields)
  = Some (JStr (if b then "SUCCESS" else "FAILURE")) /\
  (forall name,
     name ∈ ["sha"; "date"; "timestamp"; "message"; "author"; "avatar"] ->
     lookup_prop name (recorded (member job "tags") fields)
     = JSON_stringify (member (member job "commit") name)) /\
  lookup_prop "license" (recorded (member job "tags") fields)
  = JSON_stringify (member job "license") /\
  lookup_prop "candidate" (recorded (member job "tags") fields)
  = Some (JStr match first_tag (member job "tags")
                       (for_in_keys (member job "tags"))
                       (member (member job "commit") "sha") with
               | Some _ => "RELEASE"
               | None => "DEVELOPMENT"
               end) /\
  lookup_prop "tag" (recorded (member job "tags") fields)
  = JStr <$> first_tag (member job "tags") (for_in_keys (member job "tags"))
               (member (member job "commit") "sha").
Proof.
  intros Hz Hb Hnew.
  apply build_record_fields in Hnew. injection Hnew as ->.
  rewrite Hz, Hb. unfold recorded.
  cbn [member lookup_prop String.eqb Ascii.eqb Bool.eqb].
  set (commit := member job "commit").
  assert (forall tag key,
            lookup_prop key
              (members_of_props
                 (release (VStr "RELEASE") (VStr tag)
                    [ ("id", VNum (Int z)); ("sha", member commit "sha");
                      ("date", member commit "date");
                      ("timestamp", member commit "timestamp");
                      ("message", member commit "message");
                      ("author", member commit "author");
                      ("avatar", member commit "avatar");
                      ("license", member job "license");
                      ("candidate", VStr "DEVELOPMENT");
                      ("status", VStr (if ToBoolean (VBool b)
                                       then "SUCCESS" else "FAILURE")) ]))
            = lookup_prop key
                (release (VStr "RELEASE") (VStr tag)
                    [ ("id", VNum (Int z)); ("sha", member commit "sha");
                      ("date", member commit "date");
                      ("timestamp", member commit "timestamp");
                      ("message", member commit "message");
                      ("author", member commit "author");
                      ("avatar", member commit "avatar");
                      ("license", member job "license");
                      ("candidate", VStr "DEVELOPMENT");
                      ("status", VStr (if ToBoolean (VBool b)
                                       then "SUCCESS" else "FAILURE")) ])
              ≫= JSON_stringify) as Hreleased.
  { intros tag key. apply lookup_members_of_props_NoDup.
    apply (bool_decide_unpack _). by vm_compute. }
  assert (forall key,
            lookup_prop key
              (members_of_props
                    [ ("id", VNum (Int z)); ("sha", member commit "sha");
                      ("date", member commit "date");
                      ("timestamp", member commit "timestamp");
                      ("message", member commit "message");
                      ("author", member commit "author");
                      ("avatar", member commit "avatar");
                      ("license", member job "license");
                      ("candidate", VStr "DEVELOPMENT");
                      ("status", VStr (if ToBoolean (VBool b)
                                       then "SUCCESS" else "FAILURE")) ])
            = lookup_prop key
                    [ ("id", VNum (Int z)); ("sha", member commit "sha");
                      ("date", member commit "date");
                      ("timestamp", member commit "timestamp");
                      ("message", member commit "message");
                      ("author", member commit "author");
                      ("avatar", member commit "avatar");
                      ("license", member job "license");
                      ("candidate", VStr "DEVELOPMENT");
                      ("status", VStr (if ToBoolean (VBool b)
                                       then "SUCCESS" else "FAILURE")) ]
              ≫= JSON_stringify) as Hplain.
  { intros key. apply lookup_members_of_props_NoDup.
    apply (bool_decide_unpack _). by vm_compute. }
  assert (forall name,
            name ∈ ["sha"; "date"; "timestamp"; "message"; "author"; "avatar"] ->
            name = "sha" \/ name = "date" \/ name = "timestamp" \/
            name = "message" \/ name = "author" \/ name = "avatar") as Hnames.
  { intros name H. repeat (apply elem_of_cons in H as [H|H]; [tauto|]).
    by apply elem_of_nil in H. }
  destruct (first_tag _ _ _) as [tag|].
  - rewrite !Hreleased. split_and!; try reflexivity.
    intros name Hn. rewrite Hreleased.
    destruct (Hnames _ Hn) as [->|[->|[->|[->|[->| ->]]]]]; reflexivity.
  - rewrite !Hplain. split_and!; try reflexivity.
    intros name Hn. rewrite Hplain.
    destruct (Hnames _ Hn) as [->|[->|[->|[->|[->| ->]]]]]; reflexivity.
Qed.

(** ** Failures of the load *)

(** C1, as amended. When the ledger file is there and can be written but
    not read, [addBuild] does not fail: the error of the read is dropped,
    the build is added to an empty ledger and the file is overwritten
    with it. The ledger on disk then holds the record of the build under
    its id, [latest], [last_successful] when the build succeeded, and
    nothing else: what the file held is lost. *)
Theorem unreadable_ledger_is_restarted dirname job fs m data z b record :
  isValid job true = true ->
  member job "id" = VNum (Int z) ->
  Number_isSafeInteger (member job "id") = true ->
  member job "success" = VBool b ->
  build_record job = Ok record ->
  fs !! ledger_file dirname job = Some (File m data) ->
  can_stat m = true -> can_read m = false -> can_write m = true ->
  exists members new,
    addBuild dirname job fs
    = Run (Settled Fulfilled) None
        (<[ledger_file dirname job := File m (Json (JObj members))]> fs)
        [ExistsSync (ledger_file dirname job);
         ReadFile (ledger_file dirname job);
         WriteFile (ledger_file dirname job) (Json (JObj members))] /\
    lookup_prop (ToString (member job "id")) members = Some (JObj new) /\
    lookup_prop "id" new = Some (JInt z) /\
    lookup_prop "status" new
    = Some (JStr (if b then "SUCCESS" else "FAILURE")) /\
    lookup_prop "latest" members = Some (JInt z) /\
    lookup_prop "last_successful" members
    = (if b then Some (JInt z) else None) /\
    forall k, k <> ToString (member job "id") -> k <> "latest" ->
              k <> "last_successful" -> lookup_prop k members = None.
Proof.
  intros Hvalid Hid _ Hsuccess Hrecord Hfile Hstat Hread Hwrite.
  assert (starts_from fs (ledger_file dirname job) []) as Hstarts.
  { right. unfold existsSync, stat, readFile. rewrite Hfile. cbn [node_mode].
    rewrite Hstat, Hread. split_and!; eauto. }
  destruct (update_ok job z b record [] Hid Hsuccess Hrecord)
    as [builds' Hupd]; [done|].
  destruct (update_inserted _ _ _ _ _ Hid Hsuccess Hupd)
    as (_ & props' & _ & -> & _).
  assert (addBuild dirname job fs
          = Run (Settled Fulfilled) None
              (<[ledger_file dirname job
                 := File m (Json (JObj (members_of_props props')))]> fs)
              [ExistsSync (ledger_file dirname job);
               ReadFile (ledger_file dirname job);
               WriteFile (ledger_file dirname job)
                 (Json (JObj (members_of_props props')))]) as Hrun.
  { unfold addBuild. rewrite Hvalid. cbn [negb].
    unfold existsSync, stat, readFile. rewrite Hfile. cbn [node_mode].
    rewrite Hstat, Hread. unfold append. rewrite Hupd, JSON_stringify_object.
    unfold writeFile. by rewrite Hfile, Hwrite. }
  assert (returned (addBuild dirname job fs) = Settled Fulfilled) as Hok
    by by rewrite Hrun.
  destruct (addBuild_entries _ _ _ _ Hstarts Hok)
    as (z' & b' & fields & Hz' & Hb' & Hfields & Hentry).
  assert (z' = z) as -> by congruence. assert (b' = b) as -> by congruence.
  assert (forall k,
            lookup_prop k (members_of_props props')
            = entry_after (member job "tags") z b fields [] k) as Hlookup.
  { intros k. rewrite <- Hentry. unfold entry, ledger. rewrite Hrun.
    cbn [disk]. by rewrite lookup_insert_eq. }
  destruct (recorded_fields job z b fields Hid Hsuccess Hfields)
    as (Hnew_id & Hnew_status & _).
  exists (members_of_props props'), (recorded (member job "tags") fields).
  rewrite Hid. cbn [ToString Number_toString].
  split; [done|]. rewrite !Hlookup. unfold entry_after. split_and!.
  - rewrite decide_False by apply Int_toString_not_latest.
    rewrite decide_False
      by (intros [H _]; by apply Int_toString_not_last_successful in H).
    by rewrite decide_True.
  - done.
  - done.
  - by rewrite decide_True.
  - rewrite decide_False by done. destruct b.
    + by rewrite decide_True.
    + rewrite decide_False by (by intros [_ ?]).
      rewrite decide_False; [done|].
      intros H. symmetry in H. by apply Int_toString_not_last_successful in H.
  - intros k Hk Hlatest Hlast. rewrite Hlookup. unfold entry_after.
    rewrite decide_False by done.
    rewrite decide_False by (by intros [? _]).
    by rewrite decide_False.
Qed.

Lemma build_record_without_commit props :
  lookup_prop "commit" props = None ->
  build_record (VObj Plain props) = Throw TypeError.
Proof. intros H. unfold build_record. simpl. by rewrite H. Qed.

(** C9. A plain record with textual [author], [repo] and [branch], an
    integer [id] and a boolean [success] but no [commit] passes the
    validation of [addBuild], and the record of the build cannot be made
    of it: reading [job.commit.sha] throws a TypeError. [addBuild] then
    never succeeds, never answers "Invalid Job" and writes nothing; it is
    rejected with the TypeError when there is no ledger file, and when
    there is one (that is not malformed) the TypeError is thrown in the
    callback of the read. *)
Theorem missing_commit_passes_validation dirname props fs z b :
  is_text (member (VObj Plain props) "author") = true ->
  is_text (member (VObj Plain props) "repo") = true ->
  is_text (member (VObj Plain props) "branch") = true ->
  lookup_prop "id" props = Some (VNum (Int z)) ->
  lookup_prop "success" props = Some (VBool b) ->
  lookup_prop "commit" props = None ->
  isValid (VObj Plain props) true = true /\
  build_record (VObj Plain props) = Throw TypeError /\
  returned (addBuild dirname (VObj Plain props) fs) <> Settled Fulfilled /\
  returned (addBuild dirname (VObj Plain props) fs)
    <> Settled (Rejected (Reason "Invalid Job")) /\
  disk (addBuild dirname (VObj Plain props) fs) = fs /\
  (existsSync fs (ledger_file dirname (VObj Plain props)) = false ->
   returned (addBuild dirname (VObj Plain props) fs)
   = Settled (Rejected TypeError)) /\
  (existsSync fs (ledger_file dirname (VObj Plain props)) = true ->
   (forall text, readFile fs (ledger_file dirname (VObj Plain props))
                 <> Ok (Malformed text)) ->
   returned (addBuild dirname (VObj Plain props) fs) = Pending /\
   unhandled (addBuild dirname (VObj Plain props) fs) = Some TypeError).
Proof.
  intros Ha Hr Hb Hid Hsuccess Hcommit.
  assert (isValid (VObj Plain props) true = true) as Hvalid.
  { apply isValid_checks. unfold applicable_checks. simpl.
    rewrite Hid, Hsuccess. split_and!; eauto. }
  pose proof (build_record_without_commit _ Hcommit) as Hrecord.
  assert (forall file builds cb log,
            append (VObj Plain props) file builds cb fs log
            = if cb then Run Pending (Some TypeError) fs log
              else Run (Settled (Rejected TypeError)) None fs log) as Happend.
  { intros. unfold append, update. by rewrite Hrecord. }
  split; [done|]. split; [done|]. unfold addBuild. rewrite Hvalid. cbn [negb].
  destruct (existsSync fs _) eqn:Hexists.
  - destruct (readFile fs _) as [[j|text]|e] eqn:Hread;
      cbn [JSON_parse]; rewrite ?Happend; split_and!; try done.
    intros _ Hmalformed. by destruct (Hmalformed text).
  - rewrite Happend. split_and!; done.
Qed.

(** ** Invalid jobs *)

Lemma step_idle fs p children pos : step fs (Task p Idle children) pos = None.
Proof. by destruct pos. Qed.

Lemma run_schedule_idle fs p children schedule :
  run_schedule fs (Task p Idle children) schedule
  = (fs, Task p Idle children, []).
Proof.
  induction schedule as [|pos schedule IH]; [done|].
  cbn [run_schedule]. by rewrite step_idle.
Qed.

(** C6. A job that fails the validation is answered with "Invalid Job"
    before anything else happens: [addBuild] makes no call of [fs] and
    leaves the disk as it is; [clearWorkspace] makes no call of [fs], and
    the promise it returns is rejected at once with no callback pending,
    so that no later callback touches the disk either. *)
Theorem invalid_job_is_rejected_untouched dirname job fs :
  (isValid job true = false ->
   addBuild dirname job fs
   = Run (Settled (Rejected (Reason "Invalid Job"))) None fs []) /\
  (isValid job false = false ->
   clearWorkspace dirname job fs
   = (Task (Settled (Rejected (Reason "Invalid Job!"))) Idle [], []) /\
   forall schedule,
     run_schedule fs (clearWorkspace dirname job fs).1 schedule
     = (fs, Task (Settled (Rejected (Reason "Invalid Job!"))) Idle [], [])).
Proof.
  split; intros Hinvalid.
  - unfold addBuild. by rewrite Hinvalid.
  - unfold clearWorkspace. rewrite Hinvalid. split; [done|].
    intros schedule. apply run_schedule_idle.
Qed.

(** ** The workspace *)

Lemma append_nil_r s : s ++ "" = s.
Proof.
  induction s as [|c s IH]; [done|].
  change (String c s ++ "") with (String c (s ++ "")). by rewrite IH.
Qed.

Lemma append_assoc s t u : (s ++ t) ++ u = s ++ (t ++ u).
Proof.
  induction s as [|c s IH]; [done|].
  change (String c (s ++ t) ++ u = String c (s ++ (t ++ u))).
  change (String c ((s ++ t) ++ u) = String c (s ++ (t ++ u))).
  by rewrite IH.
Qed.

Lemma split_slash_segment s : forall segment rest,
  no_slash s = true ->
  split_slash (s ++ String "/" rest) segment
  = (segment ++ s) :: split_slash rest "".
Proof.
  induction s as [|c s IH]; intros segment rest Hs.
  - change ("" ++ String "/" rest) with (String "/" rest).
    by rewrite append_nil_r.
  - change (String c s ++ String "/" rest)
      with (String c (s ++ String "/" rest)).
    cbn [split_slash no_slash] in *.
    destruct (Ascii.eqb c "/"); [done|]. rewrite IH by done.
    by rewrite append_assoc.
Qed.

Lemma split_slash_last s : forall segment,
  no_slash s = true -> split_slash s segment = [segment ++ s].
Proof.
  induction s as [|c s IH]; intros segment Hs; cbn [split_slash no_slash] in *.
  - by rewrite append_nil_r.
  - destruct (Ascii.eqb c "/"); [done|]. rewrite IH by done.
    by rewrite append_assoc.
Qed.

Lemma step_proper_segment p s :
  proper_segment s = true -> step_segment p s = (p ++ [s])%list.
Proof.
  unfold proper_segment, step_segment.
  destruct (String.eqb s ""), (String.eqb s "."), (String.eqb s "..");
    rewrite ?andb_false_r; done.
Qed.

Lemma proper_segment_no_slash s : proper_segment s = true -> no_slash s = true.
Proof. unfold proper_segment. by intros [[[? _]%andb_prop _]%andb_prop _]%andb_prop. Qed.

(** The directory the code names, for key fields that are segments. *)
Lemma path_resolve_segments dirname a r b leaf :
  proper_segment a = true -> proper_segment r = true ->
  proper_segment b = true -> proper_segment leaf = true ->
  path_resolve dirname ("../" ++ a ++ "/" ++ r ++ "/" ++ b ++ "/" ++ leaf)
  = (removelast dirname ++ [a; r; b; leaf])%list.
Proof.
  intros Ha Hr Hb Hl. unfold path_resolve.
  change ("../" ++ a ++ "/" ++ r ++ "/" ++ b ++ "/" ++ leaf)
    with (String "." (String "." (String "/"
            (a ++ String "/" (r ++ String "/" (b ++ String "/" leaf)))))).
  cbn [split_slash Ascii.eqb Bool.eqb append].
  rewrite !split_slash_segment, split_slash_last
    by by apply proper_segment_no_slash.
  cbn [fold_left append]. rewrite !step_proper_segment by done.
  change (step_segment dirname "..") with (removelast dirname).
  by rewrite <- !app_assoc.
Qed.

(** C8. For a job that passes the validation without [id] and
    [success], [clearWorkspace] looks at the directory
    [author/repo/branch/files] beside the directory of the module. When
    it is not there the promise is fulfilled at once, with no callback
    pending and nothing done to the disk; when it is there the promise is
    the one of [clearFolder] on that very path. *)
Theorem clearWorkspace_delegates dirname job fs :
  isValid job false = true ->
  (proper_segment (ToString (member job "author")) = true ->
   proper_segment (ToString (member job "repo")) = true ->
   proper_segment (ToString (member job "branch")) = true ->
   workspace dirname job
   = (removelast dirname
        ++ [ToString (member job "author"); ToString (member job "repo");
            ToString (member job "branch"); "files"])%list) /\
  (existsSync fs (workspace dirname job) = false ->
   clearWorkspace dirname job fs
   = (Task (Settled Fulfilled) Idle [], [ExistsSync (workspace dirname job)]) /\
   forall schedule,
     run_schedule fs (clearWorkspace dirname job fs).1 schedule
     = (fs, Task (Settled Fulfilled) Idle [], [])) /\
  (existsSync fs (workspace dirname job) = true ->
   (clearWorkspace dirname job fs).1 = clearFolder (workspace dirname job)).
Proof.
  intros Hvalid. split_and!.
  - intros Ha Hr Hb. by apply path_resolve_segments.
  - intros Hexists. unfold clearWorkspace. rewrite Hvalid, Hexists.
    split; [done|]. intros schedule. apply run_schedule_idle.
  - intros Hexists. unfold clearWorkspace. by rewrite Hvalid, Hexists.
Qed.

(** ** The barrier of [clearFolder] *)


Lemma at_index_Some {A X} (f : A -> option (X * A)) l i x l' :
  at_index f l i = Some (x, l') ->
  exists a a', l !! i = Some a /\ f a = Some (x, a') /\ l' = <[i:=a']> l.
Proof.
  revert i l'. induction l as [|a l IH]; intros [|i] l'; simpl; try done.
  - destruct (f a) as [[x' a']|] eqn:Hf; [|done]. intros [= -> <-]. eauto.
  - destruct (at_index f l i) as [[x' l'']|] eqn:Hat; [|done].
    intros [= -> <-]. destruct (IH _ _ Hat) as (b & b' & ? & ? & ->). eauto.
Qed.

Lemma elem_of_map_under i cevs pos ev :
  (pos, ev) ∈ map (under i) cevs <->
  exists pos', pos = i :: pos' /\ (pos', ev) ∈ cevs.
Proof.
  rewrite list_elem_of_In, in_map_iff. split.
  - intros ([pos0 ev0] & [= <- <-] & Hin). exists pos0.
    by rewrite list_elem_of_In.
  - intros (pos' & -> & Hin). exists (pos', ev). by rewrite <- list_elem_of_In.
Qed.

Lemma check_events file len idx ph evs :
  check file len idx = (ph, evs) ->
  (len = idx /\ ph = Rmdir_pending file /\ evs = [([], Call (Rmdir file))]) \/
  (len <> idx /\ ph = Waiting file len idx /\ evs = []).
Proof.
  unfold check. destruct (Nat.eqb_spec len idx); intros [= <- <-]; auto.
Qed.

(** What a callback tells the task above: the promise of the task
    settles in it exactly when it sends the signal. *)
Lemma step_signal fs t pos fs' t' evs sig :
  step fs t pos = Some (fs', t', evs, sig) ->
  promise_of t' = match sig with Some s => Settled s | None => promise_of t end /\
  (is_Some sig -> promise_of t = Pending) /\
  (forall s, ([], Settle s) ∈ evs <-> sig = Some s).
Proof.
  assert (forall p s p' evs' sig',
            settle p s = (p', evs', sig') ->
            p' = match sig' with Some s => Settled s | None => p end /\
            (is_Some sig' -> p = Pending) /\
            (forall s0, ([], Settle s0) ∈ evs' <-> sig' = Some s0)) as Hsettle.
  { intros p s p' evs' sig'. destruct p as [|s1]; intros [= <- <- <-].
    - split_and!; [done..|]. intros s0. rewrite list_elem_of_singleton.
      split; congruence.
    - split_and!; [done|by intros [? ?]|]. intros s0.
      split; [by intros ?%elem_of_nil|done]. }
  destruct t as [p ph cs]. destruct pos as [|i pos].
  - destruct ph as [file|file|file|file len idx|file|]; simpl; try done.
    + destruct (stat fs file) as [stats|e].
      * destruct (isFile stats); [|destruct (isDirectory stats)];
          intros [= <- <- <- <-]; simpl; split_and!; try done;
          try (by intros [? ?]); intros s;
          rewrite ?list_elem_of_singleton; split; try done;
          by intros ?%elem_of_nil.
      * destruct (settle p (Rejected e)) as [[p' evs'] sig'] eqn:Hs.
        intros [= <- <- <- <-]. by apply (Hsettle _ _ _ _ _ Hs).
    + destruct (unlink fs file) as [fs1|e];
        destruct (settle p _) as [[p' evs'] sig'] eqn:Hs;
        intros [= <- <- <- <-]; by apply (Hsettle _ _ _ _ _ Hs).
    + destruct (readdir fs file) as [names|e].
      * destruct (check file (length names) 0) as [ph' evs'] eqn:Hcheck.
        apply check_events in Hcheck as [(_ & -> & ->)|(_ & -> & ->)];
          intros [= <- <- <- <-]; simpl; split_and!; try done;
          try (by intros [? ?]); intros s; split; try done.
        -- by intros [=]%list_elem_of_singleton.
        -- by intros (j & name & [=] & _)%elem_of_lookup_imap.
      * destruct (settle p (Rejected e)) as [[p' evs'] sig'] eqn:Hs.
        intros [= <- <- <- <-]. by apply (Hsettle _ _ _ _ _ Hs).
    + destruct (rmdir fs file) as [fs1|e];
        destruct (settle p _) as [[p' evs'] sig'] eqn:Hs;
        intros [= <- <- <- <-]; by apply (Hsettle _ _ _ _ _ Hs).
  - destruct ph as [file|file|file|file len idx|file|]; simpl; try done.
    destruct (at_index _ cs i) as [[[[fs1 cevs] csig] cs']|]; [|done].
    assert (forall s, ([], Settle s) ∉ map (under i) cevs) as Hlift.
    { intros s (pos' & [=] & _)%elem_of_map_under. }
    destruct csig as [[|e]|].
    + destruct (check file len (S idx)) as [ph' evs'] eqn:Hcheck.
      apply check_events in Hcheck as [(_ & -> & ->)|(_ & -> & ->)];
        intros [= <- <- <- <-]; simpl; split_and!; try done;
        try (by intros [? ?]); intros s; rewrite elem_of_app;
        (split; [|done]); intros [H|H]; try (by apply Hlift in H).
      * by apply list_elem_of_singleton in H.
      * by apply elem_of_nil in H.
    + destruct (settle p (Rejected e)) as [[p' evs'] sig'] eqn:Hs.
      intros [= <- <- <- <-]. simpl.
      destruct (Hsettle _ _ _ _ _ Hs) as (H1 & H2 & H3).
      split_and!; try done. intros s. rewrite elem_of_app, <- H3.
      split; [intros [H|H]; [by apply Hlift in H|done]|auto].
    + intros [= <- <- <- <-]. simpl. split_and!; [done|by intros [? ?]|].
      intros s. split; [|done]. intros H. by apply Hlift in H.
Qed.

Lemma fulfilled_insert cs i c c' :
  cs !! i = Some c ->
  fulfilled (<[i:=c']> cs)
  + (if decide (promise_of c = Settled Fulfilled) then 1 else 0)
  = fulfilled cs
    + (if decide (promise_of c' = Settled Fulfilled) then 1 else 0).
Proof.
  unfold fulfilled. revert i.
  induction cs as [|c0 cs IH]; intros [|i] Hi; simpl in *; try done.
  - injection Hi as ->. rewrite !filter_cons.
    destruct (decide (promise_of c = _)), (decide (promise_of c' = _));
      simpl; lia.
  - rewrite !filter_cons. specialize (IH _ Hi).
    destruct (decide (promise_of c0 = _)); simpl; lia.
Qed.

Lemma fulfilled_all cs i c :
  fulfilled cs = length cs -> cs !! i = Some c ->
  promise_of c = Settled Fulfilled.
Proof.
  unfold fulfilled. revert i.
  induction cs as [|c0 cs IH]; intros i Hlen Hi; [done|].
  rewrite filter_cons in Hlen.
  pose proof (length_filter (fun c => promise_of c = Settled Fulfilled) cs).
  destruct (decide (promise_of c0 = _)) as [Hc0|Hc0]; simpl in Hlen; [|lia].
  destruct i as [|i]; simpl in Hi; [congruence|]. eapply IH; [lia|done].
Qed.

Lemma fulfilled_clearFolder (paths : list path) :
  fulfilled (map clearFolder paths) = 0.
Proof. unfold fulfilled. by induction paths. Qed.










Section BarrierProofs.

Variable fs0 : gmap path node.
Variable dir : path.
Variable files : list string.
Variable stats : node.
Hypothesis Hstat : stat fs0 dir = Ok stats.
Hypothesis Hdir : isDirectory stats = true.
Hypothesis Hread : readdir fs0 dir = Ok files.
Hypothesis Hfiles : files <> [].





End BarrierProofs.


(** ** The properties at the example project *)

Lemma triple_eq {A B C} (x : A * B * C) b c :
  snd (fst x) = b -> snd x = c -> x = (fst (fst x), b, c).
Proof. destruct x as [[a b'] c']. simpl. by intros -> ->. Qed.

Section Witnesses.

Import Example.

(** C1 fails at the write-only ledger: the ledger is there and cannot be
    read, and [addBuild] of build 2 succeeds, with build 1 gone from the
    file. *)
Lemma unreadable_ledger_is_not_reported :
  isValid second true = true /\
  existsSync locked (ledger_file dirname second) = true /\
  readFile locked (ledger_file dirname second) = Throw EACCES /\
  entry locked (ledger_file dirname second) "1"
  = Some (JObj [ ("id", JInt 1); ("sha", JStr "000");
                 ("candidate", JStr "DEVELOPMENT");
                 ("status", JStr "SUCCESS") ]) /\
  returned (addBuild dirname second locked) = Settled Fulfilled /\
  unhandled (addBuild dirname second locked) = None /\
  entry (disk (addBuild dirname second locked)) (ledger_file dirname second)
        "1" = None /\
  entry (disk (addBuild dirname second locked)) (ledger_file dirname second)
        "latest" = Some (JInt 2).
Proof. vm_compute. by split_and!. Qed.

(** C1 as amended, at the write-only ledger. *)
Lemma unreadable_ledger_is_restarted_witness :
  exists members new,
    addBuild dirname second locked
    = Run (Settled Fulfilled) None
        (<[ledger_file dirname second
           := File write_only (Json (JObj members))]> locked)
        [ExistsSync (ledger_file dirname second);
         ReadFile (ledger_file dirname second);
         WriteFile (ledger_file dirname second) (Json (JObj members))] /\
    lookup_prop (ToString (member second "id")) members = Some (JObj new) /\
    lookup_prop "id" new = Some (JInt 2) /\
    lookup_prop "status" new = Some (JStr "SUCCESS") /\
    lookup_prop "latest" members = Some (JInt 2) /\
    lookup_prop "last_successful" members = Some (JInt 2) /\
    forall k, k <> ToString (member second "id") -> k <> "latest" ->
              k <> "last_successful" -> lookup_prop k members = None.
Proof.
  eapply (unreadable_ledger_is_restarted dirname second locked write_only
            _ 2 true);
    vm_compute; reflexivity.
Defined.


(** C5 at the example of the specification: build 2 succeeds, build 3
    fails. *)
Lemma latest_and_last_successful_witness :
  entry (disk (addBuild dirname third (disk (addBuild dirname second bare))))
        builds_json "latest" = Some (JInt 3) /\
  entry (disk (addBuild dirname third (disk (addBuild dirname second bare))))
        builds_json "last_successful" = Some (JInt 2).
Proof.
  destruct (latest_and_last_successful dirname third
              (disk (addBuild dirname second bare)) second_ledger)
    as (z & Hz & Hlatest & _ & Hlast).
  - left. right. split; vm_compute; reflexivity.
  - vm_compute. reflexivity.
  - assert (z = 3%Z) as -> by (vm_compute in Hz; congruence).
    split; [exact Hlatest|]. apply Hlast; [reflexivity|].
    intros record. vm_compute. discriminate.
Defined.

(** C4 fails at the write-only ledger: builds 2 and 3 are added one
    after the other, both calls succeed, and the record of build 2 is
    gone after the second, which could not read the ledger either. *)
Lemma unread_ledger_forgets_a_build :
  ledger_file dirname second = builds_json /\
  ledger_file dirname third = builds_json /\
  member second "id" = VNum (Int 2) /\
  member third "id" = VNum (Int 3) /\
  returned (addBuild dirname second locked) = Settled Fulfilled /\
  returned (addBuild dirname third (disk (addBuild dirname second locked)))
  = Settled Fulfilled /\
  entry (disk (addBuild dirname second locked)) builds_json "2"
  = Some (JObj second_record) /\
  entry (addBuilds dirname [second; third] locked) builds_json "2" = None /\
  entry (addBuilds dirname [second; third] locked) builds_json "latest"
  = Some (JInt 3).
Proof. vm_compute. by split_and!. Qed.

(** C4 as amended, at builds 2 and 3. *)
Lemma ledger_is_append_only_witness :
  exists record record',
    entry (disk (addBuild dirname second bare)) builds_json
          (ToString (member second "id"))
    = Some (JObj record) /\
    entry (addBuilds dirname [second; third] bare) builds_json
          (ToString (member second "id"))
    = Some (JObj record') /\
    same_but_candidate_and_tag record record'.
Proof.
  apply (ledger_is_append_only dirname builds_json second [third] bare 2).
  - cbn [completes]. split_and!.
    + vm_compute. reflexivity.
    + exists []. left. split; vm_compute; reflexivity.
    + vm_compute. reflexivity.
    + vm_compute. reflexivity.
    + exists second_ledger. right. split; vm_compute; reflexivity.
    + vm_compute. reflexivity.
    + exact I.
  - reflexivity.
  - reflexivity.
  - apply not_elem_of_cons. split; [discriminate|apply not_elem_of_nil].
Defined.

(** C6 at [null]. *)
Lemma invalid_job_is_rejected_untouched_witness :
  addBuild dirname VNull locked
  = Run (Settled (Rejected (Reason "Invalid Job"))) None locked [] /\
  clearWorkspace dirname VNull cluttered
  = (Task (Settled (Rejected (Reason "Invalid Job!"))) Idle [], []).
Proof.
  destruct (invalid_job_is_rejected_untouched dirname VNull locked)
    as [Hadd _].
  destruct (invalid_job_is_rejected_untouched dirname VNull cluttered)
    as [_ Hclear].
  split; [apply Hadd; reflexivity|apply Hclear; reflexivity].
Defined.

(** C8 at the example project, without and with working files. *)
Lemma clearWorkspace_delegates_witness :
  workspace dirname (job_without_commit 2 true) = files /\
  clearWorkspace dirname (job_without_commit 2 true) bare
  = (Task (Settled Fulfilled) Idle [], [ExistsSync files]) /\
  (clearWorkspace dirname (job_without_commit 2 true) cluttered).1
  = clearFolder files.
Proof.
  destruct (clearWorkspace_delegates dirname (job_without_commit 2 true) bare)
    as (Hpath & Habsent & _); [reflexivity|].
  destruct (clearWorkspace_delegates dirname (job_without_commit 2 true)
              cluttered) as (_ & _ & Hpresent); [reflexivity|].
  split_and!.
  - apply Hpath; reflexivity.
  - apply Habsent. vm_compute. reflexivity.
  - apply Hpresent. vm_compute. reflexivity.
Defined.

(** C9 at the example project, without a ledger and with the write-only
    one. *)
Lemma missing_commit_passes_validation_witness :
  isValid (job_without_commit 2 true) true = true /\
  returned (addBuild dirname (job_without_commit 2 true) bare)
  = Settled (Rejected TypeError) /\
  returned (addBuild dirname (job_without_commit 2 true) locked) = Pending /\
  unhandled (addBuild dirname (job_without_commit 2 true) locked)
  = Some TypeError.
Proof.
  destruct (missing_commit_passes_validation dirname
              [ ("author", VStr "owner"); ("repo", VStr "repo");
                ("branch", VStr "master");
                ("id", VNum (Int 2)); ("success", VBool true) ]
              bare 2 true)
    as (Hvalid & _ & _ & _ & _ & Habsent & _); try reflexivity.
  destruct (missing_commit_passes_validation dirname
              [ ("author", VStr "owner"); ("repo", VStr "repo");
                ("branch", VStr "master");
                ("id", VNum (Int 2)); ("success", VBool true) ]
              locked 2 true)
    as (_ & _ & _ & _ & _ & _ & Hpresent); try reflexivity.
  split; [exact Hvalid|]. split.
  - apply Habsent. vm_compute. reflexivity.
  - apply Hpresent; [vm_compute; reflexivity|].
    intros text. vm_compute. discriminate.
Defined.



End Witnesses.

Section Runs.

Import Example.

(** With every entry removable and every call completed, the tree is
    removed bottom-up and the directory is gone. *)
Lemma clearFolder_to_the_end :
  promise_of (snd (fst (run_schedule tidy (clearFolder files) to_the_end)))
  = Settled Fulfilled /\
  fst (fst (run_schedule tidy (clearFolder files) to_the_end)) !! files = None /\
  existsSync (fst (fst (run_schedule tidy (clearFolder files) to_the_end)))
    branch = true.
Proof. split_and!; vm_compute; reflexivity. Qed.

(** A ledger that is not well-formed JSON: the SyntaxError of
    [JSON.parse] is thrown in the callback of the read, the promise of
    [addBuild] never settles and the file is left as it is. *)
Lemma malformed_ledger_is_not_reported :
  returned (addBuild dirname second
              (<[builds_json := File rwx (Malformed "{")]> bare)) = Pending /\
  unhandled (addBuild dirname second
               (<[builds_json := File rwx (Malformed "{")]> bare))
  = Some SyntaxError /\
  calls (addBuild dirname second
           (<[builds_json := File rwx (Malformed "{")]> bare))
  = [ExistsSync builds_json; ReadFile builds_json].
Proof. split_and!; vm_compute; reflexivity. Qed.

End Runs.

(** ** More of the registry *)

Lemma writeFile_other fs p data fs' q :
  writeFile fs p data = Ok fs' -> q <> p -> fs' !! q = fs !! q.
Proof.
  unfold writeFile. intros H Hq.
  destruct (fs !! p) as [[m d|m|m]|]; try discriminate.
  - destruct (can_write m); [|discriminate]. injection H as <-.
    by rewrite lookup_insert_ne.
  - destruct (fs !! removelast p) as [[|m|]|]; try discriminate.
    destruct (can_write m); [|discriminate]. injection H as <-.
    by rewrite lookup_insert_ne.
Qed.

Lemma append_only_file job file builds cb fs log :
  (forall q, q <> file ->
     disk (append job file builds cb fs log) !! q = fs !! q) /\
  (Forall (fun c => path_of_call c = file) log ->
   Forall (fun c => path_of_call c = file)
     (calls (append job file builds cb fs log))).
Proof.
  unfold append. destruct (update job builds) as [builds'|e].
  - destruct (JSON_stringify builds') as [j|]; [|done].
    destruct (writeFile fs file (Json j)) as [fs'|e] eqn:Hw; simpl.
    + split; [intros q Hq; by eapply writeFile_other|].
      intros Hlog. apply Forall_app. split; [done|]. by constructor.
    + split; [done|]. intros Hlog. apply Forall_app. split; [done|].
      by constructor.
  - by destruct cb.
Qed.

(** X1. Whatever comes of it, a call of [addBuild] changes no entry of
    the disk but the ledger file of the job, and every call of [fs] it
    makes is for that file. *)
Theorem addBuild_touches_only_the_ledger dirname job fs :
  (forall q, q <> ledger_file dirname job ->
     disk (addBuild dirname job fs) !! q = fs !! q) /\
  Forall (fun c => path_of_call c = ledger_file dirname job)
    (calls (addBuild dirname job fs)).
Proof.
  unfold addBuild. destruct (isValid job true); cbn [negb]; [|by split].
  destruct (existsSync fs _).
  - destruct (readFile fs _) as [data|e].
    + destruct (JSON_parse data) as [builds|e]; [|by split; [|repeat constructor]].
      split; [apply append_only_file|]. apply append_only_file.
      by repeat constructor.
    + split; [apply append_only_file|]. apply append_only_file.
      by repeat constructor.
  - split; [apply append_only_file|]. apply append_only_file.
    by repeat constructor.
Qed.

(** X2. A call of [addBuild] that succeeds, for a job whose id is a safe
    integer, drops no key of the ledger it started from and invents
    none: under a key other than the id of the job, [latest] and, for a
    successful build, [last_successful], the ledger on disk holds what
    it held, a record being resolved by the tags of the job and anything
    else left as it is; a key that was not there is not there. Without
    tags every such entry is as it was. *)
Theorem addBuild_keeps_the_other_entries dirname job fs members k :
  starts_from fs (ledger_file dirname job) members ->
  returned (addBuild dirname job fs) = Settled Fulfilled ->
  Number_isSafeInteger (member job "id") = true ->
  k <> ToString (member job "id") -> k <> "latest" ->
  (member job "success" = VBool true -> k <> "last_successful") ->
  entry (disk (addBuild dirname job fs)) (ledger_file dirname job) k
  = resolved_entry (member job "tags") <$> lookup_prop k members /\
  (for_in_keys (member job "tags") = [] ->
   entry (disk (addBuild dirname job fs)) (ledger_file dirname job) k
   = lookup_prop k members).
Proof.
  intros Hstarts Hok _ Hid Hlatest Hlast.
  destruct (addBuild_entries _ _ _ _ Hstarts Hok)
    as (z & b & fields & Hz & Hb & _ & Hentry).
  rewrite Hentry. unfold entry_after. rewrite Hz in Hid. simpl in Hid.
  rewrite decide_False by done. rewrite decide_False.
  - rewrite decide_False by done. split; [done|]. intros Htags.
    destruct (lookup_prop k members) as [x|]; [|done]. simpl.
    by rewrite resolved_entry_no_tags.
  - intros [-> ->]. by apply Hlast.
Qed.

(** X3. After a call of [addBuild] that succeeds, having started from
    no ledger, from the ledger the file holds or, the read having failed,
    from an empty one, the ledger holds under the id of the job a record
    with that id, the status [SUCCESS] or [FAILURE] after [job.success],
    the fields of [job.commit] and the license, a field that is
    [undefined] being left out; whatever was under that id before is
    overwritten. The tags of the job are looked up for the sha of the new
    build too: the record is a [RELEASE] candidate with the first tag
    whose value is its sha, and a [DEVELOPMENT] candidate without [tag]
    when there is none. This is stated of a job whose id is a safe
    integer, whose sha is no object and whose commit and license are
    plain data. *)
Theorem addBuild_records_the_build dirname job fs members :
  starts_from fs (ledger_file dirname job) members ->
  returned (addBuild dirname job fs) = Settled Fulfilled ->
  Number_isSafeInteger (member job "id") = true ->
  is_primitive (member (member job "commit") "sha") = true ->
  plain_data (member job "commit") = true ->
  plain_data (member job "license") = true ->
  exists z b record,
    member job "id" = VNum (Int z) /\
    member job "success" = VBool b /\
    entry (disk (addBuild dirname job fs)) (ledger_file dirname job)
          (ToString (member job "id")) = Some (JObj record) /\
    lookup_prop "id" record = Some (JInt z) /\
    lookup_prop "status" record
    = Some (JStr (if b then "SUCCESS" else "FAILURE")) /\
    (forall name,
       name ∈ ["sha"; "date"; "timestamp"; "message"; "author"; "avatar"] ->
       lookup_prop name record
       = JSON_stringify (member (member job "commit") name)) /\
    lookup_prop "license" record = JSON_stringify (member job "license") /\
    lookup_prop "candidate" record
    = Some (JStr match first_tag (member job "tags")
                         (for_in_keys (member job "tags"))
                         (member (member job "commit") "sha") with
                 | Some _ => "RELEASE"
                 | None => "DEVELOPMENT"
                 end) /\
    lookup_prop "tag" record
    = JStr <$> first_tag (member job "tags") (for_in_keys (member job "tags"))
                 (member (member job "commit") "sha").
Proof.
  intros Hstarts Hok _ _ _ _.
  destruct (addBuild_entries _ _ _ _ Hstarts Hok)
    as (z & b & fields & Hz & Hb & Hnew & Hentry).
  exists z, b, (recorded (member job "tags") fields).
  split; [done|]. split; [done|]. split.
  { rewrite Hentry, Hz. cbn [ToString Number_toString]. unfold entry_after.
    rewrite decide_False by apply Int_toString_not_latest.
    rewrite decide_False
      by (intros [H _]; by apply Int_toString_not_last_successful in H).
    by rewrite decide_True. }
  by apply recorded_fields.
Qed.

Lemma member_sha_release record (v w : json) :
  member (value_of_json (JObj (release v w record))) "sha"
  = member (value_of_json (JObj record)) "sha".
Proof.
  rewrite !value_of_json_object. cbn [member].
  rewrite !lookup_props_of_members. unfold release.
  by rewrite !lookup_put_prop_ne.
Qed.

Lemma resolved_idempotent tags record :
  resolved tags (resolved tags record) = resolved tags record.
Proof.
  unfold resolved at 2 3.
  destruct (first_tag _ _ _) as [tag|] eqn:Htag.
  - unfold resolved. by rewrite member_sha_release, Htag, release_release.
  - unfold resolved. by rewrite Htag.
Qed.

Lemma resolved_entry_idempotent tags x :
  resolved_entry tags (resolved_entry tags x) = resolved_entry tags x.
Proof. destruct x; try done. simpl. by rewrite resolved_idempotent. Qed.

Lemma writeFile_Ok fs p data fs' :
  writeFile fs p data = Ok fs' ->
  exists m, fs' = <[p := File m data]> fs /\ can_write m = true /\
            ((exists old, fs !! p = Some (File m old)) \/
             (fs !! p = None /\ m = rwx)).
Proof.
  unfold writeFile. intros H.
  destruct (fs !! p) as [[m d|m|m]|]; try discriminate.
  - destruct (can_write m) eqn:Hw; [|discriminate]. injection H as <-.
    exists m. split_and!; [done..|]. left. eauto.
  - destruct (fs !! removelast p) as [[|m|]|]; try discriminate.
    destruct (can_write m); [|discriminate]. injection H as <-.
    exists rwx. split_and!; [done..|]. by right.
Qed.

Lemma writeFile_again fs p m old data :
  fs !! p = Some (File m old) -> can_write m = true ->
  writeFile fs p data = Ok (<[p := File m data]> fs).
Proof. intros Hp Hw. unfold writeFile. by rewrite Hp, Hw. Qed.

Lemma update_goes_through job z b record props :
  member job "id" = VNum (Int z) ->
  member job "success" = VBool b ->
  build_record job = Ok record ->
  (forall k e, lookup_prop k props = Some e ->
     exists e', resolve (member job "tags")
                  (for_in_keys (member job "tags")) e = Ok e') ->
  exists props', update job (VObj Plain props) = Ok (VObj Plain props').
Proof.
  intros Hid Hsuccess Hrecord Hprops.
  destruct (build_record_object _ _ Hrecord) as [rp ->].
  assert (exists builds',
            apply_tags (member job "tags")
              (map fst (inserted z b (VObj Plain rp) props))
              (VObj Plain (inserted z b (VObj Plain rp) props)) = Ok builds')
    as [builds' Hbuilds'].
  { apply apply_tags_ok. intros k [e He]%lookup_prop_keys. exists e.
    assert (exists e', resolve (member job "tags")
                         (for_in_keys (member job "tags")) e = Ok e')
      as [e' He']; [|by exists e'].
    revert He. unfold inserted. rewrite lookup_put_prop.
    destruct (decide _); [intros [= <-]; by apply resolve_ok|].
    destruct b; simpl; rewrite ?lookup_put_prop;
      repeat (destruct (decide _); [intros [= <-]; by apply resolve_ok|]);
      apply Hprops. }
  assert (update job (VObj Plain props) = Ok builds') as Hupd.
  { rewrite <- Hbuilds'. unfold update.
    rewrite Hid, Hsuccess, Hrecord. by destruct b. }
  destruct (update_inserted _ _ _ _ _ Hid Hsuccess Hupd)
    as (_ & props' & _ & -> & _). eauto.
Qed.

Lemma append_goes_through job file props props' cb fs log :
  update job (VObj Plain props) = Ok (VObj Plain props') ->
  (forall data, exists fs', writeFile fs file data = Ok fs') ->
  returned (append job file (VObj Plain props) cb fs log) = Settled Fulfilled.
Proof.
  intros Hupd Hwrite. unfold append. rewrite Hupd, JSON_stringify_object.
  by destruct (Hwrite (Json (JObj (members_of_props props')))) as [fs' ->].
Qed.

Lemma addBuild_file dirname job fs members :
  starts_from fs (ledger_file dirname job) members ->
  returned (addBuild dirname job fs) = Settled Fulfilled ->
  exists m j,
    disk (addBuild dirname job fs)
    = <[ledger_file dirname job := File m (Json j)]> fs /\
    can_write m = true /\
    ((exists old, fs !! ledger_file dirname job = Some (File m old)) \/
     (fs !! ledger_file dirname job = None /\ m = rwx)).
Proof.
  intros Hstarts Hok.
  pose proof (isValid_of_fulfilled _ _ _ Hok) as Hvalid.
  destruct (addBuild_starts _ _ _ _ Hvalid Hstarts) as (cb & log & Heq).
  rewrite Heq in Hok |- *.
  apply append_fulfilled in Hok as (builds' & j & fs' & _ & _ & Hwf & ->).
  apply writeFile_Ok in Hwf as (m & -> & Hw & Hm). by exists m, j.
Qed.

(** X4. A call of [addBuild] that has succeeded can be repeated: the
    same call on the disk it left succeeds too, and leaves every entry of
    the ledger as the first call left it. *)
Theorem addBuild_can_be_repeated dirname job fs members :
  starts_from fs (ledger_file dirname job) members ->
  returned (addBuild dirname job fs) = Settled Fulfilled ->
  returned (addBuild dirname job (disk (addBuild dirname job fs)))
  = Settled Fulfilled /\
  forall k,
    entry (disk (addBuild dirname job (disk (addBuild dirname job fs))))
          (ledger_file dirname job) k
    = entry (disk (addBuild dirname job fs)) (ledger_file dirname job) k.
Proof.
  intros Hstarts Hok.
  pose proof (isValid_of_fulfilled _ _ _ Hok) as Hvalid.
  destruct (addBuild_fulfilled _ _ _ _ Hstarts Hok)
    as (z & b & new & props' & Hz & Hb & Hnew & Hledger & Hin & Hout).
  destruct (addBuild_entries _ _ _ _ Hstarts Hok)
    as (z1 & b1 & fields & Hz1 & Hb1 & Hfields & Hentry).
  assert (z1 = z) as -> by congruence. assert (b1 = b) as -> by congruence.
  assert (new = VObj Plain fields) as -> by congruence.
  destruct (addBuild_file _ _ _ _ Hstarts Hok) as (m & j & Hdisk & Hw & Hm).
  set (file := ledger_file dirname job) in *.
  set (fs1 := disk (addBuild dirname job fs)) in *.
  assert (fs1 !! file = Some (File m (Json (JObj (members_of_props props')))))
    as Hfile.
  { unfold ledger in Hledger. rewrite Hdisk in Hledger |- *.
    rewrite lookup_insert_eq in Hledger |- *.
    destruct j as [| | | | |l]; try discriminate. congruence. }
  assert (forall data, exists fs', writeFile fs1 file data = Ok fs') as Hwrite.
  { intros data. eexists. by eapply writeFile_again. }
  assert (exists members1,
            starts_from fs1 file members1 /\
            (forall k, resolved_entry (member job "tags") <$> lookup_prop k members1
                       = resolved_entry (member job "tags") <$> lookup_prop k members
                       \/ k = "latest" \/ (k = "last_successful" /\ b = true) \/ k = Int_toString z) /\
            (forall k e, lookup_prop k (props_of_members members1) = Some e ->
               exists e', resolve (member job "tags")
                  (for_in_keys (member job "tags")) e = Ok e'))
    as (members1 & Hstarts1 & Hsame & Hres1).
  { assert (can_stat m = true -> can_read m = true ->
            loads fs1 file (members_of_props props')) as Hloads1.
    { intros Hs Hr. right. unfold existsSync, stat, readFile.
      rewrite Hfile. cbn [node_mode]. by rewrite Hs, Hr. }
    assert (forall k,
              lookup_prop k (members_of_props props')
              = entry_after (member job "tags") z b fields members k)
      as Hlookup.
    { intros k. rewrite <- Hentry. unfold entry. by rewrite Hledger. }
    assert (can_stat m = true -> can_read m = true ->
            exists members1,
              starts_from fs1 file members1 /\
              (forall k,
                 resolved_entry (member job "tags") <$> lookup_prop k members1
                 = resolved_entry (member job "tags") <$> lookup_prop k members
                 \/ k = "latest" \/ (k = "last_successful" /\ b = true)
                 \/ k = Int_toString z) /\
              (forall k e,
                 lookup_prop k (props_of_members members1) = Some e ->
                 exists e', resolve (member job "tags")
                              (for_in_keys (member job "tags")) e = Ok e'))
      as Hreadable.
    { intros Hs Hr. exists (members_of_props props'). split_and!.
      - left. by apply Hloads1.
      - intros k. rewrite Hlookup. unfold entry_after.
        destruct (decide (k = "latest")); [auto|].
        destruct (decide (k = "last_successful" /\ b = true)); [auto|].
        destruct (decide (k = Int_toString z)); [auto|]. left.
        destruct (lookup_prop k members); [|done]. simpl.
        by rewrite resolved_entry_idempotent.
      - intros k e. rewrite lookup_props_of_members, Hlookup.
        unfold entry_after.
        destruct (decide (k = "latest")); [intros [= <-]; by apply resolve_ok|].
        destruct (decide (k = "last_successful" /\ b = true));
          [intros [= <-]; by apply resolve_ok|].
        destruct (decide (k = Int_toString z));
          [intros [= <-]; by apply resolve_ok|].
        destruct (lookup_prop k members) as [x|] eqn:Hx; [|done].
        intros [= <-].
        destruct (Hin k (value_of_json x)) as (e' & He' & _).
        { rewrite lookup_inserted_kept, lookup_props_of_members by done.
          by rewrite Hx. }
        destruct x; try (by apply resolve_ok). simpl. eauto. }
    destruct Hstarts
      as [[[Hnone ->]|[Hexists Hread]]|(Hexists & [e Hread] & ->)].
    - destruct Hm as [[old Hold]|[_ ->]]; [fold file in Hnone; congruence|].
      by apply Hreadable.
    - destruct Hm as [[old Hold]|[Hnone _]].
      + unfold existsSync, stat, readFile in Hexists, Hread.
        fold file in Hexists, Hread. rewrite Hold in Hexists, Hread.
        cbn [node_mode] in Hexists.
        apply Hreadable; [by destruct (can_stat m)|by destruct (can_read m)].
      + unfold readFile in Hread. fold file in Hread.
        by rewrite Hnone in Hread.
    - destruct Hm as [[old Hold]|[Hnone _]].
      + unfold existsSync, stat, readFile in Hexists, Hread.
        fold file in Hexists, Hread. rewrite Hold in Hexists, Hread.
        cbn [node_mode] in Hexists.
        exists []. split_and!; [|by left|done].
        right. unfold existsSync, stat, readFile. rewrite Hfile.
        cbn [node_mode]. destruct (can_stat m); [|done].
        destruct (can_read m); [done|]. split_and!; eauto.
      + unfold existsSync, stat in Hexists. fold file in Hexists.
        by rewrite Hnone in Hexists. }
  assert (returned (addBuild dirname job fs1) = Settled Fulfilled) as Hok1.
  { destruct (addBuild_starts _ _ _ _ Hvalid Hstarts1) as (cb & log & ->).
    rewrite value_of_json_object.
    destruct (update_goes_through job z b _ (props_of_members members1)
                Hz Hb Hnew Hres1) as [props2 Hupd].
    by eapply append_goes_through. }
  split; [done|]. intros k.
  destruct (addBuild_entries _ _ _ _ Hstarts1 Hok1)
    as (z1 & b1 & fields1 & Hz1' & Hb1' & Hfields1 & Hentry1).
  assert (z1 = z) as -> by congruence. assert (b1 = b) as -> by congruence.
  assert (fields1 = fields) as -> by congruence.
  rewrite Hentry1, Hentry. unfold entry_after.
  destruct (decide (k = "latest")); [done|].
  destruct (decide (k = "last_successful" /\ b = true)); [done|].
  destruct (decide (k = Int_toString z)); [done|].
  by destruct (Hsame k) as [?|[?|[?|?]]].
Qed.

(** X5. When the update goes through and the ledger file, which is a
    file, a directory or not there, cannot be written, [addBuild] is
    rejected with the error of the write and no exception escapes: the
    error reaches the caller whether the update ran in the executor of
    the promise or in the callback of the read. [addBuild] does not
    create the directory of the branch: without it the error is
    ENOENT. *)
Theorem failed_write_is_reported dirname job fs members record e :
  isValid job true = true ->
  is_special fs (ledger_file dirname job) = false ->
  starts_from fs (ledger_file dirname job) members ->
  build_record job = Ok record ->
  (forall k, lookup_prop k members <> Some JNull) ->
  (forall data, writeFile fs (ledger_file dirname job) data = Throw e) ->
  returned (addBuild dirname job fs) = Settled (Rejected e) /\
  unhandled (addBuild dirname job fs) = None /\
  exists j,
    last (calls (addBuild dirname job fs))
    = Some (WriteFile (ledger_file dirname job) (Json j)).
Proof.
  intros Hvalid _ Hstarts Hrecord Hnull Hwrite.
  destruct (isValid_compiled _ Hvalid) as (jp & z & b & _ & Hid & Hsuccess).
  destruct (addBuild_starts _ _ _ _ Hvalid Hstarts) as (cb & log & ->).
  rewrite value_of_json_object.
  destruct (update_goes_through job z b record (props_of_members members)
              Hid Hsuccess Hrecord) as [props' Hupd].
  { intros k e0. rewrite lookup_props_of_members.
    destruct (lookup_prop k members) as [x|] eqn:Hx; [|done].
    intros [= <-]. apply resolve_ok; [by destruct x|].
    destruct x; try done. by destruct (Hnull k). }
  unfold append. rewrite Hupd, JSON_stringify_object, Hwrite.
  cbn [returned unhandled calls]. split_and!; [done..|].
  eexists. by rewrite last_snoc.
Qed.

(** X6. When the ledger file holds a text that is not well-formed JSON,
    the SyntaxError of [JSON.parse] is thrown in the callback of the
    read: the promise of [addBuild] never settles, the exception is
    handled by nobody, and nothing is written. *)
Theorem malformed_ledger_is_never_answered dirname job fs text :
  isValid job true = true ->
  existsSync fs (ledger_file dirname job) = true ->
  readFile fs (ledger_file dirname job) = Ok (Malformed text) ->
  addBuild dirname job fs
  = Run Pending (Some SyntaxError) fs
      [ExistsSync (ledger_file dirname job); ReadFile (ledger_file dirname job)].
Proof.
  intros Hvalid Hexists Hread. unfold addBuild.
  by rewrite Hvalid, Hexists, Hread.
Qed.

Lemma readFile_error fs p e :
  readFile fs p = Throw e -> exists code, e = SystemError code.
Proof.
  unfold readFile. destruct (fs !! p) as [[m d|m|m]|];
    try (intros [= <-]; by eexists).
  destruct (can_read m); [done|]. intros [= <-]. by eexists.
Qed.

Lemma writeFile_error fs p data e :
  writeFile fs p data = Throw e -> exists code, e = SystemError code.
Proof.
  unfold writeFile. destruct (fs !! p) as [[m d|m|m]|];
    try (intros [= <-]; by eexists).
  - destruct (can_write m); [done|]. intros [= <-]. by eexists.
  - destruct (fs !! removelast p) as [[|m|]|];
      try (intros [= <-]; by eexists).
    destruct (can_write m); [done|]. intros [= <-]. by eexists.
Qed.

(** X7. A job that [addBuild] does not turn down as invalid passes the
    validation of the other operations: [clearWorkspace],
    [generateHTML] and [generateBadge] do not answer "Invalid Job" to
    it, whatever the disk. *)
Theorem accepted_build_is_accepted_elsewhere dirname job fs :
  returned (addBuild dirname job fs)
    <> Settled (Rejected (Reason "Invalid Job")) ->
  isValid job false = true /\
  forall dirname' spelling document fs',
    promise_of (clearWorkspace dirname' job fs').1
      <> Settled (Rejected (Reason "Invalid Job!")) /\
    returned (generateHTML dirname' spelling document job fs')
      <> Settled (Rejected (Reason "Invalid Job")) /\
    returned (generateBadge dirname' spelling document job fs')
      <> Settled (Rejected (Reason "Invalid Job")).
Proof.
  intros Hok.
  assert (isValid job true = true) as Hvalid.
  { unfold addBuild in Hok. by destruct (isValid job true). }
  assert (isValid job false = true) as Hvalid'.
  { apply isValid_checks. apply isValid_checks in Hvalid.
    destruct Hvalid as (? & ? & ? & ? & _). by split_and!. }
  split; [done|]. intros dirname' spelling document fs'.
  unfold clearWorkspace, generateHTML, generateBadge.
  rewrite Hvalid'. cbn [negb]. split_and!.
  - by destruct (negb (existsSync _ _)).
  - destruct (readFile fs' (template_file dirname')) as [data|e] eqn:Hread.
    + destruct (writeFile fs' _ _) as [fs''|e] eqn:Hw; [done|].
      by apply writeFile_error in Hw as [code ->].
    + by apply readFile_error in Hread as [code ->].
  - destruct (readFile fs' (badge_template_file dirname')) as [data|e]
      eqn:Hread.
    + destruct (writeFile fs' _ _) as [fs''|e] eqn:Hw; [done|].
      by apply writeFile_error in Hw as [code ->].
    + by apply readFile_error in Hread as [code ->].
Qed.

Lemma Get_error v key e : Get v key = Throw e -> e = TypeError.
Proof. destruct v; simpl; congruence. Qed.

Lemma Put_error o key v e : Put o key v = Throw e -> e = TypeError.
Proof.
  destruct o as [| | | | |[] props]; simpl; try congruence.
  destruct (string_member _ _); congruence.
Qed.

Lemma scan_tags_error tags tag_keys builds build e :
  scan_tags tags tag_keys builds build = Throw e -> e = TypeError.
Proof.
  induction tag_keys as [|tag rest IH]; simpl; [done|].
  destruct (Get builds build) as [entry|e1] eqn:H1; simpl;
    [|intros [= <-]; by eapply Get_error].
  destruct (Get entry "sha") as [sha|e2] eqn:H2; simpl;
    [|intros [= <-]; by eapply Get_error].
  destruct (strict_equal _ _); [|done].
  destruct (Put entry "candidate" _) as [entry1|e3] eqn:H3; simpl;
    [|intros [= <-]; by eapply Put_error].
  destruct (Put entry1 "tag" _) as [entry2|e4] eqn:H4; simpl;
    [|intros [= <-]; by eapply Put_error].
  apply Put_error.
Qed.

Lemma apply_tags_error tags build_keys : forall builds e,
  apply_tags tags build_keys builds = Throw e -> e = TypeError.
Proof.
  induction build_keys as [|build rest IH]; intros builds e; simpl; [done|].
  destruct (scan_tags _ _ _ _) as [builds1|e1] eqn:H1; simpl;
    [apply IH|intros [= <-]; by eapply scan_tags_error].
Qed.

Lemma build_record_error job e : build_record job = Throw e -> e = TypeError.
Proof.
  unfold build_record.
  destruct (member job "commit"); cbn [Get mbind result_bind];
    try discriminate; congruence.
Qed.

Lemma update_error job builds e : update job builds = Throw e -> e = TypeError.
Proof.
  unfold update.
  destruct (build_record job) as [record|e1] eqn:H1; simpl;
    [|intros [= <-]; by eapply build_record_error].
  destruct (Put builds _ record) as [builds1|e2] eqn:H2; simpl;
    [|intros [= <-]; by eapply Put_error].
  destruct (if ToBoolean _ then _ else _) as [builds2|e3] eqn:H3; simpl.
  2:{ intros [= <-]. destruct (ToBoolean _); [by eapply Put_error|done]. }
  destruct (Put builds2 "latest" _) as [builds3|e4] eqn:H4; simpl;
    [|intros [= <-]; by eapply Put_error].
  apply apply_tags_error.
Qed.

Lemma append_pending job file builds cb fs log :
  (returned (append job file builds cb fs log) = Pending <->
   is_Some (unhandled (append job file builds cb fs log))) /\
  (cb = false -> returned (append job file builds cb fs log) <> Pending) /\
  (forall e, unhandled (append job file builds cb fs log) = Some e ->
             e = TypeError).
Proof.
  unfold append. destruct (update job builds) as [builds'|e] eqn:Hupd.
  - destruct (JSON_stringify builds') as [j|];
      [destruct (writeFile fs file (Json j))|];
      simpl; split_and!; try done; split; try done; by intros [? ?].
  - apply update_error in Hupd as ->.
    destruct cb; simpl; split_and!; try done;
      try (intros e; congruence); split; eauto; by intros [? ?].
Qed.

(** X26. When the ledger is a file, a directory or not there, the
    promise of [addBuild] stays pending exactly when an exception has
    escaped a callback, and that happens only when the ledger file is
    there: without it [addBuild] always settles. The exception is the
    SyntaxError of a ledger that is not well-formed JSON, or a TypeError
    of the update. *)
Theorem addBuild_hangs_only_in_the_callback dirname job fs :
  is_special fs (ledger_file dirname job) = false ->
  (returned (addBuild dirname job fs) = Pending <->
   is_Some (unhandled (addBuild dirname job fs))) /\
  (existsSync fs (ledger_file dirname job) = false ->
   returned (addBuild dirname job fs) <> Pending) /\
  (forall e, unhandled (addBuild dirname job fs) = Some e ->
             e = SyntaxError \/ e = TypeError).
Proof.
  intros _. unfold addBuild. destruct (isValid job true); cbn [negb].
  2:{ simpl. by split_and!. }
  destruct (existsSync fs _).
  - destruct (readFile fs _) as [[j|text]|e].
    + cbn [JSON_parse].
      destruct (append_pending job (ledger_file dirname job) (value_of_json j)
                  true fs [ExistsSync (ledger_file dirname job);
                           ReadFile (ledger_file dirname job)])
        as (H1 & _ & H3).
      split_and!; [done|done|]. intros e He. right. by apply H3.
    + simpl. split_and!; try done; try (split; by eauto).
      intros e He. left. congruence.
    + destruct (append_pending job (ledger_file dirname job) (VObj Plain [])
                  true fs [ExistsSync (ledger_file dirname job);
                           ReadFile (ledger_file dirname job)])
        as (H1 & _ & H3).
      split_and!; [done|done|]. intros e' He. right. by apply H3.
  - destruct (append_pending job (ledger_file dirname job) (VObj Plain [])
                false fs [ExistsSync (ledger_file dirname job)])
      as (H1 & H2 & H3).
    split_and!; [done|by intros _; apply H2|]. intros e' He. right. by apply H3.
Qed.

(** ** More of the reclaimer *)

Lemma task_children_ind (P : task -> Prop) :
  (forall p ph cs, Forall P cs -> P (Task p ph cs)) -> forall t, P t.
Proof.
  intros H. fix IH 1. intros [p ph cs]. apply H.
  induction cs as [|c cs IHcs]; constructor; [apply IH|exact IHcs].
Qed.

Lemma unlink_Ok fs p fs' :
  unlink fs p = Ok fs' -> fs' = delete p fs.
Proof.
  unfold unlink. destruct (fs !! p) as [[m d|m|m]|]; try discriminate;
    simpl; destruct (can_remove m); congruence.
Qed.

Lemma rmdir_Ok fs p fs' :
  rmdir fs p = Ok fs' -> fs' = delete p fs.
Proof.
  unfold rmdir. destruct (fs !! p) as [[m d|m|m]|]; try discriminate.
  destruct (entries fs p); [|discriminate].
  destruct (can_remove m); congruence.
Qed.

Lemma at_index_lookup {A X} (f : A -> option (X * A)) l i a :
  l !! i = Some a ->
  at_index f l i
  = match f a with
    | Some (x, a') => Some (x, <[i:=a']> l)
    | None => None
    end.
Proof.
  revert i. induction l as [|b l IH]; intros [|i] Hi; simpl in *; try done.
  - injection Hi as ->. by destruct (f a) as [[x a']|].
  - rewrite (IH _ Hi). by destruct (f a) as [[x a']|].
Qed.

Lemma settle_cases p s :
  settle p s = (Settled s, [([], Settle s)], Some s) /\ p = Pending \/
  settle p s = (p, [], None) /\ exists s', p = Settled s'.
Proof. destruct p; [left|right]; eauto. Qed.

(** The frame of a callback. *)
Lemma step_within root : forall t fs pos fs' t' evs sig,
  within root t ->
  step fs t pos = Some (fs', t', evs, sig) ->
  within root t' /\
  (forall q, fs' !! q = fs !! q \/ fs' !! q = None /\ root `prefix_of` q) /\
  (forall pos' c, (pos', Call c) ∈ evs -> root `prefix_of` path_of_call c).
Proof.
  induction t as [p ph cs IH] using task_children_ind.
  intros fs pos fs' t' evs sig Hin. inversion Hin as [? ? ? Hph Hcs]; subst.
  destruct pos as [|i pos].
  - destruct ph as [f|f|f|f len idx|f|]; simpl; try done.
    + (* stat *)
      destruct (stat fs f) as [stats|e].
      * destruct (isFile stats); [|destruct (isDirectory stats)];
          intros [= <- <- <- <-]; (split_and!; [constructor; [|done]|auto|]).
        -- intros f' [= <-]. by apply Hph.
        -- intros pos' c [= -> ->]%list_elem_of_singleton. by apply Hph.
        -- intros f' [= <-]. by apply Hph.
        -- intros pos' c [= -> ->]%list_elem_of_singleton. by apply Hph.
        -- done.
        -- by intros pos' c ?%elem_of_nil.
      * destruct p as [|s0];
          intros [= <- <- <- <-]; (split_and!; [by constructor|auto|]).
        -- by intros pos' c [=]%list_elem_of_singleton.
        -- by intros pos' c ?%elem_of_nil.
    + (* unlink *)
      destruct (unlink fs f) as [fs1|e] eqn:Hu.
      * apply unlink_Ok in Hu as ->.
        destruct p as [|s0];
          intros [= <- <- <- <-]; (split_and!; [by constructor| |]).
        -- intros q. destruct (decide (q = f)) as [->|Hne].
           ++ right. rewrite lookup_delete_eq. split; [done|]. by apply Hph.
           ++ left. by rewrite lookup_delete_ne.
        -- by intros pos' c [=]%list_elem_of_singleton.
        -- intros q. destruct (decide (q = f)) as [->|Hne].
           ++ right. rewrite lookup_delete_eq. split; [done|]. by apply Hph.
           ++ left. by rewrite lookup_delete_ne.
        -- by intros pos' c ?%elem_of_nil.
      * destruct p as [|s0];
          intros [= <- <- <- <-]; (split_and!; [by constructor|auto|]).
        -- by intros pos' c [=]%list_elem_of_singleton.
        -- by intros pos' c ?%elem_of_nil.
    + (* readdir *)
      destruct (readdir fs f) as [names|e].
      * destruct (check f (length names) 0) as [ph' evs'] eqn:Hcheck.
        apply check_events in Hcheck as [(_ & -> & ->)|(_ & -> & ->)];
          intros [= <- <- <- <-]; (split_and!; [constructor| auto |]).
        -- intros f' [= <-]. by apply Hph.
        -- done.
        -- intros pos' c [= -> ->]%list_elem_of_singleton. by apply Hph.
        -- intros f' [= <-]. by apply Hph.
        -- apply Forall_forall. intros c Hc.
           apply list_elem_of_In, in_map_iff in Hc as (name & <- & _).
           constructor; [|done]. intros f' [= <-].
           apply prefix_app_r. by apply Hph.
        -- intros pos' c (j & name & [= -> ->] & _)%elem_of_lookup_imap.
           simpl. apply prefix_app_r. by apply Hph.
      * destruct p as [|s0];
          intros [= <- <- <- <-]; (split_and!; [by constructor|auto|]).
        -- by intros pos' c [=]%list_elem_of_singleton.
        -- by intros pos' c ?%elem_of_nil.
    + (* rmdir *)
      destruct (rmdir fs f) as [fs1|e] eqn:Hu.
      * apply rmdir_Ok in Hu as ->.
        destruct p as [|s0];
          intros [= <- <- <- <-]; (split_and!; [by constructor| |]).
        -- intros q. destruct (decide (q = f)) as [->|Hne].
           ++ right. rewrite lookup_delete_eq. split; [done|]. by apply Hph.
           ++ left. by rewrite lookup_delete_ne.
        -- by intros pos' c [=]%list_elem_of_singleton.
        -- intros q. destruct (decide (q = f)) as [->|Hne].
           ++ right. rewrite lookup_delete_eq. split; [done|]. by apply Hph.
           ++ left. by rewrite lookup_delete_ne.
        -- by intros pos' c ?%elem_of_nil.
      * destruct p as [|s0];
          intros [= <- <- <- <-]; (split_and!; [by constructor|auto|]).
        -- by intros pos' c [=]%list_elem_of_singleton.
        -- by intros pos' c ?%elem_of_nil.
  - destruct ph as [f|f|f|f len idx|f|]; simpl; try done.
    destruct (at_index _ cs i) as [[[[fs1 cevs] csig] cs']|] eqn:Hat; [|done].
    apply at_index_Some in Hat as (c & c' & Hc & Hstep & ->).
    destruct (step fs c pos) as [[[[fs2 c2] cevs2] csig2]|] eqn:Hcstep;
      [|done]. injection Hstep as -> -> -> ->.
    pose proof (list_elem_of_lookup_2 _ _ _ Hc) as Hcin.
    rewrite Forall_forall in IH. rewrite Forall_forall in Hcs.
    destruct (IH c Hcin _ _ _ _ _ _ (Hcs c Hcin) Hcstep)
      as (Hc' & Hframe & Hcalls).
    assert (Forall (within root) (<[i:=c']> cs)) as Hcs'.
    { apply Forall_insert; [by apply Forall_forall|done]. }
    assert (forall pos' c0, (pos', Call c0) ∈ map (under i) cevs ->
                            root `prefix_of` path_of_call c0) as Hlift.
    { intros pos' c0 (pos0 & -> & Hin0)%elem_of_map_under. by eapply Hcalls. }
    destruct csig as [[|e]|].
    + destruct (check f len (S idx)) as [ph' evs'] eqn:Hcheck.
      apply check_events in Hcheck as [(_ & -> & ->)|(_ & -> & ->)];
        intros [= <- <- <- <-]; (split_and!; [constructor; [|done]|done|]).
      * intros f' [= <-]. by apply Hph.
      * intros pos' c0 [H|[= -> ->]%list_elem_of_singleton]%elem_of_app;
          [by eapply Hlift|by apply Hph].
      * intros f' [= <-]. by apply Hph.
      * intros pos' c0 [H|H%elem_of_nil]%elem_of_app; [by eapply Hlift|done].
    + destruct p as [|s0]; intros [= <- <- <- <-];
        (split_and!; [by constructor|done|]).
      * intros pos' c0 [H|[=]%list_elem_of_singleton]%elem_of_app.
        by eapply Hlift.
      * intros pos' c0 [H|H%elem_of_nil]%elem_of_app; [by eapply Hlift|done].
    + intros [= <- <- <- <-]. split_and!; [by constructor|done|done].
Qed.

Lemma run_within root schedule : forall fs t fs' t' evs,
  within root t ->
  run_schedule fs t schedule = (fs', t', evs) ->
  within root t' /\
  (forall q, fs' !! q = fs !! q \/ fs' !! q = None /\ root `prefix_of` q) /\
  (forall pos c, (pos, Call c) ∈ evs -> root `prefix_of` path_of_call c).
Proof.
  induction schedule as [|pos schedule IH]; intros fs t fs' t' evs Hin.
  - intros [= <- <- <-]. split_and!; [done|auto|]. by intros pos c ?%elem_of_nil.
  - cbn [run_schedule].
    destruct (step fs t pos) as [[[[fs1 t1] evs1] sig]|] eqn:Hstep;
      [|by apply IH].
    destruct (run_schedule fs1 t1 schedule) as [[fs2 t2] evs2] eqn:Hrun.
    intros [= <- <- <-].
    destruct (step_within _ _ _ _ _ _ _ _ Hin Hstep) as (Hin1 & Hf1 & Hc1).
    destruct (IH _ _ _ _ _ Hin1 Hrun) as (Hin2 & Hf2 & Hc2).
    split_and!; [done| |].
    + intros q. destruct (Hf2 q) as [->|[-> ?]]; [apply Hf1|auto].
    + intros pos' c [?|?]%elem_of_app; eauto.
Qed.

Lemma within_clearFolder file : within file (clearFolder file).
Proof. constructor; [|done]. by intros f [= <-]. Qed.

(** The calls of a callback. *)
Lemma step_calls : forall t fs pos fs' t' evs sig,
  step fs t pos = Some (fs', t', evs, sig) ->
  forall pos' c, (pos', Call c) ∈ evs -> looks_or_removes c.
Proof.
  induction t as [p ph cs IH] using task_children_ind.
  intros fs pos fs' t' evs sig. destruct pos as [|i pos].
  - destruct ph as [f|f|f|f len idx|f|]; simpl; try done.
    + destruct (stat fs f) as [stats|e].
      * destruct (isFile stats); [|destruct (isDirectory stats)];
          intros [= <- <- <- <-] pos' c Hc.
        -- by apply list_elem_of_singleton in Hc as [= -> ->].
        -- by apply list_elem_of_singleton in Hc as [= -> ->].
        -- by apply elem_of_nil in Hc.
      * destruct p as [|s0]; intros [= <- <- <- <-] pos' c Hc.
        -- by apply list_elem_of_singleton in Hc as [=].
        -- by apply elem_of_nil in Hc.
    + destruct (unlink fs f) as [fs1|e];
        destruct p as [|s0]; intros [= <- <- <- <-] pos' c Hc;
        try (by apply list_elem_of_singleton in Hc as [=]);
        by apply elem_of_nil in Hc.
    + destruct (readdir fs f) as [names|e].
      * destruct (check f (length names) 0) as [ph' evs'] eqn:Hcheck.
        apply check_events in Hcheck as [(_ & -> & ->)|(_ & -> & ->)];
          intros [= <- <- <- <-] pos' c Hc.
        -- by apply list_elem_of_singleton in Hc as [= -> ->].
        -- by apply elem_of_lookup_imap in Hc as (j & name & [= -> ->] & _).
      * destruct p as [|s0]; intros [= <- <- <- <-] pos' c Hc.
        -- by apply list_elem_of_singleton in Hc as [=].
        -- by apply elem_of_nil in Hc.
    + destruct (rmdir fs f) as [fs1|e];
        destruct p as [|s0]; intros [= <- <- <- <-] pos' c Hc;
        try (by apply list_elem_of_singleton in Hc as [=]);
        by apply elem_of_nil in Hc.
  - destruct ph as [f|f|f|f len idx|f|]; simpl; try done.
    destruct (at_index _ cs i) as [[[[fs1 cevs] csig] cs']|] eqn:Hat; [|done].
    apply at_index_Some in Hat as (c & c' & Hc & Hstep & ->).
    destruct (step fs c pos) as [[[[fs2 c2] cevs2] csig2]|] eqn:Hcstep;
      [|done]. injection Hstep as -> -> -> ->.
    pose proof (list_elem_of_lookup_2 _ _ _ Hc) as Hcin.
    rewrite Forall_forall in IH.
    pose proof (IH c Hcin _ _ _ _ _ _ Hcstep) as Hcalls.
    assert (forall pos' c0, (pos', Call c0) ∈ map (under i) cevs ->
                            looks_or_removes c0) as Hlift.
    { intros pos' c0 (pos0 & -> & Hin0)%elem_of_map_under. by eapply Hcalls. }
    destruct csig as [[|e]|].
    + destruct (check f len (S idx)) as [ph' evs'] eqn:Hcheck.
      apply check_events in Hcheck as [(_ & -> & ->)|(_ & -> & ->)];
        intros [= <- <- <- <-] pos' c0 [H|H]%elem_of_app;
        try (by eapply Hlift).
      * by apply list_elem_of_singleton in H as [= -> ->].
      * by apply elem_of_nil in H.
    + destruct p as [|s0];
        intros [= <- <- <- <-] pos' c0 [H|H]%elem_of_app;
        try (by eapply Hlift).
      * by apply list_elem_of_singleton in H as [=].
      * by apply elem_of_nil in H.
    + intros [= <- <- <- <-]. apply Hlift.
Qed.

Lemma run_calls schedule : forall fs t fs' t' evs,
  run_schedule fs t schedule = (fs', t', evs) ->
  forall pos c, (pos, Call c) ∈ evs -> looks_or_removes c.
Proof.
  induction schedule as [|pos schedule IH]; intros fs t fs' t' evs.
  - intros [= <- <- <-] pos c Hc. by apply elem_of_nil in Hc.
  - cbn [run_schedule].
    destruct (step fs t pos) as [[[[fs1 t1] evs1] sig]|] eqn:Hstep;
      [|by apply IH].
    destruct (run_schedule fs1 t1 schedule) as [[fs2 t2] evs2] eqn:Hrun.
    intros [= <- <- <-] pos' c [H|H]%elem_of_app.
    + by eapply step_calls.
    + by eapply IH.
Qed.

(** X8. In whatever order its calls complete, every call of [fs] that
    [clearFolder] makes is a call of [stat], [unlink], [readdir] or
    [rmdir] for its own path or a path below it, and no entry of the
    disk is created or changed: an entry is as it was, or it is gone. *)
Theorem clearFolder_calls_stay_under_its_path fs file schedule fs' t evs :
  run_schedule fs (clearFolder file) schedule = (fs', t, evs) ->
  (forall pos c, (pos, Call c) ∈ evs ->
     file `prefix_of` path_of_call c /\ looks_or_removes c) /\
  (forall q, fs' !! q = fs !! q \/ fs' !! q = None).
Proof.
  intros Hrun.
  destruct (run_within _ _ _ _ _ _ _ (within_clearFolder file) Hrun)
    as (_ & Hframe & Hcalls).
  split.
  - intros pos c Hc. split; [by eapply Hcalls|by eapply run_calls].
  - intros q. destruct (Hframe q) as [?|[? _]]; auto.
Qed.

Lemma step_gone file fs t pos fs' t' evs sig :
  gone_when_fulfilled file fs t ->
  step fs t pos = Some (fs', t', evs, sig) ->
  gone_when_fulfilled file fs' t'.
Proof.
  destruct t as [p ph cs]. unfold gone_when_fulfilled. simpl.
  intros [Hfile Hgone]. destruct pos as [|i pos].
  - destruct ph as [f|f|f|f len idx|f|]; simpl; try done;
      specialize (Hfile _ eq_refl) as ->.
    + destruct (stat fs file) as [stats|e].
      * destruct (isFile stats); [|destruct (isDirectory stats)];
          intros [= <- <- <- <-]; simpl; split; try (by intros ? [= <-]);
          try done; intros H; by destruct (Hgone H).
      * destruct p as [|s0]; intros [= <- <- <- <-]; simpl;
          (split; [done|]); try done. intros H; by destruct (Hgone H).
    + destruct (unlink fs file) as [fs1|e] eqn:Hu.
      * apply unlink_Ok in Hu as ->.
        destruct p as [|s0]; intros [= <- <- <- <-]; simpl;
          (split; [done|]); intros _; by rewrite lookup_delete_eq.
      * destruct p as [|s0]; intros [= <- <- <- <-]; simpl;
          (split; [done|]); try done. intros H; by destruct (Hgone H).
    + destruct (readdir fs file) as [names|e].
      * destruct (check file (length names) 0) as [ph' evs'] eqn:Hcheck.
        apply check_events in Hcheck as [(_ & -> & ->)|(_ & -> & ->)];
          intros [= <- <- <- <-]; simpl; (split; [by intros ? [= <-]|]);
          intros H; by destruct (Hgone H).
      * destruct p as [|s0]; intros [= <- <- <- <-]; simpl;
          (split; [done|]); try done. intros H; by destruct (Hgone H).
    + destruct (rmdir fs file) as [fs1|e] eqn:Hu.
      * apply rmdir_Ok in Hu as ->.
        destruct p as [|s0]; intros [= <- <- <- <-]; simpl;
          (split; [done|]); intros _; by rewrite lookup_delete_eq.
      * destruct p as [|s0]; intros [= <- <- <- <-]; simpl;
          (split; [done|]); try done. intros H; by destruct (Hgone H).
  - destruct ph as [f|f|f|f len idx|f|]; simpl; try done.
    specialize (Hfile _ eq_refl) as ->.
    destruct (at_index _ cs i) as [[[[fs1 cevs] csig] cs']|]; [|done].
    destruct csig as [[|e]|].
    + destruct (check file len (S idx)) as [ph' evs'] eqn:Hcheck.
      apply check_events in Hcheck as [(_ & -> & ->)|(_ & -> & ->)];
        intros [= <- <- <- <-]; simpl; (split; [by intros ? [= <-]|]);
        intros H; by destruct (Hgone H).
    + destruct p as [|s0]; intros [= <- <- <- <-]; simpl;
        (split; [by intros ? [= <-]|]); try done. intros H; by destruct (Hgone H).
    + intros [= <- <- <- <-]; simpl; (split; [by intros ? [= <-]|]).
      intros H; by destruct (Hgone H).
Qed.

Lemma run_gone file schedule : forall fs t fs' t' evs,
  gone_when_fulfilled file fs t ->
  run_schedule fs t schedule = (fs', t', evs) ->
  gone_when_fulfilled file fs' t'.
Proof.
  induction schedule as [|pos schedule IH]; intros fs t fs' t' evs Hin.
  - by intros [= <- <- <-].
  - cbn [run_schedule].
    destruct (step fs t pos) as [[[[fs1 t1] evs1] sig]|] eqn:Hstep;
      [|by apply IH].
    destruct (run_schedule fs1 t1 schedule) as [[fs2 t2] evs2] eqn:Hrun.
    intros [= <- <- <-]. eapply IH; [|done]. by eapply step_gone.
Qed.

Lemma run_clearFolder_gone fs file schedule fs' t evs :
  run_schedule fs (clearFolder file) schedule = (fs', t, evs) ->
  promise_of t = Settled Fulfilled ->
  fs' !! file = None.
Proof.
  intros Hrun Hp.
  destruct (run_gone file schedule fs (clearFolder file) fs' t evs) as [_ H];
    [|done|by destruct (H Hp)].
  split; [by intros f [= <-]|done].
Qed.

Lemma step_childless fs p ph i pos : step fs (Task p ph []) (i :: pos) = None.
Proof. by destruct ph. Qed.

(** X10. When the call of [stat] on its path fails (there is no such
    entry, or it may not be looked at), [clearFolder] is rejected with
    that error by its first callback, makes no other call, and the disk
    is as it was; until the callback runs the promise is pending. *)
Theorem clearFolder_of_an_unreachable_path fs file e schedule :
  stat fs file = Throw e ->
  run_schedule fs (clearFolder file) schedule
  = match own_callbacks schedule with
    | 0 => (fs, clearFolder file, [])
    | S _ => (fs, Task (Settled (Rejected e)) Idle [],
              [([], Settle (Rejected e))])
    end.
Proof.
  intros Hstat. induction schedule as [|[|i pos] schedule IH]; [done| |].
  - cbn [run_schedule own_callbacks]. unfold clearFolder. cbn [step].
    rewrite Hstat. cbn [settle]. by rewrite run_schedule_idle.
  - cbn [run_schedule own_callbacks]. unfold clearFolder at 1.
    by rewrite step_childless.
Qed.

Lemma run_unlink_pending fs file schedule :
  run_schedule fs (Task Pending (Unlink_pending file) []) schedule
  = match own_callbacks schedule with
    | 0 => (fs, Task Pending (Unlink_pending file) [], [])
    | S _ =>
        match unlink fs file with
        | Ok fs' => (fs', Task (Settled Fulfilled) Idle [],
                     [([], Settle Fulfilled)])
        | Throw e => (fs, Task (Settled (Rejected e)) Idle [],
                      [([], Settle (Rejected e))])
        end
    end.
Proof.
  induction schedule as [|[|i pos] schedule IH]; [done| |].
  - cbn [run_schedule own_callbacks step].
    destruct (unlink fs file) as [fs'|e]; cbn [settle];
      by rewrite run_schedule_idle.
  - cbn [run_schedule own_callbacks]. by rewrite step_childless.
Qed.

Lemma run_file_removed fs file m data :
  fs !! file = Some (File m data) ->
  can_stat m = true -> can_remove m = true ->
  run_schedule fs (clearFolder file) [[]; []]
  = (delete file fs, Task (Settled Fulfilled) Idle [],
     [([], Call (Unlink file)); ([], Settle Fulfilled)]).
Proof.
  intros Hfile Hstat Hremove. cbn [run_schedule]. unfold clearFolder.
  cbn [step]. unfold stat. rewrite Hfile. cbn [node_mode]. rewrite Hstat.
  cbn [isFile step]. unfold unlink. rewrite Hfile. cbn [node_mode].
  by rewrite Hremove.
Qed.

(** X11. On a plain file [clearFolder] calls [stat] and then [unlink]:
    once both calls have completed the file is gone, nothing else has
    changed and the promise is fulfilled; when the file may not be
    removed the promise is rejected with the error of [unlink] and the
    file is still there. *)
Theorem clearFolder_of_a_file fs file m data schedule :
  fs !! file = Some (File m data) -> can_stat m = true ->
  run_schedule fs (clearFolder file) schedule
  = match own_callbacks schedule with
    | 0 => (fs, clearFolder file, [])
    | 1 => (fs, Task Pending (Unlink_pending file) [],
            [([], Call (Unlink file))])
    | _ =>
        if can_remove m
        then (delete file fs, Task (Settled Fulfilled) Idle [],
              [([], Call (Unlink file)); ([], Settle Fulfilled)])
        else (fs, Task (Settled (Rejected EACCES)) Idle [],
              [([], Call (Unlink file)); ([], Settle (Rejected EACCES))])
    end.
Proof.
  intros Hfile Hstat.
  assert (stat fs file = Ok (File m data)) as Hs.
  { unfold stat. rewrite Hfile. cbn [node_mode]. by rewrite Hstat. }
  induction schedule as [|[|i pos] schedule IH]; [done| |].
  - cbn [run_schedule own_callbacks]. unfold clearFolder. cbn [step].
    rewrite Hs. cbn [isFile].
    rewrite run_unlink_pending. unfold unlink. rewrite Hfile. cbn [node_mode].
    destruct (own_callbacks schedule); [done|]. by destruct (can_remove m).
  - cbn [run_schedule own_callbacks]. unfold clearFolder at 1.
    by rewrite step_childless.
Qed.


(** X12. On an entry that is neither a file nor a directory (a FIFO, a
    socket, a device) [clearFolder] does nothing after [stat]: no other
    call is made, the disk is as it was, and the promise is never
    settled, in whatever order the callbacks run. *)
Theorem clearFolder_of_a_special_entry fs file m schedule :
  fs !! file = Some (Special m) -> can_stat m = true ->
  run_schedule fs (clearFolder file) schedule
  = (fs,
     Task Pending
       match own_callbacks schedule with
       | 0 => Stat_pending file
       | S _ => Idle
       end [],
     []).
Proof.
  intros Hfile Hstat.
  assert (stat fs file = Ok (Special m)) as Hs.
  { unfold stat. rewrite Hfile. cbn [node_mode]. by rewrite Hstat. }
  induction schedule as [|[|i pos] schedule IH]; [done| |].
  - cbn [run_schedule own_callbacks]. unfold clearFolder. cbn [step].
    rewrite Hs. cbn [isFile isDirectory]. by rewrite run_schedule_idle.
  - cbn [run_schedule own_callbacks]. unfold clearFolder at 1.
    by rewrite step_childless.
Qed.

Lemma elem_of_entries fs p name :
  name ∈ entries fs p <-> is_Some (fs !! (p ++ [name])%list).
Proof.
  unfold entries. rewrite list_elem_of_omap. split.
  - intros (q & Hq & Hname).
    apply list_elem_of_In, in_map_iff in Hq as ([q' n] & <- & Hin).
    apply list_elem_of_In, elem_of_map_to_list in Hin. simpl in Hname.
    destruct (last q') as [name'|]; [|done].
    destruct (decide _) as [->|]; [|done]. injection Hname as ->. eauto.
  - intros [n Hn]. exists (p ++ [name])%list. split.
    + apply list_elem_of_In, in_map_iff. exists (p ++ [name], n)%list.
      split; [done|]. by apply list_elem_of_In, elem_of_map_to_list.
    + rewrite last_snoc. by rewrite decide_True.
Qed.

Lemma entries_nil fs p :
  (forall name, fs !! (p ++ [name])%list = None) -> entries fs p = [].
Proof.
  intros Hnone. destruct (entries fs p) as [|name l] eqn:He; [done|].
  assert (name ∈ entries fs p) as Hin by (rewrite He; left).
  apply elem_of_entries in Hin as [n Hn]. by rewrite Hnone in Hn.
Qed.

Lemma NoDup_entries fs p : NoDup (entries fs p).
Proof.
  unfold entries.
  assert (NoDup (map fst (map_to_list fs))) as Hnodup
    by apply (NoDup_fst_map_to_list fs).
  induction Hnodup as [|q l Hq Hl IH]; [constructor|].
  cbn [omap list_omap].
  destruct (last q) as [name|] eqn:Hlast; [|exact IH].
  destruct (decide _) as [->|]; [|exact IH].
  constructor; [|exact IH].
  intros (q' & Hq' & Hname)%list_elem_of_omap.
  destruct (last q') as [name'|]; [|done].
  destruct (decide _) as [->|]; [|done]. by injection Hname as ->.
Qed.

Lemma run_schedule_app s1 : forall fs t s2,
  run_schedule fs t (s1 ++ s2)
  = let '(fs1, t1, evs1) := run_schedule fs t s1 in
    let '(fs2, t2, evs2) := run_schedule fs1 t1 s2 in
    (fs2, t2, (evs1 ++ evs2)%list).
Proof.
  induction s1 as [|pos s1 IH]; intros fs t s2.
  - simpl. by destruct (run_schedule fs t s2) as [[? ?] ?].
  - simpl. destruct (step fs t pos) as [[[[fs1 t1] evs1] sig]|]; [|apply IH].
    rewrite IH. destruct (run_schedule fs1 t1 s1) as [[fs2 t2] evs2].
    destruct (run_schedule fs2 t2 s2) as [[fs3 t3] evs3].
    by rewrite app_assoc.
Qed.

Lemma step_promise_stable fs t pos fs' t' evs sig s :
  promise_of t = Settled s ->
  step fs t pos = Some (fs', t', evs, sig) ->
  promise_of t' = Settled s.
Proof.
  intros Hp Hstep.
  destruct (step_signal _ _ _ _ _ _ _ Hstep) as (Hp' & Hpending & _).
  rewrite Hp'. destruct sig; [|done]. rewrite Hpending in Hp by eauto. done.
Qed.

Lemma run_promise_stable schedule : forall fs t fs' t' evs s,
  promise_of t = Settled s ->
  run_schedule fs t schedule = (fs', t', evs) ->
  promise_of t' = Settled s.
Proof.
  induction schedule as [|pos schedule IH]; intros fs t fs' t' evs s Hp.
  - by intros [= <- <- <-].
  - cbn [run_schedule].
    destruct (step fs t pos) as [[[[fs1 t1] evs1] sig]|] eqn:Hstep;
      [|by apply IH].
    destruct (run_schedule fs1 t1 schedule) as [[fs2 t2] evs2] eqn:Hrun.
    intros [= <- <- <-]. eapply IH; [|done]. by eapply step_promise_stable.
Qed.

(** A task is fulfilled by its own last callback. *)
Lemma step_fulfilled_idle fs t pos fs' t' evs :
  step fs t pos = Some (fs', t', evs, Some Fulfilled) ->
  exists cs, t' = Task (Settled Fulfilled) Idle cs.
Proof.
  destruct t as [p ph cs]. destruct pos as [|i pos].
  - destruct ph as [f|f|f|f len idx|f|]; simpl; try done.
    + destruct (stat fs f) as [stats|e].
      * by destruct (isFile stats); [|destruct (isDirectory stats)].
      * by destruct p.
    + destruct (unlink fs f); destruct p; intros [= <- <- <-]; eauto.
    + destruct (readdir fs f) as [names|e]; [|by destruct p].
      destruct (check f (length names) 0) as [ph' evs'] eqn:Hcheck.
      by apply check_events in Hcheck as [(_ & -> & ->)|(_ & -> & ->)].
    + destruct (rmdir fs f); destruct p; intros [= <- <- <-]; eauto.
  - destruct ph as [f|f|f|f len idx|f|]; simpl; try done.
    destruct (at_index _ cs i) as [[[[fs1 cevs] csig] cs']|]; [|done].
    destruct csig as [[|e]|]; [|by destruct p|done].
    by destruct (check f len (S idx)).
Qed.

(** The callbacks of a child that has none pending change nothing. *)
Lemma run_child_idle fs pp ph cs i p cc s :
  cs !! i = Some (Task p Idle cc) ->
  run_schedule fs (Task pp ph cs) (map (cons i) s) = (fs, Task pp ph cs, []).
Proof.
  intros Hc. induction s as [|pos s IH]; [done|].
  cbn [map run_schedule]. cbn [step].
  destruct ph; try exact IH.
  rewrite (at_index_lookup _ _ _ _ Hc), step_idle. exact IH.
Qed.

(** The callbacks of a child, seen from the task above it. *)
Lemma run_child f len idx i pp s : forall fs cs c fs' c' evs,
  cs !! i = Some c ->
  promise_of c = Pending ->
  run_schedule fs c s = (fs', c', evs) ->
  promise_of c' = Settled Fulfilled ->
  exists evs',
    run_schedule fs (Task pp (Waiting f len idx) cs) (map (cons i) s)
    = (fs', Task pp (check f len (S idx)).1 (<[i:=c']> cs), evs').
Proof.
  induction s as [|pos s IH]; intros fs cs c fs' c' evs Hc Hpending.
  - intros [= <- <- <-]. congruence.
  - cbn [map run_schedule]. cbn [step].
    rewrite (at_index_lookup _ _ _ _ Hc).
    destruct (step fs c pos) as [[[[fs1 c1] evs1] sig]|] eqn:Hstep;
      [|by apply IH].
    destruct (run_schedule fs1 c1 s) as [[fs2 c2] evs2] eqn:Hrun.
    intros [= <- <- <-] Hdone.
    pose proof (lookup_lt_Some _ _ _ Hc) as Hi.
    destruct (step_signal _ _ _ _ _ _ _ Hstep) as (Hp1 & _ & _).
    destruct sig as [[|e]|].
    + apply step_fulfilled_idle in Hstep as [cc ->].
      rewrite run_schedule_idle in Hrun. injection Hrun as <- <- <-.
      destruct (check f len (S idx)) as [ph' evs'] eqn:Hcheck.
      rewrite (run_child_idle _ _ _ _ i (Settled Fulfilled) cc).
      * eauto.
      * by rewrite list_lookup_insert_eq.
    + rewrite (run_promise_stable _ _ _ _ _ _ _ Hp1 Hrun) in Hdone. done.
    + destruct (IH fs1 (<[i:=c1]> cs) c1 fs2 c2 evs2) as [evs' ->]; try done.
      * by rewrite list_lookup_insert_eq.
      * by rewrite Hp1.
      * rewrite list_insert_insert_eq. eauto.
Qed.

Lemma prefix_snoc_ne (p : path) name name' q :
  name <> name' -> (p ++ [name])%list `prefix_of` q ->
  ~ (p ++ [name'])%list `prefix_of` q.
Proof.
  intros Hne [k ->] [k' Hk']. rewrite <- !app_assoc in Hk'.
  apply app_inv_head in Hk'. simpl in Hk'. congruence.
Qed.

Lemma prefix_snoc_self_ne (p : path) name name' :
  name <> name' -> ~ (p ++ [name'])%list `prefix_of` (p ++ [name])%list.
Proof.
  intros Hne. by apply (prefix_snoc_ne p name name').
Qed.

Lemma run_children f n pp : forall (rest : list string) (finished : list task) fs1,
  (forall name, name ∈ rest ->
     forall fs2, (forall q : path, (f ++ [name])%list `prefix_of` q ->
                            fs2 !! q = fs1 !! q) ->
                 removes fs2 (f ++ [name])%list) ->
  NoDup rest -> rest <> [] ->
  n = length finished + length rest ->
  exists schedule fs' cs' evs,
    run_schedule fs1
      (Task pp (Waiting f n (length finished))
         (finished ++ map (fun name => clearFolder (f ++ [name])%list) rest)%list)
      schedule
    = (fs', Task pp (Rmdir_pending f) cs', evs) /\
    (forall name, name ∈ rest -> fs' !! (f ++ [name])%list = None) /\
    (forall q : path, (forall name, name ∈ rest ->
                             ~ (f ++ [name])%list `prefix_of` q) ->
               fs' !! q = fs1 !! q).
Proof.
  induction rest as [|name rest IH]; intros finished fs1 Hrem Hnodup Hne Hn;
    [done|].
  apply NoDup_cons in Hnodup as [Hname Hnodup].
  destruct (Hrem name ltac:(left) fs1 ltac:(done))
    as (s0 & fs_a & t_a & evs_a & Hrun & Hdone & Hgone & Hframe).
  set (cs := (finished ++ map (fun name => clearFolder (f ++ [name])%list)
                          (name :: rest))%list).
  assert (cs !! length finished = Some (clearFolder (f ++ [name])%list)) as Hc.
  { subst cs. rewrite lookup_app_r by lia. by rewrite Nat.sub_diag. }
  destruct (run_child f n (length finished) (length finished) pp s0 fs1 cs _ _ _ _
              Hc eq_refl Hrun Hdone) as [evs1 Hrun1].
  assert (<[length finished:=t_a]> cs
          = ((finished ++ [t_a])
               ++ map (fun name => clearFolder (f ++ [name])%list) rest)%list)
    as Hcs.
  { subst cs. rewrite insert_app_r_alt by lia. rewrite Nat.sub_diag. simpl.
    by rewrite <- app_assoc. }
  rewrite Hcs in Hrun1. unfold check in Hrun1.
  destruct rest as [|name' rest'].
  - (* the last child *)
    simpl in Hn. rewrite (proj2 (Nat.eqb_eq n (S (length finished)))) in Hrun1
      by lia.
    eexists _, fs_a, _, _. split; [exact Hrun1|]. split.
    + intros name0 ->%list_elem_of_singleton. exact Hgone.
    + intros q Hq. apply Hframe. apply Hq. left.
  - destruct (Nat.eqb_spec n (S (length finished))) as [Hlen|Hlen];
      [simpl in Hn; lia|]. cbn [fst] in Hrun1.
    destruct (IH (finished ++ [t_a])%list fs_a)
      as (s1 & fs_b & cs_b & evs_b & Hrun2 & Hgone2 & Hframe2).
    + intros name0 Hname0 fs2 Hfs2. apply Hrem; [by right|].
      intros q Hq. rewrite Hfs2 by done. apply Hframe.
      eapply prefix_snoc_ne; [|done]. intros ->. by apply Hname.
    + done.
    + done.
    + rewrite length_app. simpl in *. lia.
    + rewrite length_app in Hrun2. cbn [length] in Hrun2.
      rewrite Nat.add_1_r in Hrun2.
      exists (map (cons (length finished)) s0 ++ s1)%list, fs_b, cs_b,
        (evs1 ++ evs_b)%list.
      split; [by rewrite run_schedule_app, Hrun1, Hrun2|]. split.
      * intros name0 [->|Hin]%elem_of_cons; [|by apply Hgone2].
        rewrite Hframe2; [done|]. intros name1 Hname1.
        apply prefix_snoc_self_ne. intros ->. by apply Hname.
      * intros q Hq. rewrite Hframe2.
        -- apply Hframe. apply Hq. left.
        -- intros name1 Hname1. apply Hq. by right.
Qed.

Lemma removable_removes fs p :
  removable fs p ->
  forall fs1, (forall q : path, p `prefix_of` q -> fs1 !! q = fs !! q) ->
              removes fs1 p.
Proof.
  induction 1 as [p m data Hfile Hstat Hremove
                 |p m Hdir Hstat Hread Hremove Hentries IH];
    intros fs1 Hsame.
  - (* a file *)
    exists [[]; []]. rewrite <- (Hsame p) in Hfile by done.
    rewrite (run_file_removed fs1 p m data) by done. eexists _, _, _.
    split; [done|]. split; [done|]. split; [by rewrite lookup_delete_eq|].
    intros q Hq. apply lookup_delete_ne. by intros ->.
  - (* a directory *)
    rewrite <- (Hsame p) in Hdir by done.
    assert (stat fs1 p = Ok (Dir m)) as Hs.
    { unfold stat. rewrite Hdir. cbn [node_mode]. by rewrite Hstat. }
    assert (readdir fs1 p = Ok (entries fs1 p)) as Hr.
    { unfold readdir. by rewrite Hdir, Hread. }
    assert (forall fs', fs' !! p = Some (Dir m) ->
              (forall name, fs' !! (p ++ [name])%list = None) ->
              rmdir fs' p = Ok (delete p fs')) as Hrmdir.
    { intros fs' Hp Hnone. unfold rmdir.
      by rewrite Hp, (entries_nil _ _ Hnone), Hremove. }
    destruct (decide (entries fs1 p = [])) as [Hnil|Hnames].
    + (* empty *)
      exists [[]; []; []]. cbn [run_schedule]. unfold clearFolder.
      cbn [step]. rewrite Hs. cbn [isFile isDirectory]. cbn [step].
      rewrite Hr, Hnil. cbn [length check Nat.eqb]. cbn [step].
      rewrite Hrmdir; [|done|].
      * cbn [settle]. eexists _, _, _. split; [done|]. split; [done|].
        split; [by rewrite lookup_delete_eq|].
        intros q Hq. apply lookup_delete_ne. by intros ->.
      * intros name. destruct (fs1 !! (p ++ [name])%list) eqn:Hname; [|done].
        assert (name ∈ entries fs1 p) as Hin
          by (apply elem_of_entries; eauto).
        rewrite Hnil in Hin. by apply elem_of_nil in Hin.
    + destruct (run_children p (length (entries fs1 p)) Pending
                  (entries fs1 p) [] fs1)
        as (s & fs' & cs' & evs & Hrun & Hgone & Hframe).
      * intros name Hname fs2 Hfs2. apply IH.
        -- apply elem_of_entries. rewrite <- Hsame by by apply prefix_app_r.
           by apply elem_of_entries.
        -- intros q Hq. rewrite Hfs2 by done. apply Hsame.
           etrans; [|done]. by apply prefix_app_r.
      * apply NoDup_entries.
      * done.
      * done.
      * cbn [length app] in Hrun.
        assert (fs' !! p = Some (Dir m)) as Hp.
        { rewrite Hframe; [done|]. intros name _. apply prefix_snoc_not. }
        assert (forall name, fs' !! (p ++ [name])%list = None) as Hnone.
        { intros name. destruct (decide (name ∈ entries fs1 p)) as [Hin|Hout];
            [by apply Hgone|].
          rewrite Hframe.
          - destruct (fs1 !! (p ++ [name])%list) eqn:Hname; [|done].
            destruct Hout. apply elem_of_entries. eauto.
          - intros name' Hname'. apply prefix_snoc_self_ne. by intros ->. }
        exists ([] :: [] :: s ++ [[]])%list.
        cbn [run_schedule]. unfold clearFolder. cbn [step]. rewrite Hs.
        cbn [isFile isDirectory]. cbn [step]. rewrite Hr. unfold check.
        rewrite (proj2 (Nat.eqb_neq (length (entries fs1 p)) 0))
          by (by destruct (entries fs1 p)).
        rewrite run_schedule_app, Hrun. cbn [run_schedule step].
        rewrite (Hrmdir _ Hp Hnone). cbn [settle].
        eexists _, _, _. split; [done|]. split; [done|].
        split; [by rewrite lookup_delete_eq|].
        intros q Hq. rewrite lookup_delete_ne by by intros ->.
        apply Hframe. intros name _ Hpre. apply Hq.
        etrans; [|done]. by apply prefix_app_r.
Qed.

(** X13. On a tree of files and directories on which every call of
    [fs] goes through, [clearFolder] can run to its end: there is an
    order of completion of its calls after which the promise is
    fulfilled, the path is gone, and every entry that is not under the
    path is as it was. *)
Theorem removable_tree_is_removed fs p :
  removable fs p ->
  exists schedule fs' t evs,
    run_schedule fs (clearFolder p) schedule = (fs', t, evs) /\
    promise_of t = Settled Fulfilled /\
    fs' !! p = None /\
    forall q : path, ~ p `prefix_of` q -> fs' !! q = fs !! q.
Proof. intros H. by apply (removable_removes fs p H fs). Qed.

Lemma step_disk : forall t fs pos fs' t' evs sig,
  step fs t pos = Some (fs', t', evs, sig) ->
  fs' = fs \/ (exists f, unlink fs f = Ok fs') \/ (exists f, rmdir fs f = Ok fs').
Proof.
  induction t as [p ph cs IH] using task_children_ind.
  intros fs pos fs' t' evs sig. destruct pos as [|i pos].
  - destruct ph as [f|f|f|f len idx|f|]; simpl; try done.
    + destruct (stat fs f) as [stats|e].
      * destruct (isFile stats); [|destruct (isDirectory stats)];
          intros [= <- <- <- <-]; auto.
      * destruct p; intros [= <- <- <- <-]; auto.
    + destruct (unlink fs f) as [fs1|e] eqn:Hu;
        destruct p; intros [= <- <- <- <-]; eauto.
    + destruct (readdir fs f) as [names|e].
      * destruct (check f (length names) 0) as [ph' evs'] eqn:Hcheck.
        apply check_events in Hcheck as [(_ & -> & ->)|(_ & -> & ->)];
          intros [= <- <- <- <-]; auto.
      * destruct p; intros [= <- <- <- <-]; auto.
    + destruct (rmdir fs f) as [fs1|e] eqn:Hu;
        destruct p; intros [= <- <- <- <-]; eauto.
  - destruct ph as [f|f|f|f len idx|f|]; simpl; try done.
    destruct (at_index _ cs i) as [[[[fs1 cevs] csig] cs']|] eqn:Hat; [|done].
    apply at_index_Some in Hat as (c & c' & Hc & Hstep & ->).
    destruct (step fs c pos) as [[[[fs2 c2] cevs2] csig2]|] eqn:Hcstep;
      [|done]. injection Hstep as -> -> -> ->.
    rewrite Forall_forall in IH.
    pose proof (IH c (list_elem_of_lookup_2 _ _ _ Hc) _ _ _ _ _ _ Hcstep) as Hd.
    destruct csig as [[|e]|].
    + destruct (check f len (S idx)). by intros [= <- <- <- <-].
    + destruct p; by intros [= <- <- <- <-].
    + by intros [= <- <- <- <-].
Qed.

Lemma unlink_hierarchical fs f fs' :
  hierarchical fs -> unlink fs f = Ok fs' -> hierarchical fs'.
Proof.
  intros Hh Hu. pose proof (unlink_Ok _ _ _ Hu) as ->.
  intros q name [n Hn]. apply lookup_delete_Some in Hn as [Hne Hn].
  destruct (Hh q name) as [m Hm]; [eauto|]. exists m.
  rewrite lookup_delete_ne; [done|]. intros ->. unfold unlink in Hu.
  by rewrite Hm in Hu.
Qed.

Lemma rmdir_hierarchical fs f fs' :
  hierarchical fs -> rmdir fs f = Ok fs' -> hierarchical fs'.
Proof.
  intros Hh Hu. pose proof (rmdir_Ok _ _ _ Hu) as ->.
  intros q name [n Hn]. apply lookup_delete_Some in Hn as [Hne Hn].
  destruct (Hh q name) as [m Hm]; [eauto|]. exists m.
  rewrite lookup_delete_ne; [done|]. intros ->. unfold rmdir in Hu.
  rewrite Hm in Hu.
  assert (name ∈ entries fs q) as Hin by (apply elem_of_entries; eauto).
  destruct (entries fs q); [by apply elem_of_nil in Hin|done].
Qed.

Lemma run_hierarchical schedule : forall fs t fs' t' evs,
  hierarchical fs ->
  run_schedule fs t schedule = (fs', t', evs) ->
  hierarchical fs'.
Proof.
  induction schedule as [|pos schedule IH]; intros fs t fs' t' evs Hh.
  - by intros [= <- <- <-].
  - cbn [run_schedule].
    destruct (step fs t pos) as [[[[fs1 t1] evs1] sig]|] eqn:Hstep;
      [|by apply IH].
    destruct (run_schedule fs1 t1 schedule) as [[fs2 t2] evs2] eqn:Hrun.
    intros [= <- <- <-]. eapply IH; [|done].
    apply step_disk in Hstep as [->|[[f Hu]|[f Hu]]];
      [done|by eapply unlink_hierarchical|by eapply rmdir_hierarchical].
Qed.

Lemma hierarchical_gone fs (p : path) :
  hierarchical fs -> fs !! p = None ->
  forall q : path, p `prefix_of` q -> fs !! q = None.
Proof.
  intros Hh Hp q [k ->]. induction k as [|name k IH] using rev_ind.
  - by rewrite app_nil_r.
  - destruct (fs !! (p ++ k ++ [name])%list) eqn:Hq; [|done].
    destruct (Hh (p ++ k)%list name) as [m Hm].
    + rewrite <- app_assoc. eauto.
    + congruence.
Qed.

(** X9. In whatever order its calls complete, when the promise of
    [clearFolder] is fulfilled the path is gone; on a disk on which what
    holds an entry is a directory, everything under the path is gone
    with it. *)
Theorem fulfilled_clearFolder_has_removed_the_tree
    fs file schedule fs' t evs :
  run_schedule fs (clearFolder file) schedule = (fs', t, evs) ->
  promise_of t = Settled Fulfilled ->
  fs' !! file = None /\
  (hierarchical fs -> forall q : path, file `prefix_of` q -> fs' !! q = None).
Proof.
  intros Hrun Hp. pose proof (run_clearFolder_gone _ _ _ _ _ _ Hrun Hp) as Hgone.
  split; [done|]. intros Hh. apply hierarchical_gone; [|done].
  by eapply run_hierarchical.
Qed.

(** *** Every order of completion *)

Lemma removable_frame fs fs' f :
  removable fs f ->
  (forall q : path, f `prefix_of` q -> fs' !! q = fs !! q) ->
  removable fs' f.
Proof.
  induction 1 as [p m data Hfile Hstat Hremove
                 |p m Hdir Hstat Hread Hremove Hentries IH]; intros Hsame.
  - apply (removable_file _ _ m data); [|done..]. by rewrite Hsame.
  - apply (removable_dir _ _ m); [by rewrite Hsame|done..|].
    intros name Hname. apply IH.
    + apply elem_of_entries. rewrite <- Hsame by by apply prefix_app_r.
      by apply elem_of_entries.
    + intros q Hq. apply Hsame. etrans; [|done]. by apply prefix_app_r.
Qed.

Lemma sound_frame fs fs' f t :
  sound fs f t ->
  (forall q : path, f `prefix_of` q -> fs' !! q = fs !! q) ->
  sound fs' f t.
Proof.
  induction 1 as [f cs Hrem|f m data cs Hfile Hremove
                 |f m cs Hdir Hread Hremove Hentries
                 |f m names len idx cs Hdir Hremove Hnodup Hlen Hcs Hidx Hlt
                    Hcover Hchildren IH
                 |f m cs Hdir Hremove Hnone|f cs Hgone]; intros Hsame.
  - apply sound_stat. by eapply removable_frame.
  - apply (sound_unlink _ _ m data); [|done]. by rewrite Hsame.
  - apply (sound_readdir _ _ m); [by rewrite Hsame|done..|].
    intros name Hname. eapply removable_frame.
    + apply Hentries. apply elem_of_entries.
      rewrite <- Hsame by by apply prefix_app_r. by apply elem_of_entries.
    + intros q Hq. apply Hsame. etrans; [|done]. by apply prefix_app_r.
  - apply (sound_waiting _ _ m names); try done.
    + by rewrite Hsame.
    + intros name Hname. apply Hcover.
      by rewrite <- Hsame by by apply prefix_app_r.
    + intros i name c Hi Hc. eapply IH; [done..|].
      intros q Hq. apply Hsame. etrans; [|done]. by apply prefix_app_r.
  - apply (sound_rmdir _ _ m); [by rewrite Hsame|done|].
    intros name. rewrite Hsame by by apply prefix_app_r. apply Hnone.
  - apply sound_done. by rewrite Hsame.
Qed.

Ltac paths :=
  try change (@lookup (list string) node (gmap path node))
        with (@lookup path node (gmap path node)) in *.

Lemma fulfilled_lt cs :
  fulfilled cs < length cs ->
  exists i c, cs !! i = Some c /\ promise_of c <> Settled Fulfilled.
Proof.
  unfold fulfilled. induction cs as [|c cs IH]; simpl; [lia|].
  rewrite filter_cons.
  destruct (decide (promise_of c = Settled Fulfilled)) as [Hc|Hc].
  - simpl. intros Hlt. destruct IH as (i & c' & Hi & Hc'); [lia|].
    by exists (S i), c'.
  - intros _. by exists 0, c.
Qed.

Lemma sound_promise fs f t :
  sound fs f t ->
  promise_of t = Pending /\ phase_of t <> Idle \/
  promise_of t = Settled Fulfilled /\ phase_of t = Idle /\ fs !! f = None.
Proof. destruct 1; simpl; auto. Qed.

Lemma sound_step fs f t :
  sound fs f t ->
  forall pos fs' t' evs sig,
    step fs t pos = Some (fs', t', evs, sig) ->
    sound fs' f t' /\
    (sig = None \/ sig = Some Fulfilled) /\
    (forall q : path,
       fs' !! q = fs !! q \/ fs' !! q = None /\ f `prefix_of` q) /\
    (forall pos' e, (pos', Settle (Rejected e)) ∉ evs).
Proof.
  induction 1 as [f cs Hrem|f m data cs Hfile Hremove
                 |f m cs Hdir Hread Hremove Hentries
                 |f m names len idx cs Hdir Hremove Hnodup Hlen Hcs Hidx Hlt
                    Hcover Hchildren IH
                 |f m cs Hdir Hremove Hnone|f cs Hgone];
    intros pos fs' t' evs sig; (destruct pos as [|i pos]; [|try done]);
    cbn [step]; try done.
  - (* stat *)
    destruct Hrem as [f m data Hfile Hstat Hremove
                     |f m Hdir Hstat Hread Hremove Hentries].
    + unfold stat. rewrite Hfile. cbn [node_mode]. rewrite Hstat.
      cbn [isFile]. intros [= <- <- <- <-]. split_and!; [|auto..|].
      * by apply (sound_unlink _ _ m data).
      * by intros pos' e [=]%list_elem_of_singleton.
    + unfold stat. rewrite Hdir. cbn [node_mode]. rewrite Hstat.
      cbn [isFile isDirectory]. intros [= <- <- <- <-].
      split_and!; [|auto..|].
      * by apply (sound_readdir _ _ m).
      * by intros pos' e [=]%list_elem_of_singleton.
  - (* unlink *)
    unfold unlink. rewrite Hfile. cbn [node_mode]. rewrite Hremove.
    cbn [settle]. intros [= <- <- <- <-]. split_and!; [|auto| |].
    + apply sound_done. by rewrite lookup_delete_eq.
    + intros q. destruct (decide (q = f)) as [->|Hne].
      * right. by rewrite lookup_delete_eq.
      * left. by rewrite lookup_delete_ne.
    + by intros pos' e [=]%list_elem_of_singleton.
  - (* readdir *)
    unfold readdir. rewrite Hdir, Hread. unfold check.
    destruct (Nat.eqb_spec (length (entries fs f)) 0) as [Hempty|Hsome];
      intros [= <- <- <- <-]; (split_and!; [|auto..|]).
    + apply (sound_rmdir _ _ m); [done..|]. intros name.
      destruct (fs !! (f ++ [name])%list) eqn:Hname; [|done].
      assert (name ∈ entries fs f) as Hin by (apply elem_of_entries; eauto).
      destruct (entries fs f); [by apply elem_of_nil in Hin|done].
    + by intros pos' e [=]%list_elem_of_singleton.
    + apply (sound_waiting _ _ m (entries fs f)); try done.
      * apply NoDup_entries.
      * by rewrite length_map.
      * by rewrite <- (map_map (fun name => (f ++ [name])%list) clearFolder),
          fulfilled_clearFolder.
      * lia.
      * intros name Hname. by apply elem_of_entries.
      * intros i name c Hi Hc. rewrite list_lookup_fmap, Hi in Hc.
        injection Hc as <-. apply sound_stat, Hentries.
        by eapply list_elem_of_lookup_2.
    + by intros pos' e (j & name & [=] & _)%elem_of_lookup_imap.
  - (* a callback below *)
    destruct (at_index _ cs i) as [[[[fs1 cevs] csig] cs']|] eqn:Hat; [|done].
    apply at_index_Some in Hat as (c & c' & Hc & Hstep & ->).
    destruct (step fs c pos) as [[[[fs2 c2] cevs2] csig2]|] eqn:Hcstep;
      [|done]. injection Hstep as -> -> -> ->.
    destruct (lookup_lt_is_Some_2 names i) as [name Hname].
    { rewrite <- Hlen, <- Hcs. by eapply lookup_lt_Some. }
    destruct (IH _ _ _ Hname Hc _ _ _ _ _ Hcstep)
      as (Hsound & Hsig & Hframe & Hnorej).
    destruct (step_signal _ _ _ _ _ _ _ Hcstep) as (Hpc & Hpend & _).
    pose proof (fulfilled_insert cs i c c' Hc) as Hcount.
    assert (fs1 !! f = Some (Dir m)) as Hdir1.
    { destruct (Hframe f) as [->|[_ Hpre]]; [done|].
      by apply prefix_snoc_not in Hpre. }
    assert (forall name', is_Some (fs1 !! (f ++ [name'])%list) ->
                          name' ∈ names) as Hcover1.
    { intros name' Hsome. apply Hcover. paths.
      destruct (Hframe (f ++ [name'])%list) as [<-|[Hnone _]]; [done|].
      rewrite Hnone in Hsome. by destruct Hsome. }
    assert (forall j name' c0,
              names !! j = Some name' -> <[i:=c']> cs !! j = Some c0 ->
              sound fs1 (f ++ [name'])%list c0) as Hchildren1.
    { intros j name' c0 Hj Hc0. destruct (decide (j = i)) as [->|Hne].
      - rewrite list_lookup_insert_eq in Hc0 by by eapply lookup_lt_Some.
        injection Hc0 as <-. congruence.
      - rewrite list_lookup_insert_ne in Hc0 by done.
        eapply sound_frame; [by eapply Hchildren|].
        intros q Hq. destruct (Hframe q) as [?|[_ Hpre]]; [done|].
        exfalso. eapply (prefix_snoc_ne f name name'); [|done..].
        intros <-. apply Hne. by eapply NoDup_lookup. }
    assert (forall q : path,
              fs1 !! q = fs !! q \/ fs1 !! q = None /\ f `prefix_of` q)
      as Hframe1.
    { intros q. destruct (Hframe q) as [?|[? Hpre]]; [auto|]. right.
      split; [done|]. etrans; [|done]. by apply prefix_app_r. }
    assert (forall pos' e,
              (pos', Settle (Rejected e)) ∉ map (under i) cevs) as Hnorej1.
    { intros pos' e (pos0 & -> & Hin)%elem_of_map_under. by eapply Hnorej. }
    destruct Hsig as [->| ->].
    + (* nothing settles *)
      intros [= <- <- <- <-]. split_and!; [|auto|done|done].
      apply (sound_waiting _ _ m names); try done.
      * by rewrite length_insert.
      * rewrite Hpc in Hcount. destruct (decide _); lia.
    + (* next *)
      rewrite Hpend in Hcount by eauto. rewrite Hpc in Hcount.
      rewrite decide_False, decide_True in Hcount by done.
      unfold check. destruct (Nat.eqb_spec len (S idx)) as [Hn|Hn];
        intros [= <- <- <- <-]; (split_and!; [|auto|done|]).
      * apply (sound_rmdir _ _ m); [done..|]. intros name'.
        destruct (fs1 !! (f ++ [name'])%list) as [n|] eqn:Hsome; [|done].
        exfalso.
        assert (name' ∈ names) as Hin by (apply Hcover1; eauto).
        apply list_elem_of_lookup in Hin as [j Hj].
        destruct (lookup_lt_is_Some_2 (<[i:=c']> cs) j) as [c0 Hc0].
        { rewrite length_insert, Hcs, Hlen. by eapply lookup_lt_Some. }
        pose proof (Hchildren1 _ _ _ Hj Hc0) as Hs0.
        assert (promise_of c0 = Settled Fulfilled) as Hp0.
        { eapply fulfilled_all; [|done]. rewrite length_insert. lia. }
        destruct (sound_promise _ _ _ Hs0) as [[Hp _]|(_ & _ & Hgone)];
          paths; congruence.
      * intros pos' e [Hin|[=]%list_elem_of_singleton]%elem_of_app.
        by eapply Hnorej1.
      * apply (sound_waiting _ _ m names); try done.
        -- by rewrite length_insert.
        -- lia.
        -- lia.
      * rewrite app_nil_r. apply Hnorej1.
  - (* rmdir *)
    unfold rmdir. rewrite Hdir, (entries_nil _ _ Hnone), Hremove.
    cbn [settle]. intros [= <- <- <- <-]. split_and!; [|auto| |].
    + apply sound_done. by rewrite lookup_delete_eq.
    + intros q. destruct (decide (q = f)) as [->|Hne].
      * right. by rewrite lookup_delete_eq.
      * left. by rewrite lookup_delete_ne.
    + by intros pos' e [=]%list_elem_of_singleton.
Qed.

Lemma sound_run schedule : forall fs f t fs' t' evs,
  sound fs f t ->
  run_schedule fs t schedule = (fs', t', evs) ->
  sound fs' f t' /\
  (forall pos e, (pos, Settle (Rejected e)) ∉ evs).
Proof.
  induction schedule as [|pos schedule IH]; intros fs f t fs' t' evs Hs.
  - intros [= <- <- <-]. split; [done|]. by intros pos e ?%elem_of_nil.
  - cbn [run_schedule].
    destruct (step fs t pos) as [[[[fs1 t1] evs1] sig]|] eqn:Hstep;
      [|by apply IH].
    destruct (run_schedule fs1 t1 schedule) as [[fs2 t2] evs2] eqn:Hrun.
    intros [= <- <- <-].
    destruct (sound_step _ _ _ Hs _ _ _ _ _ Hstep) as (Hs1 & _ & _ & Hno1).
    destruct (IH _ _ _ _ _ _ Hs1 Hrun) as (Hs2 & Hno2).
    split; [done|]. intros pos' e [?|?]%elem_of_app; [by eapply Hno1|].
    by eapply Hno2.
Qed.

Lemma sound_quiescent fs f t :
  sound fs f t -> quiescent fs t -> promise_of t = Settled Fulfilled.
Proof.
  unfold quiescent.
  induction 1 as [f cs Hrem|f m data cs Hfile Hremove
                 |f m cs Hdir Hread Hremove Hentries
                 |f m names len idx cs Hdir Hremove Hnodup Hlen Hcs Hidx Hlt
                    Hcover Hchildren IH
                 |f m cs Hdir Hremove Hnone|f cs Hgone]; intros Hq.
  - specialize (Hq []). cbn [step] in Hq.
    destruct (stat fs f) as [stats|e]; [|done].
    by destruct (isFile stats), (isDirectory stats).
  - specialize (Hq []). cbn [step] in Hq. by destruct (unlink fs f).
  - specialize (Hq []). cbn [step] in Hq.
    destruct (readdir fs f) as [names|e]; [|done].
    unfold check in Hq. by destruct (Nat.eqb _ _).
  - exfalso. destruct (fulfilled_lt cs) as (i & c & Hc & Hp); [lia|].
    destruct (lookup_lt_is_Some_2 names i) as [name Hname].
    { rewrite <- Hlen, <- Hcs. by eapply lookup_lt_Some. }
    apply Hp. eapply IH; [done..|]. intros pos.
    specialize (Hq (i :: pos)). cbn [step] in Hq.
    rewrite (at_index_lookup _ _ _ _ Hc) in Hq.
    destruct (step fs c pos) as [[[[fs1 c1] evs1] [[|e]|]]|]; try done.
    + unfold check in Hq. by destruct (Nat.eqb _ _).
  - specialize (Hq []). cbn [step] in Hq. by destruct (rmdir fs f).
  - done.
Qed.

(** X27. On a tree that can be removed, in whatever order the calls of
    [fs] complete, the promise of [clearFolder] is never rejected and no
    task reports an error; and once no call is pending any more, the
    promise is fulfilled and the path is gone. *)
Theorem clearFolder_succeeds_in_every_order fs p schedule fs' t evs :
  removable fs p ->
  run_schedule fs (clearFolder p) schedule = (fs', t, evs) ->
  (forall e, promise_of t <> Settled (Rejected e)) /\
  (forall pos e, (pos, Settle (Rejected e)) ∉ evs) /\
  (quiescent fs' t -> promise_of t = Settled Fulfilled /\ fs' !! p = None).
Proof.
  intros Hremovable Hrun.
  destruct (sound_run schedule fs p (clearFolder p) fs' t evs) as [Hs Hno];
    [by apply sound_stat|done|].
  split_and!; [|done|].
  - intros e. by destruct (sound_promise _ _ _ Hs) as [[-> _]|[-> _]].
  - intros Hq. pose proof (sound_quiescent _ _ _ Hs Hq) as Hp.
    split; [done|].
    destruct (sound_promise _ _ _ Hs) as [[Hp' _]|(_ & _ & Hgone)];
      [congruence|done].
Qed.

(** *** What may not be removed *)

Lemma unlink_keeps fs f fs' (q : path) n :
  unlink fs f = Ok fs' ->
  fs !! q = Some n -> can_remove (node_mode n) = false ->
  fs' !! q = Some n.
Proof.
  intros Hu Hq Hn. pose proof (unlink_Ok _ _ _ Hu) as ->.
  rewrite lookup_delete_ne; [done|]. intros ->. unfold unlink in Hu.
  rewrite Hq in Hu. destruct n; simpl in *; by rewrite ?Hn in Hu.
Qed.

Lemma rmdir_keeps fs f fs' (q : path) n :
  rmdir fs f = Ok fs' ->
  fs !! q = Some n -> can_remove (node_mode n) = false ->
  fs' !! q = Some n.
Proof.
  intros Hu Hq Hn. pose proof (rmdir_Ok _ _ _ Hu) as ->.
  rewrite lookup_delete_ne; [done|]. intros ->. unfold rmdir in Hu.
  rewrite Hq in Hu. destruct n; simpl in *; try done.
  destruct (entries _ _); [|done]. by rewrite Hn in Hu.
Qed.

Lemma run_keeps (q : path) n schedule : forall fs t fs' t' evs,
  fs !! q = Some n -> can_remove (node_mode n) = false ->
  run_schedule fs t schedule = (fs', t', evs) ->
  fs' !! q = Some n.
Proof.
  induction schedule as [|pos schedule IH]; intros fs t fs' t' evs Hq Hn.
  - by intros [= <- <- <-].
  - cbn [run_schedule].
    destruct (step fs t pos) as [[[[fs1 t1] evs1] sig]|] eqn:Hstep;
      [|by apply IH].
    destruct (run_schedule fs1 t1 schedule) as [[fs2 t2] evs2] eqn:Hrun.
    intros [= <- <- <-]. eapply IH; [|done..].
    apply step_disk in Hstep as [->|[[f Hu]|[f Hu]]];
      [done|by eapply unlink_keeps|by eapply rmdir_keeps].
Qed.

(** X28. An entry that may not be removed is still there with its
    content after any number of callbacks of [clearFolder], whatever the
    path cleared; and when it lies under the path cleared, on a disk
    where only directories hold entries, the promise is never fulfilled
    and the path itself is never removed. *)
Theorem unremovable_entry_is_kept fs file schedule fs' t evs (q : path) n :
  run_schedule fs (clearFolder file) schedule = (fs', t, evs) ->
  fs !! q = Some n -> can_remove (node_mode n) = false ->
  fs' !! q = Some n /\
  (hierarchical fs -> file `prefix_of` q ->
   promise_of t <> Settled Fulfilled /\ is_Some (fs' !! file)).
Proof.
  intros Hrun Hq Hn. pose proof (run_keeps _ _ _ _ _ _ _ _ Hq Hn Hrun) as Hkept.
  split; [done|]. intros Hh Hpre.
  assert (is_Some (fs' !! file)) as Hfile.
  { destruct (fs' !! file) eqn:Hf; [eauto|].
    rewrite (hierarchical_gone fs' file) in Hkept; [done| |done..].
    by eapply run_hierarchical. }
  split; [|done]. intros Hp.
  pose proof (run_clearFolder_gone _ _ _ _ _ _ Hrun Hp) as Hgone.
  rewrite Hgone in Hfile. by destruct Hfile.
Qed.

(** ** The list of projects *)

Lemma append_cons c s t : String c s ++ t = String c (s ++ t).
Proof. done. Qed.

Lemma append_nil_l s : "" ++ s = s.
Proof. done. Qed.

Lemma without_app c s t :
  without c (s ++ t) = without c s && without c t.
Proof.
  induction s as [|d s IH]; [done|]. rewrite append_cons. cbn [without].
  by rewrite IH, andb_assoc.
Qed.

Lemma String_split_segment sep s : forall segment rest,
  without sep s = true ->
  String_split sep (s ++ String sep rest) segment
  = (segment ++ s) :: String_split sep rest "".
Proof.
  induction s as [|c s IH]; intros segment rest Hs.
  - rewrite append_nil_l, append_nil_r. cbn [String_split].
    by rewrite Ascii.eqb_refl.
  - rewrite append_cons. cbn [String_split without] in *.
    destruct (Ascii.eqb c sep); [done|]. rewrite IH by done.
    by rewrite append_assoc.
Qed.

Lemma String_split_last sep s : forall segment,
  without sep s = true -> String_split sep s segment = [segment ++ s].
Proof.
  induction s as [|c s IH]; intros segment Hs; cbn [String_split without] in *.
  - by rewrite append_nil_r.
  - destruct (Ascii.eqb c sep); [done|]. rewrite IH by done.
    by rewrite append_assoc.
Qed.

Lemma String_split_length sep s : forall segment,
  0 < length (String_split sep s segment).
Proof.
  induction s as [|c s IH]; intros segment; cbn [String_split].
  - simpl. lia.
  - destruct (Ascii.eqb c sep); [simpl; lia|apply IH].
Qed.

Lemma job_of_error repo e : job_of repo = Throw e -> e = TypeError.
Proof.
  unfold job_of. cbn [split mbind result_bind].
  destruct (element (String_split "/" repo "") 1) as [| | | |s|[]];
    cbn [split mbind result_bind]; try discriminate; congruence.
Qed.

(** X17. The key [author/repo:branch] of the file of projects, in which
    [author] has no slash and [repo] and [branch] neither slash nor
    colon, makes the job with these three fields. The job passes the
    validation of [clearWorkspace], [generateHTML] and [generateBadge],
    and not the one of [addBuild], for which [id] and [success] are
    still to come. *)
Theorem job_of_a_key a r b :
  without "/" a = true ->
  without "/" r = true -> without ":" r = true ->
  without "/" b = true -> without ":" b = true ->
  job_of (a ++ "/" ++ r ++ ":" ++ b)
  = Ok (VObj Plain [("author", VStr a); ("repo", VStr r); ("branch", VStr b)]) /\
  isValid (VObj Plain [("author", VStr a); ("repo", VStr r); ("branch", VStr b)])
          false = true /\
  isValid (VObj Plain [("author", VStr a); ("repo", VStr r); ("branch", VStr b)])
          true = false.
Proof.
  intros Ha Hr Hr' Hb Hb'. split; [|done].
  unfold job_of. cbn [split mbind result_bind].
  change (a ++ "/" ++ r ++ ":" ++ b) with (a ++ String "/" (r ++ ":" ++ b)).
  rewrite String_split_segment by done.
  rewrite (String_split_last "/" (r ++ ":" ++ b)).
  2:{ rewrite !without_app, Hr, Hb. done. }
  cbn [element lookup list_lookup]. rewrite !append_nil_l.
  cbn [split mbind result_bind].
  change (r ++ ":" ++ b) with (r ++ String ":" b).
  rewrite String_split_segment, String_split_last by done.
  by rewrite !append_nil_l.
Qed.

(** X18. [getProjects] does not validate the keys: a key [author/repo]
    without a colon makes a job whose [branch] is [undefined], which
    fails the validation of every other operation. *)
Theorem job_of_a_key_without_branch a r :
  without "/" a = true ->
  without "/" r = true -> without ":" r = true ->
  job_of (a ++ "/" ++ r)
  = Ok (VObj Plain [("author", VStr a); ("repo", VStr r);
                    ("branch", VUndefined)]) /\
  isValid (VObj Plain [("author", VStr a); ("repo", VStr r);
                       ("branch", VUndefined)]) false = false.
Proof.
  intros Ha Hr Hr'. split; [|done].
  unfold job_of. cbn [split mbind result_bind].
  change (a ++ "/" ++ r) with (a ++ String "/" r).
  rewrite String_split_segment, String_split_last by done.
  cbn [element lookup list_lookup]. rewrite !append_nil_l.
  cbn [split mbind result_bind].
  rewrite String_split_last by done. by rewrite !append_nil_l.
Qed.

Lemma job_of_without_slash repo :
  without "/" repo = true -> job_of repo = Throw TypeError.
Proof.
  intros H. unfold job_of. cbn [split mbind result_bind].
  by rewrite String_split_last.
Qed.

Lemma collect_Ok keys : forall acc jobs,
  collect keys acc = Ok jobs <->
  exists js, jobs = (acc ++ js)%list /\
             Forall2 (fun key job => job_of key = Ok job) keys js.
Proof.
  induction keys as [|key keys IH]; intros acc jobs; cbn [collect].
  - split.
    + intros [= <-]. exists []. by rewrite app_nil_r.
    + intros (js & -> & Hjs). inversion Hjs. by rewrite app_nil_r.
  - destruct (job_of key) as [job|e] eqn:Hjob; cbn [mbind result_bind].
    + rewrite IH. split.
      * intros (js & -> & Hjs). exists (job :: js).
        rewrite <- app_assoc. split; [done|]. by constructor.
      * intros (js & -> & Hjs). inversion Hjs as [|? job' ? js' Hjob' Hjs']; subst.
        assert (job' = job) as -> by congruence.
        exists js'. by rewrite <- app_assoc.
    + split; [done|]. intros (js & _ & Hjs). inversion Hjs; congruence.
Qed.

Lemma collect_error keys : forall acc e,
  collect keys acc = Throw e -> e = TypeError.
Proof.
  induction keys as [|key keys IH]; intros acc e; cbn [collect]; [done|].
  destruct (job_of key) as [job|e'] eqn:Hjob; cbn [mbind result_bind].
  - apply IH.
  - intros [= <-]. by eapply job_of_error.
Qed.

Lemma for_in_keys_json members :
  for_in_keys (value_of_json (JObj members)) = map fst members.
Proof.
  rewrite value_of_json_object. cbn [for_in_keys]. unfold props_of_members.
  by rewrite map_map.
Qed.

(** X19. When the file of projects holds a JSON object, [getProjects] is
    resolved exactly when every key makes a job, and then with one job
    for each key, in the order of the keys in the file; the values under
    the keys play no part. *)
Theorem getProjects_lists_every_key dirname fs members jobs :
  readFile fs (repos_file dirname) = Ok (Json (JObj members)) ->
  getProjects dirname fs = Resolved jobs <->
  Forall2 (fun m job => job_of m.1 = Ok job) members jobs.
Proof.
  intros Hread. unfold getProjects. rewrite Hread.
  cbn [JSON_parse mbind result_bind]. rewrite for_in_keys_json.
  destruct (collect (map fst members) []) as [js|e] eqn:Hc.
  - apply collect_Ok in Hc as (js' & -> & Hjs). rewrite app_nil_l.
    apply Forall2_fmap_l in Hjs. split.
    + by intros [= <-].
    + intros Hjobs. f_equal. revert Hjobs. clear -Hjs. revert jobs.
      induction Hjs as [|[k x] j ms js Hj _ IH]; intros jobs Hjobs;
        inversion Hjobs as [|? j' ? js' Hj' Hjs']; subst; [done|].
      simpl in *. f_equal; [congruence|by apply IH].
  - split; [done|]. intros Hjobs.
    assert (collect (map fst members) [] = Ok jobs) as Hok.
    { apply collect_Ok. exists jobs. split; [done|]. by apply Forall2_fmap_l. }
    congruence.
Qed.

(** X20. One key without a slash is enough for [getProjects] never to
    settle: [repo.split('/')[1]] is [undefined], the TypeError of the
    call of [split] on it is thrown in the callback of the read, and the
    promise stays pending whatever the other keys are. *)
Theorem getProjects_stops_at_a_key_without_slash dirname fs members key x :
  readFile fs (repos_file dirname) = Ok (Json (JObj members)) ->
  (key, x) ∈ members -> without "/" key = true ->
  job_of key = Throw TypeError /\
  getProjects dirname fs = Escaped TypeError.
Proof.
  intros Hread Hkey Hslash. split; [by apply job_of_without_slash|].
  unfold getProjects. rewrite Hread.
  cbn [JSON_parse mbind result_bind]. rewrite for_in_keys_json.
  destruct (collect (map fst members) []) as [js|e] eqn:Hc.
  - apply collect_Ok in Hc as (js' & _ & Hjs). exfalso.
    apply Forall2_fmap_l in Hjs.
    apply list_elem_of_lookup in Hkey as [i Hi].
    destruct (Forall2_lookup_l _ _ _ _ _ Hjs Hi) as (job & _ & Hjob).
    simpl in Hjob. by rewrite job_of_without_slash in Hjob.
  - by apply collect_error in Hc as ->.
Qed.

(** X21. When the file of projects cannot be read [getProjects] is
    rejected with the error of the read. When it is read and is not
    well-formed JSON the SyntaxError escapes the callback and the promise
    never settles; a SyntaxError and a TypeError are the only exceptions
    that do so. *)
Theorem getProjects_failures dirname fs :
  (forall e, readFile fs (repos_file dirname) = Throw e ->
             getProjects dirname fs = Failed e) /\
  (forall text, readFile fs (repos_file dirname) = Ok (Malformed text) ->
                getProjects dirname fs = Escaped SyntaxError) /\
  (forall e, getProjects dirname fs = Escaped e ->
             e = SyntaxError \/ e = TypeError).
Proof.
  unfold getProjects. split_and!.
  - by intros e ->.
  - by intros text ->.
  - intros e. destruct (readFile fs _) as [[j|text]|e']; [| |done].
    + cbn [JSON_parse mbind result_bind].
      destruct (collect _ _) as [js|e'] eqn:Hc; [done|].
      intros [= <-]. right. by eapply collect_error.
    + cbn [JSON_parse mbind result_bind]. intros [= <-]. by left.
Qed.


(** ** The page and the badge *)

Lemma strip_prefix_app p s : strip_prefix p (p ++ s) = Some s.
Proof.
  induction p as [|c p IH]; [by destruct s|].
  rewrite append_cons. cbn [strip_prefix]. by rewrite Ascii.eqb_refl.
Qed.

Lemma replace_from_skip p r x : forall before s,
  replace_from p r before (x ++ s) (String.length x)
  = replace_from p r (before ++ x) s 0.
Proof.
  induction x as [|c x IH]; intros before s.
  - by rewrite append_nil_l, append_nil_r.
  - rewrite append_cons. cbn [String.length replace_from].
    rewrite IH, append_assoc. done.
Qed.

Lemma replace_from_match c p r before s :
  replace_from (String c p) r before (String c p ++ s) 0
  = GetSubstitution (String c p) before s r
    ++ replace_from (String c p) r (before ++ String c p) s 0.
Proof.
  rewrite append_cons at 1. cbn [replace_from].
  rewrite <- append_cons, strip_prefix_app. f_equal.
  cbn [String.length]. rewrite Nat.sub_1_r. cbn [Nat.pred].
  rewrite replace_from_skip, append_assoc. done.
Qed.

Lemma replace_from_text p r t : forall before s,
  without "$" t = true ->
  replace_from (String "$" p) r before (t ++ s) 0
  = t ++ replace_from (String "$" p) r (before ++ t) s 0.
Proof.
  induction t as [|c t IH]; intros before s Ht.
  - by rewrite !append_nil_l, append_nil_r.
  - rewrite !append_cons. cbn [replace_from strip_prefix without] in *.
    apply andb_prop in Ht as [Hc Ht]. rewrite Ascii.eqb_sym.
    apply negb_true_iff in Hc. rewrite Hc. rewrite IH by done.
    by rewrite append_assoc.
Qed.

Lemma GetSubstitution_plain matched before after r :
  without "$" r = true -> GetSubstitution matched before after r = r.
Proof.
  induction r as [|c r IH]; [done|]. cbn [GetSubstitution without].
  intros [Hc Hr]%andb_prop. apply negb_true_iff in Hc. rewrite Hc.
  by rewrite IH.
Qed.

Lemma pattern_dollar h : exists t, pattern h = String "$" t /\ without "$" t = true.
Proof. destruct h; eexists; split; reflexivity. Qed.

Lemma strip_prefix_other h h' s :
  h <> h' -> strip_prefix (pattern h) (pattern h' ++ s) = None.
Proof. destruct h, h'; try done; intros _; reflexivity. Qed.

Lemma replace_from_other h h' r before s :
  h <> h' ->
  replace_from (pattern h) r before (pattern h' ++ s) 0
  = pattern h' ++ replace_from (pattern h) r (before ++ pattern h') s 0.
Proof.
  intros Hne. pose proof (strip_prefix_other h h' s Hne) as Hstrip.
  destruct (pattern_dollar h) as (t & Ht & Hplain).
  destruct (pattern_dollar h') as (t' & Ht' & Hplain').
  rewrite Ht' in *. rewrite append_cons in *. cbn [replace_from].
  rewrite Hstrip. rewrite Ht. rewrite replace_from_text by done.
  by rewrite append_assoc.
Qed.

(** One call of [replace] on a template. *)
Lemma replace_hole h r value pieces :
  plain pieces -> without "$" r = true ->
  value h = pattern h ->
  (forall h', h' <> h -> value h' = pattern h' \/ without "$" (value h') = true) ->
  String_replace (pattern h) r (filled value pieces)
  = filled (fun h' => if decide (h' = h) then r else value h') pieces.
Proof.
  intros Hplain Hr Hh Hother. unfold String_replace. generalize "".
  induction pieces as [|[s|h'] pieces IH]; intros before.
  - done.
  - cbn [filled]. destruct (pattern_dollar h) as (t & Ht & _). rewrite Ht.
    rewrite replace_from_text by (apply Hplain; left). rewrite <- Ht.
    rewrite IH; [done|]. intros s' Hs'. apply Hplain. by right.
  - cbn [filled].
    assert (plain pieces) as Hplain'.
    { intros s' Hs'. apply Hplain. by right. }
    destruct (decide (h' = h)) as [->|Hne].
    + rewrite Hh. destruct (pattern_dollar h) as (t & Ht & _).
      rewrite Ht at 1 2. rewrite replace_from_match. rewrite <- Ht.
      rewrite GetSubstitution_plain by done. by rewrite IH.
    + destruct (Hother h' Hne) as [Hv|Hv].
      * rewrite Hv. rewrite replace_from_other by done. by rewrite IH.
      * destruct (pattern_dollar h) as (t & Ht & _). rewrite Ht.
        rewrite replace_from_text by done. rewrite <- Ht. by rewrite IH.
Qed.

Lemma filled_ext value value' pieces :
  (forall h, value h = value' h) -> filled value pieces = filled value' pieces.
Proof.
  intros H. induction pieces as [|[s|h] pieces IH]; cbn [filled];
    by rewrite ?H, ?IH.
Qed.

(** X22. For a template whose text between the placeholders has no
    dollar sign, and a job whose [author], [repo] and [branch] have
    none, the page is the template with every [${owner}],
    [${repository}] and [${branch}] replaced by the field of the job and
    everything else as it is. *)
Theorem render_page_fills_the_placeholders pieces job :
  plain pieces ->
  without "$" (ToString (member job "author")) = true ->
  without "$" (ToString (member job "repo")) = true ->
  without "$" (ToString (member job "branch")) = true ->
  render_page (filled pattern pieces) job = filled (page_value job) pieces.
Proof.
  intros Hplain Ha Hr Hb. unfold render_page.
  change "${owner}" with (pattern Owner).
  change "${repository}" with (pattern Repository).
  change "${branch}" with (pattern Branch).
  rewrite (replace_hole Owner) by (done || auto).
  rewrite (replace_hole Repository); [|done..|].
  2:{ intros h' Hh'. destruct (decide (h' = Owner)); auto. }
  rewrite (replace_hole Branch); [|done..|].
  2:{ intros h' Hh'. destruct (decide (h' = Repository)); [auto|].
      destruct (decide (h' = Owner)); auto. }
  apply filled_ext. by intros [].
Qed.

(** X23. For a template whose text between the placeholders has no
    dollar sign, the badge is the template with every [${status}]
    replaced by [SUCCESS] or [FAILURE] and every [${color}] by the green
    or the red, after the truth value of [job.success]: a job without
    [success] gets the red badge of a failure. *)
Theorem render_badge_fills_the_placeholders pieces job :
  plain pieces ->
  render_badge (filled pattern pieces) job = filled (badge_value job) pieces /\
  (member job "success" = VUndefined ->
   badge_value job Status = "FAILURE" /\
   badge_value job Color = "rgb(220, 30, 30)").
Proof.
  intros Hplain. split; [|by intros Hs; cbn [badge_value]; rewrite Hs].
  unfold render_badge.
  change "${status}" with (pattern Status).
  change "${color}" with (pattern Color).
  rewrite (replace_hole Status); [|done| |done|by auto].
  2:{ by destruct (ToBoolean _). }
  rewrite (replace_hole Color); [|done| |done|].
  2:{ by destruct (ToBoolean _). }
  2:{ intros h' Hh'. destruct (decide (h' = Status)); [|auto].
      right. by destruct (ToBoolean _). }
  apply filled_ext. by intros [].
Qed.

(** ** The files of a branch *)

Lemma split_slash_app s : forall segment t,
  split_slash (s ++ String "/" t) segment
  = (split_slash s segment ++ split_slash t "")%list.
Proof.
  induction s as [|c s IH]; intros segment t.
  - by rewrite append_nil_l.
  - rewrite append_cons. cbn [split_slash].
    destruct (Ascii.eqb c "/"); by rewrite IH.
Qed.

Lemma path_resolve_leaf dirname s leaf :
  proper_segment leaf = true ->
  path_resolve dirname ("../" ++ s ++ String "/" leaf)
  = (path_resolve dirname ("../" ++ s) ++ [leaf])%list.
Proof.
  intros Hleaf. unfold path_resolve.
  change ("../" ++ s ++ String "/" leaf)
    with (String "." (String "." (String "/" (s ++ String "/" leaf)))).
  change ("../" ++ s) with (String "." (String "." (String "/" s))).
  cbn [split_slash Ascii.eqb Bool.eqb append].
  rewrite split_slash_app, (split_slash_last leaf)
    by by apply proper_segment_no_slash.
  rewrite append_nil_l.
  change (?a :: (?l ++ ?k)%list) with ((a :: l) ++ k)%list.
  rewrite fold_left_app. cbn [fold_left].
  by rewrite step_proper_segment.
Qed.

Lemma branch_file dirname job leaf :
  proper_segment leaf = true ->
  path_resolve dirname
    ("../" ++ ToString (member job "author") ++ "/"
           ++ ToString (member job "repo") ++ "/"
           ++ ToString (member job "branch") ++ String "/" leaf)
  = (branch_directory dirname job ++ [leaf])%list.
Proof.
  intros Hleaf. unfold branch_directory.
  rewrite <- (path_resolve_leaf dirname _ leaf Hleaf). f_equal. f_equal.
  by rewrite !append_assoc.
Qed.

Lemma branch_files dirname job :
  ledger_file dirname job = (branch_directory dirname job ++ ["builds.json"])%list /\
  workspace dirname job = (branch_directory dirname job ++ ["files"])%list /\
  page_file dirname job = (branch_directory dirname job ++ ["index.html"])%list /\
  badge_file dirname job = (branch_directory dirname job ++ ["badge.svg"])%list.
Proof. split_and!; by apply branch_file. Qed.

(** X16. The ledger, the working files, the page and the badge of a job
    are four entries of one directory, whatever the fields of the job
    are; when [author], [repo] and [branch] are segments of a path it is
    the directory [author/repo/branch] beside the directory of the
    module. *)
Theorem files_of_a_branch dirname job :
  ledger_file dirname job = (branch_directory dirname job ++ ["builds.json"])%list /\
  workspace dirname job = (branch_directory dirname job ++ ["files"])%list /\
  page_file dirname job = (branch_directory dirname job ++ ["index.html"])%list /\
  badge_file dirname job = (branch_directory dirname job ++ ["badge.svg"])%list /\
  (proper_segment (ToString (member job "author")) = true ->
   proper_segment (ToString (member job "repo")) = true ->
   proper_segment (ToString (member job "branch")) = true ->
   branch_directory dirname job
   = (removelast dirname
        ++ [ToString (member job "author"); ToString (member job "repo");
            ToString (member job "branch")])%list).
Proof.
  split_and!; try by apply branch_file.
  intros Ha Hr Hb. unfold branch_directory, path_resolve.
  change ("../" ++ ?a ++ "/" ++ ?r ++ "/" ++ ?b)
    with (String "." (String "." (String "/"
            (a ++ String "/" (r ++ String "/" b))))).
  cbn [split_slash Ascii.eqb Bool.eqb append].
  rewrite !split_slash_segment, split_slash_last
    by by apply proper_segment_no_slash.
  cbn [fold_left append]. rewrite !step_proper_segment by done.
  change (step_segment dirname "..") with (removelast dirname).
  by rewrite <- !app_assoc.
Qed.

Lemma snoc_ne_prefix (p : path) leaf leaf' :
  leaf <> leaf' -> ~ (p ++ [leaf])%list `prefix_of` (p ++ [leaf'])%list.
Proof.
  intros Hne [k Hk]. rewrite <- app_assoc in Hk. apply app_inv_head in Hk.
  simpl in Hk. congruence.
Qed.

(** X14. In whatever order the calls complete, every call of [fs] that
    [clearWorkspace] makes is for the working files of the job or for a
    path below them, and is a call that looks at an entry or removes
    it: none is for the ledger, the page or the badge of the job, which
    are beside the working files. No entry of the disk is created or
    changed. *)
Theorem clearWorkspace_calls_stay_in_the_workspace
    dirname job fs schedule fs' t evs :
  run_schedule fs (clearWorkspace dirname job fs).1 schedule = (fs', t, evs) ->
  Forall (fun c => path_of_call c = workspace dirname job)
    (clearWorkspace dirname job fs).2 /\
  (forall pos c, (pos, Call c) ∈ evs ->
     workspace dirname job `prefix_of` path_of_call c /\
     looks_or_removes c /\
     path_of_call c <> ledger_file dirname job /\
     path_of_call c <> page_file dirname job /\
     path_of_call c <> badge_file dirname job) /\
  (forall q, fs' !! q = fs !! q \/ fs' !! q = None).
Proof.
  unfold clearWorkspace.
  destruct (negb (isValid job false)); cbn [fst snd].
  { rewrite run_schedule_idle. intros [= <- <- <-]. split_and!; [done| |auto].
    by intros pos c ?%elem_of_nil. }
  destruct (negb (existsSync fs _)); cbn [fst snd].
  { rewrite run_schedule_idle. intros [= <- <- <-].
    split_and!; [by repeat constructor| |auto].
    by intros pos c ?%elem_of_nil. }
  intros Hrun.
  destruct (run_within _ _ _ _ _ _ _ (within_clearFolder _) Hrun)
    as (_ & Hframe & Hcalls).
  destruct (branch_files dirname job) as (Hl & Hw & Hp & Hb).
  split_and!; [by repeat constructor| |].
  - intros pos c Hc. pose proof (Hcalls _ _ Hc) as Hunder.
    split_and!; [done|by eapply run_calls|..];
      intros Heq; rewrite Heq, Hw in Hunder;
      revert Hunder; rewrite ?Hl, ?Hp, ?Hb; by apply snoc_ne_prefix.
  - intros q. destruct (Hframe q) as [?|[? _]]; auto.
Qed.

Lemma removable_existsSync fs p : removable fs p -> existsSync fs p = true.
Proof.
  unfold existsSync, stat. intros [? m data -> Hs _|? m -> Hs _ _ _];
    cbn [node_mode]; by rewrite Hs.
Qed.

(** X15. For a valid job whose working files are a tree on which every
    call of [fs] goes through, [clearWorkspace] can run to its end:
    there is an order of completion after which its promise is
    fulfilled, the working files are gone and the ledger of the job is
    as it was. *)
Theorem clearWorkspace_clears_a_removable_workspace dirname job fs :
  isValid job false = true ->
  removable fs (workspace dirname job) ->
  exists schedule fs' t evs,
    run_schedule fs (clearWorkspace dirname job fs).1 schedule = (fs', t, evs) /\
    promise_of t = Settled Fulfilled /\
    fs' !! workspace dirname job = None /\
    fs' !! ledger_file dirname job = fs !! ledger_file dirname job.
Proof.
  intros Hvalid Hremovable.
  destruct (removable_removes _ _ Hremovable fs ltac:(done))
    as (schedule & fs' & t & evs & Hrun & Hp & Hgone & Hframe).
  exists schedule, fs', t, evs. unfold clearWorkspace.
  rewrite Hvalid, (removable_existsSync _ _ Hremovable). cbn [negb fst].
  split_and!; [done..|]. apply Hframe.
  destruct (branch_files dirname job) as (-> & -> & _).
  by apply snoc_ne_prefix.
Qed.

Section PagesProofs.

Variable dirname : path.
Variable spelling : json -> string.
Variable document : string -> option json.

Lemma writeFile_lookup fs p data fs' :
  writeFile fs p data = Ok fs' -> exists m, fs' !! p = Some (File m data).
Proof.
  intros (m & -> & _)%writeFile_Ok. exists m. by rewrite lookup_insert_eq.
Qed.

(** X24. When the template and the page are files, directories or not
    there, [generateHTML] settles and no exception escapes it. It
    changes no entry of the disk but the page of the job, and not the
    ledger. It is fulfilled exactly when the job is valid, the template
    is read and the page is written, and the page then holds the
    template as [render_page] fills it; when it is rejected the reason
    is "Invalid Job", the error of the read or the error of the
    write. *)
Theorem generateHTML_settles job fs :
  is_special fs (template_file dirname) = false ->
  is_special fs (page_file dirname job) = false ->
  let r := generateHTML dirname spelling document job fs in
  returned r <> Pending /\ unhandled r = None /\
  (forall q, q <> page_file dirname job -> disk r !! q = fs !! q) /\
  disk r !! ledger_file dirname job = fs !! ledger_file dirname job /\
  (returned r = Settled Fulfilled <->
   isValid job false = true /\
   exists data fs',
     readFile fs (template_file dirname) = Ok data /\
     writeFile fs (page_file dirname job)
       (content_of document (render_page (utf8 spelling data) job)) = Ok fs') /\
  (returned r = Settled Fulfilled ->
   exists data m,
     readFile fs (template_file dirname) = Ok data /\
     disk r !! page_file dirname job
     = Some (File m (content_of document
                       (render_page (utf8 spelling data) job)))) /\
  (forall e, returned r = Settled (Rejected e) ->
     e = Reason "Invalid Job" /\ isValid job false = false \/
     readFile fs (template_file dirname) = Throw e \/
     exists data, writeFile fs (page_file dirname job) data = Throw e).
Proof.
  intros _ _.
  assert (page_file dirname job <> ledger_file dirname job) as Hne.
  { destruct (branch_files dirname job) as (Hl & _ & Hp & Hb).
    rewrite Hl, ?Hp, ?Hb. intros [=]%app_inv_head. }
  cbv zeta. unfold generateHTML.
  destruct (isValid job false); cbn [negb].
  2:{ split_and!; try done.
      - split; [done|]. by intros [? _].
      - intros e [= <-]. auto. }
  destruct (readFile fs (template_file dirname)) as [data|e] eqn:Hread.
  2:{ split_and!; try done.
      - split; [done|]. by intros (_ & data & fs' & ? & _).
      - intros e' [= <-]. auto. }
  destruct (writeFile fs (page_file dirname job) _) as [fs'|e] eqn:Hwrite;
    cbn [returned unhandled disk].
  - split_and!; try done.
    + intros q Hq. by eapply writeFile_other.
    + eapply writeFile_other; [done|]. intros H. by apply Hne.
    + split; [|done]. intros _. split; [done|]. by exists data, fs'.
    + intros _. apply writeFile_lookup in Hwrite as [m Hm]. by exists data, m.
  - split_and!; try done.
    + split; [done|]. intros (_ & data' & fs' & [= <-] & Hw). congruence.
    + intros e' [= <-]. right. right. eauto.
Qed.

(** X25. When the template and the badge are files, directories or not
    there, [generateBadge] settles and no exception escapes it. It
    changes no entry of the disk but the badge of the job, and not the
    ledger. It is fulfilled exactly when the job is valid, the template
    is read and the badge is written, and the badge then holds the
    template as [render_badge] fills it; when it is rejected the reason
    is "Invalid Job", the error of the read or the error of the
    write. *)
Theorem generateBadge_settles job fs :
  is_special fs (badge_template_file dirname) = false ->
  is_special fs (badge_file dirname job) = false ->
  let r := generateBadge dirname spelling document job fs in
  returned r <> Pending /\ unhandled r = None /\
  (forall q, q <> badge_file dirname job -> disk r !! q = fs !! q) /\
  disk r !! ledger_file dirname job = fs !! ledger_file dirname job /\
  (returned r = Settled Fulfilled <->
   isValid job false = true /\
   exists data fs',
     readFile fs (badge_template_file dirname) = Ok data /\
     writeFile fs (badge_file dirname job)
       (content_of document (render_badge (utf8 spelling data) job)) = Ok fs') /\
  (returned r = Settled Fulfilled ->
   exists data m,
     readFile fs (badge_template_file dirname) = Ok data /\
     disk r !! badge_file dirname job
     = Some (File m (content_of document
                       (render_badge (utf8 spelling data) job)))) /\
  (forall e, returned r = Settled (Rejected e) ->
     e = Reason "Invalid Job" /\ isValid job false = false \/
     readFile fs (badge_template_file dirname) = Throw e \/
     exists data, writeFile fs (badge_file dirname job) data = Throw e).
Proof.
  intros _ _.
  assert (badge_file dirname job <> ledger_file dirname job) as Hne.
  { destruct (branch_files dirname job) as (Hl & _ & Hp & Hb).
    rewrite Hl, ?Hp, ?Hb. intros [=]%app_inv_head. }
  cbv zeta. unfold generateBadge.
  destruct (isValid job false); cbn [negb].
  2:{ split_and!; try done.
      - split; [done|]. by intros [? _].
      - intros e [= <-]. auto. }
  destruct (readFile fs (badge_template_file dirname)) as [data|e] eqn:Hread.
  2:{ split_and!; try done.
      - split; [done|]. by intros (_ & data & fs' & ? & _).
      - intros e' [= <-]. auto. }
  destruct (writeFile fs (badge_file dirname job) _) as [fs'|e] eqn:Hwrite;
    cbn [returned unhandled disk].
  - split_and!; try done.
    + intros q Hq. by eapply writeFile_other.
    + eapply writeFile_other; [done|]. intros H. by apply Hne.
    + split; [|done]. intros _. split; [done|]. by exists data, fs'.
    + intros _. apply writeFile_lookup in Hwrite as [m Hm]. by exists data, m.
  - split_and!; try done.
    + split; [done|]. intros (_ & data' & fs' & [= <-] & Hw). congruence.
    + intros e' [= <-]. right. right. eauto.
Qed.

End PagesProofs.


(** ** The further properties at the example project *)

Lemma triple_eta {A B C} (x : A * B * C) :
  x = (fst (fst x), snd (fst x), snd x).
Proof. by destruct x as [[a b] c]. Qed.

Lemma writeFile_new (fs : gmap path node) (p : path) m data :
  fs !! p = None -> fs !! removelast p = Some (Dir m) -> can_write m = true ->
  writeFile fs p data = Ok (<[p := File rwx data]> fs).
Proof. intros Hp Hdir Hw. unfold writeFile. by rewrite Hp, Hdir, Hw. Qed.

Lemma hierarchical_check (fs : gmap path node) :
  forallb (fun entry : path * node =>
             match entry.1 with
             | [] => true
             | _ :: _ =>
                 match fs !! removelast entry.1 with
                 | Some (Dir _) => true
                 | _ => false
                 end
             end) (map_to_list fs) = true ->
  hierarchical fs.
Proof.
  intros Hall q name [n Hn]. rewrite forallb_forall in Hall.
  apply elem_of_map_to_list, list_elem_of_In in Hn.
  specialize (Hall _ Hn). cbn [fst] in Hall. rewrite removelast_last in Hall.
  destruct q as [|s q]; simpl in Hall;
    by destruct (fs !! _) as [[| m |]|]; eauto.
Qed.

Lemma plain_check pieces :
  forallb (fun piece => match piece with
                        | Text s => without "$" s
                        | Hole _ => true
                        end) pieces = true ->
  plain pieces.
Proof.
  intros Hall s Hs. rewrite forallb_forall in Hall.
  by apply (Hall (Text s)), list_elem_of_In.
Qed.

Section MoreWitnesses.

Import Example Site.

(** X1 at build 2 and the directory of the branch. *)
Lemma addBuild_touches_only_the_ledger_witness :
  disk (addBuild dirname second bare) !! branch = bare !! branch /\
  Forall (fun c => path_of_call c = builds_json)
    (calls (addBuild dirname second bare)).
Proof.
  destruct (addBuild_touches_only_the_ledger dirname second bare) as [H1 H2].
  split; [apply H1|exact H2]. vm_compute. discriminate.
Defined.

(** X2 at build 2, when build 3 is added with its tags and when it is
    added without them. *)
Lemma addBuild_keeps_the_other_entries_witness :
  entry (disk (addBuild dirname third (disk (addBuild dirname second bare))))
        builds_json "2"
  = Some (JObj (resolved (member third "tags") second_record)) /\
  entry (disk (addBuild dirname (job 3 false "def" [])
                 (disk (addBuild dirname second bare))))
        builds_json "2"
  = Some (JObj second_record).
Proof.
  split.
  - destruct (addBuild_keeps_the_other_entries dirname third
                (disk (addBuild dirname second bare)) second_ledger "2")
      as [H _]; [| | | | | |exact H].
    + left. right. split; vm_compute; reflexivity.
    + vm_compute. reflexivity.
    + reflexivity.
    + vm_compute. discriminate.
    + discriminate.
    + discriminate.
  - destruct (addBuild_keeps_the_other_entries dirname
                (job 3 false "def" [])
                (disk (addBuild dirname second bare)) second_ledger "2")
      as [_ H]; [| | | | | |apply H; reflexivity].
    + left. right. split; vm_compute; reflexivity.
    + vm_compute. reflexivity.
    + reflexivity.
    + vm_compute. discriminate.
    + discriminate.
    + discriminate.
Defined.

(** X3 at build 2. *)
Lemma addBuild_records_the_build_witness :
  exists z b record,
    member second "id" = VNum (Int z) /\
    member second "success" = VBool b /\
    entry (disk (addBuild dirname second bare)) (ledger_file dirname second)
          (ToString (member second "id")) = Some (JObj record) /\
    lookup_prop "id" record = Some (JInt z) /\
    lookup_prop "status" record
    = Some (JStr (if b then "SUCCESS" else "FAILURE")) /\
    (forall name,
       name ∈ ["sha"; "date"; "timestamp"; "message"; "author"; "avatar"] ->
       lookup_prop name record
       = JSON_stringify (member (member second "commit") name)) /\
    lookup_prop "license" record = JSON_stringify (member second "license") /\
    lookup_prop "candidate" record
    = Some (JStr match first_tag (member second "tags")
                         (for_in_keys (member second "tags"))
                         (member (member second "commit") "sha") with
                 | Some _ => "RELEASE"
                 | None => "DEVELOPMENT"
                 end) /\
    lookup_prop "tag" record
    = JStr <$> first_tag (member second "tags")
                 (for_in_keys (member second "tags"))
                 (member (member second "commit") "sha").
Proof.
  apply (addBuild_records_the_build dirname second bare []).
  - left. left. split; vm_compute; reflexivity.
  - vm_compute. reflexivity.
  - reflexivity.
  - reflexivity.
  - reflexivity.
  - reflexivity.
Defined.

(** X4 at build 2. *)
Lemma addBuild_can_be_repeated_witness :
  returned (addBuild dirname second (disk (addBuild dirname second bare)))
  = Settled Fulfilled /\
  forall k,
    entry (disk (addBuild dirname second (disk (addBuild dirname second bare))))
          (ledger_file dirname second) k
    = entry (disk (addBuild dirname second bare)) (ledger_file dirname second) k.
Proof.
  apply (addBuild_can_be_repeated dirname second bare []).
  - left. left. split; vm_compute; reflexivity.
  - vm_compute. reflexivity.
Defined.

(** X5 on a disk without the directory of the branch. *)
Lemma failed_write_is_reported_witness :
  returned (addBuild dirname second ∅) = Settled (Rejected ENOENT) /\
  unhandled (addBuild dirname second ∅) = None /\
  exists j,
    last (calls (addBuild dirname second ∅))
    = Some (WriteFile (ledger_file dirname second) (Json j)).
Proof.
  apply (failed_write_is_reported dirname second ∅ []
           (VObj Plain (props_of_members second_record))).
  - reflexivity.
  - reflexivity.
  - left. left. split; reflexivity.
  - reflexivity.
  - intros k. discriminate.
  - intros data. reflexivity.
Defined.

(** X6 at a ledger that holds one brace. *)
Lemma malformed_ledger_is_never_answered_witness :
  addBuild dirname second (<[builds_json := File rwx (Malformed "{")]> bare)
  = Run Pending (Some SyntaxError)
      (<[builds_json := File rwx (Malformed "{")]> bare)
      [ExistsSync (ledger_file dirname second);
       ReadFile (ledger_file dirname second)].
Proof.
  apply (malformed_ledger_is_never_answered dirname second _ "{").
  - reflexivity.
  - vm_compute. reflexivity.
  - vm_compute. reflexivity.
Defined.

(** X7 at build 2. *)
Lemma accepted_build_is_accepted_elsewhere_witness :
  isValid second false = true /\
  forall dirname' spelling document fs',
    promise_of (clearWorkspace dirname' second fs').1
      <> Settled (Rejected (Reason "Invalid Job!")) /\
    returned (generateHTML dirname' spelling document second fs')
      <> Settled (Rejected (Reason "Invalid Job")) /\
    returned (generateBadge dirname' spelling document second fs')
      <> Settled (Rejected (Reason "Invalid Job")).
Proof.
  apply (accepted_build_is_accepted_elsewhere dirname second bare).
  vm_compute. discriminate.
Defined.

(** X8 at the cluttered workspace. *)
Lemma clearFolder_calls_stay_under_its_path_witness :
  (forall pos c,
     (pos, Call c) ∈ a_fails_first_events ->
     files `prefix_of` path_of_call c /\ looks_or_removes c) /\
  (forall q,
     fst (fst (run_schedule cluttered (clearFolder files) a_fails_first)) !! q
     = cluttered !! q \/
     fst (fst (run_schedule cluttered (clearFolder files) a_fails_first)) !! q
     = None).
Proof.
  apply (clearFolder_calls_stay_under_its_path cluttered files a_fails_first
           _ a_fails_first_task a_fails_first_events).
  apply triple_eq; vm_compute; reflexivity.
Defined.

(** X9 at the tidy workspace, with every call completed. *)
Lemma fulfilled_clearFolder_has_removed_the_tree_witness :
  fst (fst (run_schedule tidy (clearFolder files) to_the_end)) !! files = None /\
  forall q : path,
    files `prefix_of` q ->
    fst (fst (run_schedule tidy (clearFolder files) to_the_end)) !! q = None.
Proof.
  destruct (fulfilled_clearFolder_has_removed_the_tree tidy files to_the_end
              (fst (fst (run_schedule tidy (clearFolder files) to_the_end)))
              to_the_end_task to_the_end_events) as [Hgone Hunder].
  - apply triple_eq; vm_compute; reflexivity.
  - reflexivity.
  - split; [exact Hgone|]. apply Hunder, hierarchical_check.
    vm_compute. reflexivity.
Defined.

(** X10 at the example project without working files. *)
Lemma clearFolder_of_an_unreachable_path_witness :
  run_schedule bare (clearFolder files) [[]]
  = (bare, Task (Settled (Rejected ENOENT)) Idle [],
     [([], Settle (Rejected ENOENT))]).
Proof.
  apply (clearFolder_of_an_unreachable_path bare files ENOENT [[]]).
  vm_compute. reflexivity.
Defined.

(** X11 at the file [b] of the cluttered workspace. *)
Lemma clearFolder_of_a_file_witness :
  run_schedule cluttered (clearFolder (files ++ ["b"])%list) [[]; []]
  = (delete (files ++ ["b"])%list cluttered, Task (Settled Fulfilled) Idle [],
     [([], Call (Unlink (files ++ ["b"])%list)); ([], Settle Fulfilled)]).
Proof.
  apply (clearFolder_of_a_file cluttered (files ++ ["b"])%list rwx
           (Malformed "b") [[]; []]).
  - vm_compute. reflexivity.
  - reflexivity.
Defined.

(** X12 at a FIFO in the place of the working files. *)
Lemma clearFolder_of_a_special_entry_witness :
  run_schedule (<[files := Special rwx]> bare) (clearFolder files) [[]; []]
  = (<[files := Special rwx]> bare, Task Pending Idle [], []).
Proof.
  apply (clearFolder_of_a_special_entry (<[files := Special rwx]> bare)
           files rwx [[]; []]).
  - apply lookup_insert_eq.
  - reflexivity.
Defined.

Lemma removable_tidy : removable tidy files.
Proof.
  apply (removable_dir _ _ rwx); [vm_compute; reflexivity|reflexivity..|].
  intros name Hname.
  assert (entries tidy files = ["d"; "b"; "a"]) as Hfiles
    by (vm_compute; reflexivity).
  rewrite Hfiles in Hname. clear Hfiles.
  apply elem_of_cons in Hname as [->|Hname].
  { apply (removable_dir _ _ rwx); [vm_compute; reflexivity|reflexivity..|].
    intros name Hname.
    assert (entries tidy (files ++ ["d"])%list = ["c"]) as Hd
      by (vm_compute; reflexivity).
    rewrite Hd in Hname. apply list_elem_of_singleton in Hname as ->.
    apply (removable_file _ _ rwx (Malformed "c"));
      [vm_compute; reflexivity|reflexivity..]. }
  apply elem_of_cons in Hname as [->|Hname].
  { apply (removable_file _ _ rwx (Malformed "b"));
      [vm_compute; reflexivity|reflexivity..]. }
  apply list_elem_of_singleton in Hname as ->.
  apply (removable_file _ _ rwx (Malformed "a"));
    [vm_compute; reflexivity|reflexivity..].
Defined.

(** X13 at the tidy workspace. *)
Lemma removable_tree_is_removed_witness :
  exists schedule fs' t evs,
    run_schedule tidy (clearFolder files) schedule = (fs', t, evs) /\
    promise_of t = Settled Fulfilled /\
    fs' !! files = None /\
    forall q : path, ~ files `prefix_of` q -> fs' !! q = tidy !! q.
Proof. apply (removable_tree_is_removed tidy files), removable_tidy. Defined.

(** X14 at the tidy workspace, with every call completed. *)
Lemma clearWorkspace_calls_stay_in_the_workspace_witness :
  Forall (fun c => path_of_call c = workspace dirname (job_without_commit 2 true))
    (clearWorkspace dirname (job_without_commit 2 true) tidy).2 /\
  (forall pos c, (pos, Call c) ∈ to_the_end_events ->
     workspace dirname (job_without_commit 2 true) `prefix_of` path_of_call c /\
     looks_or_removes c /\
     path_of_call c <> ledger_file dirname (job_without_commit 2 true) /\
     path_of_call c <> page_file dirname (job_without_commit 2 true) /\
     path_of_call c <> badge_file dirname (job_without_commit 2 true)) /\
  (forall q,
     fst (fst (run_schedule tidy
                 (clearWorkspace dirname (job_without_commit 2 true) tidy).1
                 to_the_end)) !! q = tidy !! q \/
     fst (fst (run_schedule tidy
                 (clearWorkspace dirname (job_without_commit 2 true) tidy).1
                 to_the_end)) !! q = None).
Proof.
  apply (clearWorkspace_calls_stay_in_the_workspace dirname
           (job_without_commit 2 true) tidy to_the_end _
           to_the_end_task to_the_end_events).
  apply triple_eq; vm_compute; reflexivity.
Defined.

(** X15 at the tidy workspace. *)
Lemma clearWorkspace_clears_a_removable_workspace_witness :
  exists schedule fs' t evs,
    run_schedule tidy
      (clearWorkspace dirname (job_without_commit 2 true) tidy).1 schedule
    = (fs', t, evs) /\
    promise_of t = Settled Fulfilled /\
    fs' !! workspace dirname (job_without_commit 2 true) = None /\
    fs' !! ledger_file dirname (job_without_commit 2 true)
    = tidy !! ledger_file dirname (job_without_commit 2 true).
Proof.
  apply (clearWorkspace_clears_a_removable_workspace dirname
           (job_without_commit 2 true) tidy).
  - reflexivity.
  - exact removable_tidy.
Defined.

(** X16 at build 2. *)
Lemma files_of_a_branch_witness :
  ledger_file dirname second = builds_json /\
  workspace dirname second = files /\
  page_file dirname second = (branch ++ ["index.html"])%list /\
  badge_file dirname second = (branch ++ ["badge.svg"])%list /\
  branch_directory dirname second = branch.
Proof.
  destruct (files_of_a_branch dirname second) as (Hl & Hw & Hp & Hb & Hd).
  rewrite Hl, Hw, Hp, Hb, Hd by reflexivity. by split_and!.
Defined.

(** X17 at the key of the example project. *)
Lemma job_of_a_key_witness :
  job_of "owner/repo:master" = Ok listed /\
  isValid listed false = true /\ isValid listed true = false.
Proof. apply (job_of_a_key "owner" "repo" "master"); reflexivity. Defined.

(** X18 at a key without a branch. *)
Lemma job_of_a_key_without_branch_witness :
  job_of "owner/other"
  = Ok (VObj Plain [("author", VStr "owner"); ("repo", VStr "other");
                    ("branch", VUndefined)]) /\
  isValid (VObj Plain [("author", VStr "owner"); ("repo", VStr "other");
                       ("branch", VUndefined)]) false = false.
Proof. apply (job_of_a_key_without_branch "owner" "other"); reflexivity. Defined.

(** X19 at the projects of the site. *)
Lemma getProjects_lists_every_key_witness :
  getProjects dirname site
  = Resolved [ listed;
               VObj Plain [("author", VStr "owner"); ("repo", VStr "other");
                           ("branch", VUndefined)] ].
Proof.
  apply (getProjects_lists_every_key dirname site repos).
  - vm_compute. reflexivity.
  - repeat constructor.
Defined.

(** X20 at the key [readme]. *)
Lemma getProjects_stops_at_a_key_without_slash_witness :
  job_of "readme" = Throw TypeError /\
  getProjects dirname strayed = Escaped TypeError.
Proof.
  apply (getProjects_stops_at_a_key_without_slash dirname strayed stray
           "readme" (JObj [])).
  - vm_compute. reflexivity.
  - right. left.
  - reflexivity.
Defined.

(** X21 at the example project without resources. *)
Lemma getProjects_failures_witness :
  getProjects dirname bare = Failed ENOENT.
Proof.
  destruct (getProjects_failures dirname bare) as (Hread & _ & _).
  apply Hread. vm_compute. reflexivity.
Defined.

(** X22 at the page of the example project. *)
Lemma render_page_fills_the_placeholders_witness :
  render_page (filled pattern page_template) listed
  = "<h1>owner/repo (master)</h1>".
Proof.
  rewrite (render_page_fills_the_placeholders page_template listed).
  - reflexivity.
  - apply plain_check. reflexivity.
  - reflexivity.
  - reflexivity.
  - reflexivity.
Defined.

(** X23 at the badge of a job without [success]. *)
Lemma render_badge_fills_the_placeholders_witness :
  render_badge (filled pattern badge_template) listed
  = "<svg><rect fill=rgb(220, 30, 30)/><text>FAILURE</text></svg>".
Proof.
  destruct (render_badge_fills_the_placeholders badge_template listed)
    as [-> _].
  - apply plain_check. reflexivity.
  - reflexivity.
Defined.

(** X24 at the site, and without the resources. *)
Lemma generateHTML_settles_witness :
  returned (generateHTML dirname no_spelling no_document listed site)
  = Settled Fulfilled /\
  returned (generateHTML dirname no_spelling no_document listed bare)
  <> Pending.
Proof.
  split.
  - destruct (generateHTML_settles dirname no_spelling no_document listed site)
      as (_ & _ & _ & _ & Hiff & _); [vm_compute; reflexivity..|].
    apply Hiff. split; [reflexivity|].
    exists (Malformed (filled pattern page_template)). eexists. split.
    + vm_compute. reflexivity.
    + apply (writeFile_new _ _ rwx); vm_compute; reflexivity.
  - apply (generateHTML_settles dirname no_spelling no_document listed bare);
      vm_compute; reflexivity.
Defined.

(** X25 at the site, and without the resources. *)
Lemma generateBadge_settles_witness :
  returned (generateBadge dirname no_spelling no_document listed site)
  = Settled Fulfilled /\
  returned (generateBadge dirname no_spelling no_document listed bare)
  <> Pending.
Proof.
  split.
  - destruct (generateBadge_settles dirname no_spelling no_document listed site)
      as (_ & _ & _ & _ & Hiff & _); [vm_compute; reflexivity..|].
    apply Hiff. split; [reflexivity|].
    exists (Malformed (filled pattern badge_template)). eexists. split.
    + vm_compute. reflexivity.
    + apply (writeFile_new _ _ rwx); vm_compute; reflexivity.
  - apply (generateBadge_settles dirname no_spelling no_document listed bare);
      vm_compute; reflexivity.
Defined.

(** X26 at a job without commit: with the write-only ledger the promise
    stays pending, without a ledger it is settled. *)
Lemma addBuild_hangs_only_in_the_callback_witness :
  returned (addBuild dirname (job_without_commit 2 true) locked) = Pending /\
  returned (addBuild dirname (job_without_commit 2 true) bare) <> Pending.
Proof.
  split.
  - destruct (addBuild_hangs_only_in_the_callback dirname
                (job_without_commit 2 true) locked) as (Hiff & _ & _);
      [vm_compute; reflexivity|].
    apply Hiff. vm_compute. eauto.
  - destruct (addBuild_hangs_only_in_the_callback dirname
                (job_without_commit 2 true) bare) as (_ & Hsettles & _);
      [vm_compute; reflexivity|].
    apply Hsettles. vm_compute. reflexivity.
Defined.

(** X27 at the tidy workspace, with every call completed. *)
Lemma clearFolder_succeeds_in_every_order_witness :
  (forall e,
     promise_of (snd (fst (run_schedule tidy (clearFolder files) to_the_end)))
     <> Settled (Rejected e)) /\
  (forall pos e,
     (pos, Settle (Rejected e))
     ∉ snd (run_schedule tidy (clearFolder files) to_the_end)) /\
  (quiescent (fst (fst (run_schedule tidy (clearFolder files) to_the_end)))
     (snd (fst (run_schedule tidy (clearFolder files) to_the_end))) ->
   promise_of (snd (fst (run_schedule tidy (clearFolder files) to_the_end)))
   = Settled Fulfilled /\
   fst (fst (run_schedule tidy (clearFolder files) to_the_end)) !! files
   = None).
Proof.
  apply (clearFolder_succeeds_in_every_order tidy files to_the_end
           (fst (fst (run_schedule tidy (clearFolder files) to_the_end)))
           (snd (fst (run_schedule tidy (clearFolder files) to_the_end)))
           (snd (run_schedule tidy (clearFolder files) to_the_end))).
  - exact removable_tidy.
  - apply triple_eta.
Defined.

(** X28 at the cluttered workspace, whose file [a] may not be removed. *)
Lemma unremovable_entry_is_kept_witness :
  fst (fst (run_schedule cluttered (clearFolder files) to_the_end))
    !! (files ++ ["a"])%list
  = Some (File (Mode true true true false) (Malformed "a")) /\
  promise_of (snd (fst (run_schedule cluttered (clearFolder files)
                          to_the_end)))
  <> Settled Fulfilled /\
  is_Some (fst (fst (run_schedule cluttered (clearFolder files) to_the_end))
             !! files).
Proof.
  destruct (unremovable_entry_is_kept cluttered files to_the_end
              (fst (fst (run_schedule cluttered (clearFolder files)
                           to_the_end)))
              (snd (fst (run_schedule cluttered (clearFolder files)
                           to_the_end)))
              (snd (run_schedule cluttered (clearFolder files) to_the_end))
              (files ++ ["a"])%list
              (File (Mode true true true false) (Malformed "a")))
    as [Hkept Hnever].
  - apply triple_eta.
  - vm_compute. reflexivity.
  - reflexivity.
  - split; [exact Hkept|]. apply Hnever.
    + apply hierarchical_check. vm_compute. reflexivity.
    + by apply prefix_app_r.
Defined.

End MoreWitnesses.
